(** * Forward trajectories through CM1 output: a model of
      [trajectory_test_scripts/forwards_traj_fast.ipynb]

    The notebook advects a swarm of parcels through a time-varying gridded
    wind field.  Its arithmetic is NumPy [float64] arithmetic, so the model
    below computes with Rocq's primitive binary64 floats: not-a-number,
    infinities, signed zeros and rounding are those of IEEE 754, as in the
    program.  Python exceptions ([ValueError], [IndexError],
    [ZeroDivisionError]) are modelled by [None] in the [option] monad.

    Three library routines the notebook calls are modelled from their
    implementation: [numpy.nanmin]/[nanmax] (an [fmin]/[fmax] reduction),
    [scipy.interpolate.interpn] with [method='linear', bounds_error=False]
    (the [_find_indices]/[_evaluate_linear] pair of [RegularGridInterpolator]
    whose lines appear in the traceback stored in the notebook), and
    [scipy.ndimage.uniform_filter] with its default [mode='reflect']. *)

From Stdlib Require Import ZArith List Bool Lia Floats.
Import ListNotations.
Open Scope Z_scope.

(** ** The option monad for Python exceptions *)

Definition bind {A B} (m : option A) (k : A -> option B) : option B :=
  match m with Some a => k a | None => None end.

Notation "x <- m ;; k" := (bind m (fun x => k))
  (at level 61, m at next level, right associativity).
Notation "' p <- m ;; k" := (bind m (fun p => k))
  (at level 61, p pattern, m at next level, right associativity).

Fixpoint mapM {A B} (f : A -> option B) (l : list A) : option (list B) :=
  match l with
  | [] => Some []
  | a :: r => b <- f a ;; bs <- mapM f r ;; Some (b :: bs)
  end.

(** ** Python sequences *)

Definition len {A} (l : list A) : Z := Z.of_nat (length l).

(** [l[i]] for a Python integer index: negative indices count from the end,
    anything outside [-len, len) raises [IndexError]. *)
Definition py_index {A} (l : list A) (i : Z) : option A :=
  if (0 <=? i) && (i <? len l) then nth_error l (Z.to_nat i)
  else if (- len l <=? i) && (i <? 0) then nth_error l (Z.to_nat (i + len l))
  else None.

(** A slice bound, as Python normalises it against a length [n]. *)
Definition py_bound (n i : Z) : Z :=
  if i <? 0 then Z.max 0 (i + n) else Z.min i n.

(** [l[lo:hi]]. *)
Definition py_slice {A} (l : list A) (lo hi : Z) : list A :=
  let a := py_bound (len l) lo in
  let b := py_bound (len l) hi in
  firstn (Z.to_nat (b - a)) (skipn (Z.to_nat a) l).

(** [np.arange(0, n)], an integer array. *)
Definition arange (n : Z) : list Z := map Z.of_nat (seq 0 (Z.to_nat n)).

(** [a[i] = v] on the leading axis, for [0 <= i]; [IndexError] when out of
    range. *)
Fixpoint set_row {A} (l : list A) (i : nat) (v : A) : option (list A) :=
  match l, i with
  | [], _ => None
  | _ :: r, O => Some (v :: r)
  | a :: r, S j => r' <- set_row r j v ;; Some (a :: r')
  end.

(** [itertools.product] of the lists [ls]: the rightmost factor advances
    fastest. *)
Fixpoint product {A} (ls : list (list A)) : list (list A) :=
  match ls with
  | [] => [[]]
  | l :: r => flat_map (fun a => map (cons a) (product r)) l
  end.

Fixpoint zip3 {A B C} (a : list A) (b : list B) (c : list C) : list (A * B * C) :=
  match a, b, c with
  | x :: a', y :: b', z :: c' => (x, y, z) :: zip3 a' b' c'
  | _, _, _ => []
  end.

Fixpoint map2 {A B C} (f : A -> B -> C) (a : list A) (b : list B) : list C :=
  match a, b with
  | x :: a', y :: b' => f x y :: map2 f a' b'
  | _, _ => []
  end.

(** ** NumPy scalars *)

Module NumPy.

(** An integer operand promoted to [float64] (round to nearest even). *)
Definition Z2float (z : Z) : float :=
  SF2Prim (binary_normalize prec emax z 0 false).

(** [np.int(x)], that is Python's [int(x)] on a float: truncation towards
    zero; [ValueError] on not-a-number, [OverflowError] on an infinity. *)
Definition np_int (x : float) : option Z :=
  match Prim2SF x with
  | S754_zero _ => Some 0
  | S754_finite s m e =>
      Some (if s then - Z.shiftl (Zpos m) e else Z.shiftl (Zpos m) e)
  | S754_infinity _ | S754_nan => None
  end.

(** [np.fmin] and [np.fmax]: the other operand wins over a not-a-number. *)
Definition fmin (a b : float) : float :=
  if (a <=? b)%float || is_nan b then a else b.

Definition fmax (a b : float) : float :=
  if (b <=? a)%float || is_nan b then a else b.

(** [np.nanmin(a)] and [np.nanmax(a)] on a float array: [fmin.reduce] and
    [fmax.reduce] over the flattened array.  An empty array raises
    [ValueError]; an array of not-a-numbers only yields not-a-number (with
    a warning). *)
Definition nanmin (a : list float) : option float :=
  match a with
  | [] => None
  | x :: r => Some (fold_left fmin r x)
  end.

Definition nanmax (a : list float) : option float :=
  match a with
  | [] => None
  | x :: r => Some (fold_left fmax r x)
  end.

(** One element of [a.clip(min=0)]: replaced by the bound when below it. *)
Definition clip_min0 (x : float) : float :=
  if (x <? 0)%float then 0%float else x.

(** [a.clip(min=0)] on a (time, parcel) array: a new array, every element
    clipped. *)
Definition clip (a : list (list float)) : list (list float) :=
  map (map clip_min0) a.

(** [np.searchsorted(grid, x)] on an ascending integer grid: the number of
    grid points below [x], a not-a-number sorting after every number. *)
Definition searchsorted (grid : list Z) (x : float) : Z :=
  len (filter (fun g => (Z2float g <? x)%float || is_nan x) grid).

End NumPy.
Import NumPy.

(** ** SciPy routines *)

Module SciPy.

(** Two- and three-dimensional [float64] arrays, leading axis outermost. *)
Definition field2 := list (list float).
Definition field3 := list (list (list float)).

Inductive ndarray :=
  | Arr2 (v : field2)
  | Arr3 (v : field3).

(** [values[edge]] for a tuple of integer indices. *)
Definition getitem (values : ndarray) (edge : list Z) : option float :=
  match values, edge with
  | Arr2 v, [j; i] => r <- py_index v j ;; py_index r i
  | Arr3 v, [k; j; i] => p <- py_index v k ;; r <- py_index p j ;; py_index r i
  | _, _ => None
  end.

(** [values.shape[i] == len(points[i])] on every axis. *)
Definition shape_matches (points : list (list Z)) (values : ndarray) : bool :=
  match values, points with
  | Arr2 v, [py; px] =>
      (len v =? len py) && forallb (fun r => len r =? len px) v
  | Arr3 v, [pz; py; px] =>
      (len v =? len pz)
      && forallb (fun p => (len p =? len py)
                           && forallb (fun r => len r =? len px) p) v
  | _, _ => false
  end.

(** [np.all(np.diff(p) > 0.)]. *)
Fixpoint ascending (p : list Z) : bool :=
  match p with
  | a :: r => match r with
              | b :: _ => (a <? b) && ascending r
              | [] => true
              end
  | [] => true
  end.

(** [RegularGridInterpolator._find_indices] on one axis and one query
    coordinate: the lower edge index, the normalised distance to it, and
    whether the coordinate is out of bounds. *)
Definition find_indices (grid : list Z) (x : float) : option (Z * float * bool) :=
  let i := searchsorted grid x - 1 in
  let i := if i <? 0 then 0 else i in
  let i := if i >? len grid - 2 then len grid - 2 else i in
  g_i <- py_index grid i ;;
  g_i1 <- py_index grid (i + 1) ;;
  g_0 <- py_index grid 0 ;;
  g_last <- py_index grid (-1) ;;
  Some (i,
        ((x - Z2float g_i) / Z2float (g_i1 - g_i))%float,
        (x <? Z2float g_0)%float || (Z2float g_last <? x)%float).

(** The weight of one corner ("edge") of the enclosing cell. *)
Definition weight (edge : list Z) (ind : list (Z * float * bool)) : float :=
  fold_left
    (fun (w : float) '(ei, (i, yi, _)) =>
       (w * (if (ei =? i)%Z then 1 - yi else yi))%float)
    (combine edge ind) 1%float.

(** [RegularGridInterpolator._evaluate_linear] at one query point. *)
Definition evaluate_linear (values : ndarray) (ind : list (Z * float * bool))
  : option float :=
  fold_left
    (fun acc edge =>
       a <- acc ;; v <- getitem values edge ;;
       Some (a + v * weight edge ind)%float)
    (product (map (fun '(i, _, _) => [i; i + 1]) ind))
    (Some 0%float).

Definition out_of_bounds (ind : list (Z * float * bool)) : bool :=
  existsb (fun '(_, _, o) => o) ind.

(** One query point: interpolate, then overwrite with the fill value when
    the point is out of bounds on some axis. *)
Definition interp_point (points : list (list Z)) (values : ndarray)
    (fill_value : float) (xi : list float) : option float :=
  if negb (length xi =? length points)%nat then None else
  ind <- mapM (fun '(grid, x) => find_indices grid x) (combine points xi) ;;
  result <- evaluate_linear values ind ;;
  Some (if out_of_bounds ind then fill_value else result).

(** [interpolate.interpn(points, values, xi, method='linear',
    bounds_error=False, fill_value=fill_value)]. *)
Definition interpn (points : list (list Z)) (values : ndarray)
    (xi : list (list float)) (fill_value : float) : option (list float) :=
  if negb (forallb ascending points) then None else
  if negb (shape_matches points values) then None else
  mapM (interp_point points values fill_value) xi.

(** *** The moving-average filter *)

(** Index of the input sample seen at position [p] of a line of length [n]
    extended by reflection about its edges: [d c b a | a b c d | d c b a]. *)
Definition reflect (n p : Z) : Z :=
  let q := p mod (2 * n) in
  if q <? n then q else 2 * n - 1 - q.

(** A line with [size / 2] samples prepended and [size - size / 2 - 1]
    appended. *)
Definition extend_line (size : Z) (line : list float) : list float :=
  map (fun k => nth (Z.to_nat (reflect (len line) (k - size / 2))) line 0%float)
      (arange (len line + size - 1)).

Fixpoint running_mean (size tmp : float) (steps : list (float * float))
  : list float :=
  match steps with
  | [] => []
  | (l2, l1) :: r =>
      let tmp' := (tmp + (l2 - l1))%float in
      (tmp' / size)%float :: running_mean size tmp' r
  end.

(** [uniform_filter1d] along one line, with [origin = 0]: output [i] is
    the mean of the extended samples [i - size / 2 .. i + size - size / 2
    - 1], computed as a running sum divided by [size]. *)
Definition uniform_filter1d (size : Z) (line : list float) : list float :=
  match line with
  | [] => []
  | _ :: _ =>
      let ext := extend_line size line in
      let tmp := fold_left PrimFloat.add (firstn (Z.to_nat size) ext) 0%float in
      (tmp / Z2float size)%float
        :: running_mean (Z2float size) tmp
             (combine (skipn (Z.to_nat size) ext) ext)
  end.

Fixpoint transpose {A} (m : list (list A)) : list (list A) :=
  match m with
  | [] => []
  | r :: m' =>
      match m' with
      | [] => map (fun a => [a]) r
      | _ :: _ => map2 cons r (transpose m')
      end
  end.

(** A line filter applied along the leading axis of a two-dimensional
    array. *)
Definition along_rows (f : list float -> list float) (p : field2) : field2 :=
  transpose (map f (transpose p)).

(** [scipy.ndimage.filters.uniform_filter(input, size)] on a 3-D array,
    with the default [mode='reflect']: the line filter along axis 0, then
    axis 1, then axis 2 (no axis is filtered when [size <= 1]). *)
Definition uniform_filter (input : field3) (size : Z) : field3 :=
  if size <=? 1 then input else
  let f := uniform_filter1d size in
  let a0 := transpose (map (along_rows f) (transpose input)) in
  let a1 := map (along_rows f) a0 in
  map (map f) a1.

End SciPy.
Import SciPy.

(** ** The notebook *)

Module Trajectory.

(** The CM1 output opened in [ds]: the grid sizes, the time series of the
    three velocity components and of the tracked variable
    ([getattr(ds, var_name1)]), each indexed [time, z, y, x]; the surface
    height [ds.zs] and the level heights [ds.zh] when the output has
    terrain, and the one-dimensional level heights [ds.z] (in km). *)
Record dataset := {
  nx : Z;
  ny : Z;
  nz : Z;
  uinterp : list field3;
  vinterp : list field3;
  winterp : list field3;
  tracked : list field3;
  zs : option (list field2);
  zh : option (list field3);
  z_km : list float
}.

(** The values marked "set by user", and the two quantities the notebook
    derives from the coordinates of [ds]: [hor_resolution], the spacing of
    [ds.xf] in metres, and [time_step_length], the spacing of [ds.time] in
    seconds times [incre].  Both enter the loop as [float64] factors
    only. *)
Record settings := {
  time_steps : nat;
  incre : Z;
  start_time_step : Z;
  staggered : bool;
  hor_resolution : float;
  time_step_length : float
}.

(** The six (time, parcel) arrays; a parcel is one entry of the flattened
    [(num_seeds_z, num_seeds_y)] block, so that [flatten] and [reshape] are
    the identity on a row. *)
Record arrays := {
  xpos : list (list float);
  ypos : list (list float);
  zpos : list (list float);
  zpos_heightASL : list (list float);
  zpos_vert_res : list (list float);
  variable1 : list (list float)
}.

Definition x (ds : dataset) : list Z := arange (nx ds).
Definition y (ds : dataset) : list Z := arange (ny ds).
Definition z (ds : dataset) : list Z := arange (nz ds).

Definition sub3 (a b : field3) : field3 :=
  map2 (map2 (map2 PrimFloat.sub)) a b.

(** A (levels, ny, nx) array constant on each level: the two [np.repeat]
    and [reshape] calls of the branch without terrain.  The reshape needs
    as many values as levels; datasets with [nz < 1] or [ny < 1] are
    rejected here. *)
Definition by_level (ds : dataset) (levels : Z) (d : list float) : option field3 :=
  if (1 <=? nz ds) && (1 <=? ny ds) && (0 <=? nx ds) && (len d =? levels)
  then Some (map (fun r => repeat (repeat r (Z.to_nat (nx ds))) (Z.to_nat (ny ds))) d)
  else None.

(** Vertical resolution of the model output (metres): the difference of
    consecutive level heights. *)
Definition vert_resolution (ds : dataset) : option field3 :=
  match zh ds with
  | Some (zh0 :: _) => Some (sub3 (py_slice zh0 1 (len zh0)) (py_slice zh0 0 (-1)))
  | _ =>
      let zk := z_km ds in
      by_level ds (nz ds - 1)
        (map2 (fun a b => ((a - b) * 1000)%float)
              (py_slice zk 1 (len zk)) (py_slice zk 0 (-1)))
  end.

(** Height of the scalar levels (metres above sea level). *)
Definition level_height (ds : dataset) : option field3 :=
  match zh ds with
  | Some (zh0 :: _) => Some zh0
  | _ => by_level ds (nz ds) (map (fun a => (a * 1000)%float) (z_km ds))
  end.

(** Surface height grid (zero if no terrain). *)
Definition surface (ds : dataset) : option field2 :=
  match zs ds with
  | Some (zs0 :: _) => Some zs0
  | _ =>
      if (0 <=? ny ds) && (0 <=? nx ds)
      then Some (repeat (repeat 0%float (Z.to_nat (nx ds))) (Z.to_nat (ny ds)))
      else None
  end.

Definition coords3 (zl yl xl : list float) : list (list float) :=
  map (fun '(c, b, a) => [c; b; a]) (zip3 zl yl xl).

Definition coords2 (yl xl : list float) : list (list float) :=
  map2 (fun b a => [b; a]) yl xl.

(** *** Initial state *)

Definition zeros (steps n : nat) : list (list float) :=
  repeat (repeat 0%float n) steps.

(** The first statement of the cell "Determine Initial Height of Parcels
    Above Sea Level": [zs = ds.zh[0,:,:].values] under [try].  Its [except]
    branch, [zs = np.zeros((ds.ny,ds,nx))], names [nx], which is bound
    nowhere in the notebook, and raises [NameError]: on an output without
    [ds.zh] the cell stops there.  The value itself is not used: the loop
    assigns [zs] again before it reads it. *)
Definition initial_surface (ds : dataset) : option field3 :=
  match zh ds with
  | Some (zh0 :: _) => Some zh0
  | _ => None
  end.

(** The arrays after the cells "Create empty arrays", "Initial location of
    parcels" and "Determine Initial Height of Parcels Above Sea Level", for
    the seed positions [x0], [y0], [z0] (grid points, "set by user"). *)
Definition initialize (ds : dataset) (cfg : settings) (x0 y0 z0 : list float)
  : option arrays :=
  let n := length x0 in
  if negb ((length y0 =? n)%nat && (length z0 =? n)%nat) then None else
  let blank := zeros (time_steps cfg) n in
  xp <- set_row blank 0 x0 ;;
  yp <- set_row blank 0 y0 ;;
  zp <- set_row blank 0 z0 ;;
  _ <- initial_surface ds ;;
  zh <- level_height ds ;;
  asl0 <- interpn [z ds; y ds; x ds] (Arr3 zh) (coords3 z0 y0 x0) 0%float ;;
  asl <- set_row blank 0 asl0 ;;
  Some {| xpos := xp; ypos := yp; zpos := zp; zpos_heightASL := asl;
          zpos_vert_res := blank; variable1 := blank |}.

(** *** One pass of the time loop *)

Record window := {
  xmin : Z; xmax : Z;
  ymin : Z; ymax : Z;
  zmin : Z; zmax : Z
}.

Definition window_lo (pos : list float) : option Z :=
  m <- nanmin pos ;;
  lo <- np_int (m - 2)%float ;;
  Some (if lo <? 0 then 0 else lo).

Definition window_hi (pos : list float) (dim : Z) : option Z :=
  m <- nanmax pos ;;
  hi <- np_int (m + 2)%float ;;
  Some (if hi >? dim then dim else hi).

Definition field_window (ds : dataset) (xt yt zt : list float) : option window :=
  xlo <- window_lo xt ;; xhi <- window_hi xt (nx ds) ;;
  ylo <- window_lo yt ;; yhi <- window_hi yt (ny ds) ;;
  zlo <- window_lo zt ;; zhi <- window_hi zt (nz ds) ;;
  Some {| xmin := xlo; xmax := xhi; ymin := ylo; ymax := yhi;
          zmin := zlo; zmax := zhi |}.

Definition x_fast (win : window) : list Z := arange (xmax win - xmin win).
Definition y_fast (win : window) : list Z := arange (ymax win - ymin win).
Definition z_fast (win : window) : list Z := arange (zmax win - zmin win).

(** [var[time, zmin:zmax, ymin:ymax, xmin:xmax].values]. *)
Definition fetch (var : list field3) (time : Z) (win : window) : option field3 :=
  f <- py_index var time ;;
  Some (map (fun p => map (fun r => py_slice r (xmin win) (xmax win))
                          (py_slice p (ymin win) (ymax win)))
            (py_slice f (zmin win) (zmax win))).

(** The simulation time index read during pass [t] of the loop. *)
Definition time_index (cfg : settings) (t : nat) : Z :=
  start_time_step cfg + Z.of_nat t * incre cfg.

Definition smooth : Z := 20.

Record model_data := {
  u : field3;
  v : field3;
  w : field3;
  var1 : field3
}.

(** "Get model data" and "Smooth data".  The loop variable is scaled by
    [incre] for the reads and divided back afterwards, which raises
    [ZeroDivisionError] when [incre] is zero and restores [t] otherwise. *)
Definition get_model_data (ds : dataset) (cfg : settings) (t : nat) (win : window)
  : option model_data :=
  u0 <- fetch (uinterp ds) (time_index cfg t) win ;;
  v0 <- fetch (vinterp ds) (time_index cfg t) win ;;
  w0 <- fetch (winterp ds) (time_index cfg t) win ;;
  s0 <- fetch (tracked ds) (time_index cfg t) win ;;
  if incre cfg =? 0 then None else
  Some {| u := uniform_filter u0 smooth;
          v := uniform_filter v0 smooth;
          w := uniform_filter w0 smooth;
          var1 := uniform_filter s0 smooth |}.

Definition rebase (pos : list float) (lo : Z) : list float :=
  map (fun p => (p - Z2float lo)%float) pos.

Definition rebase_stag (pos : list float) (lo : Z) : list float :=
  map (fun p => ((p + 0.5) - Z2float lo)%float) pos.

Definition unbase (loc : list float) (lo : Z) : list float :=
  map (fun p => (p + Z2float lo)%float) loc.

(** "Generate coordinates for interpolations": the query points for [u],
    [v] and [w] (staggered in x, y and z respectively when the velocities
    are on the staggered grid), the window-relative scalar points
    [coord_fast] and the full-grid scalar points [coord]. *)
Definition coord_u (cfg : settings) (win : window) (xt yt zt : list float) :=
  coords3 (rebase zt (zmin win)) (rebase yt (ymin win))
          (if staggered cfg then rebase_stag xt (xmin win) else rebase xt (xmin win)).

Definition coord_v (cfg : settings) (win : window) (xt yt zt : list float) :=
  coords3 (rebase zt (zmin win))
          (if staggered cfg then rebase_stag yt (ymin win) else rebase yt (ymin win))
          (rebase xt (xmin win)).

Definition coord_w (cfg : settings) (win : window) (xt yt zt : list float) :=
  coords3 (if staggered cfg then rebase_stag zt (zmin win) else rebase zt (zmin win))
          (rebase yt (ymin win)) (rebase xt (xmin win)).

Definition coord_fast (win : window) (xt yt zt : list float) :=
  coords3 (rebase zt (zmin win)) (rebase yt (ymin win)) (rebase xt (xmin win)).

Definition coord (win : window) (xt yt zt : list float) :=
  coords3 (unbase (rebase zt (zmin win)) (zmin win))
          (unbase (rebase yt (ymin win)) (ymin win))
          (unbase (rebase xt (xmin win)) (xmin win)).

Definition fast_grid (win : window) : list (list Z) :=
  [z_fast win; y_fast win; x_fast win].

(** Interpolated surface height at horizontal positions (y, x). *)
Definition surface_at (ds : dataset) (zs : field2) (yl xl : list float)
  : option (list float) :=
  interpn [y ds; x ds] (Arr2 zs) (coords2 yl xl) nan.

(** "Integrate to determine parcel's new location": rows [t+1] of [xpos],
    [ypos], [zpos_heightASL] and [zpos] and row [t] of [zpos_vert_res], as
    they stand before the clip. *)
Definition integrate (ds : dataset) (cfg : settings) (vres : field3)
    (t : nat) (win : window) (md : model_data) (s : arrays) : option arrays :=
  xt <- nth_error (xpos s) t ;;
  yt <- nth_error (ypos s) t ;;
  zt <- nth_error (zpos s) t ;;
  at_ <- nth_error (zpos_heightASL s) t ;;
  zs <- surface ds ;;
  iu <- interpn (fast_grid win) (Arr3 (u md)) (coord_u cfg win xt yt zt) nan ;;
  let xn := map2 (fun p i => (p + i * time_step_length cfg / hor_resolution cfg)%float) xt iu in
  xp <- set_row (xpos s) (S t) xn ;;
  iv <- interpn (fast_grid win) (Arr3 (v md)) (coord_v cfg win xt yt zt) nan ;;
  let yn := map2 (fun p i => (p + i * time_step_length cfg / hor_resolution cfg)%float) yt iv in
  yp <- set_row (ypos s) (S t) yn ;;
  iw <- interpn (fast_grid win) (Arr3 (w md)) (coord_w cfg win xt yt zt) 0%float ;;
  let an := map2 (fun p i => (p + i * time_step_length cfg)%float) at_ iw in
  asl <- set_row (zpos_heightASL s) (S t) an ;;
  vr <- interpn [py_slice (z ds) 0 (-1); y ds; x ds] (Arr3 vres)
                (coord win xt yt zt) nan ;;
  vrs <- set_row (zpos_vert_res s) t vr ;;
  zs1 <- surface_at ds zs yt xt ;;
  zs2 <- surface_at ds zs yn xn ;;
  let zs_change := map2 PrimFloat.sub zs2 zs1 in
  let zpos_heightASL_change := map2 PrimFloat.sub an at_ in
  let zn := map2 PrimFloat.add zt
              (map2 PrimFloat.div
                 (map2 PrimFloat.sub zpos_heightASL_change zs_change) vr) in
  zp <- set_row (zpos s) (S t) zn ;;
  Some {| xpos := xp; ypos := yp; zpos := zp; zpos_heightASL := asl;
          zpos_vert_res := vrs; variable1 := variable1 s |}.

(** "Prevent parcels from going into the ground": both height arrays are
    replaced by their clipped copies. *)
Definition ground_clip (s : arrays) : arrays :=
  {| xpos := xpos s; ypos := ypos s;
     zpos := clip (zpos s);
     zpos_heightASL := clip (zpos_heightASL s);
     zpos_vert_res := zpos_vert_res s; variable1 := variable1 s |}.

(** "Calculate value of variable at each parcel's location": row [t] of
    [variable1], sampled at the query points built from rows [t] of the
    positions before the pass. *)
Definition sample_variable (md : model_data) (win : window)
    (xt yt zt : list float) (t : nat) (s : arrays) : option arrays :=
  val <- interpn (fast_grid win) (Arr3 (var1 md)) (coord_fast win xt yt zt) nan ;;
  vs <- set_row (variable1 s) t val ;;
  Some {| xpos := xpos s; ypos := ypos s; zpos := zpos s;
          zpos_heightASL := zpos_heightASL s;
          zpos_vert_res := zpos_vert_res s; variable1 := vs |}.

(** The body of [for t in range(time_steps-1)]: the field window of the
    positions of time [t], the model data, the integration, the clip and
    the scalar sample. *)
Definition step (ds : dataset) (cfg : settings) (vres : field3)
    (t : nat) (s : arrays) : option arrays :=
  xt <- nth_error (xpos s) t ;;
  yt <- nth_error (ypos s) t ;;
  zt <- nth_error (zpos s) t ;;
  win <- field_window ds xt yt zt ;;
  md <- get_model_data ds cfg t win ;;
  s1 <- integrate ds cfg vres t win md s ;;
  sample_variable md win xt yt zt t (ground_clip s1).

Fixpoint loop (ds : dataset) (cfg : settings) (vres : field3)
    (ts : list nat) (s : arrays) : option arrays :=
  match ts with
  | [] => Some s
  | t :: r => s' <- step ds cfg vres t s ;; loop ds cfg vres r s'
  end.

(** *** "Get variable data for final time step" *)

(** The simulation time index read by the last cell. *)
Definition final_time_index (cfg : settings) : Z :=
  start_time_step cfg - (Z.of_nat (time_steps cfg) - 1).

Definition shift_half (pos : list float) : list float :=
  map (fun p => (p - 0.5)%float) pos.

Definition final_sample (ds : dataset) (cfg : settings) (s : arrays)
  : option arrays :=
  let t := (time_steps cfg - 1)%nat in
  var1 <- py_index (tracked ds) (final_time_index cfg) ;;
  xt <- nth_error (xpos s) t ;;
  yt <- nth_error (ypos s) t ;;
  zt <- nth_error (zpos s) t ;;
  val <- interpn [z ds; y ds; x ds] (Arr3 var1)
           (coords3 (shift_half zt) (shift_half yt) (shift_half xt)) nan ;;
  vs <- set_row (variable1 s) t val ;;
  Some {| xpos := xpos s; ypos := ypos s; zpos := zpos s;
          zpos_heightASL := zpos_heightASL s;
          zpos_vert_res := zpos_vert_res s; variable1 := vs |}.

(** The notebook from "Initialize Parcels" to the last sampling cell. *)
Definition trajectories (ds : dataset) (cfg : settings) (x0 y0 z0 : list float)
  : option arrays :=
  vres <- vert_resolution ds ;;
  s0 <- initialize ds cfg x0 y0 z0 ;;
  s1 <- loop ds cfg vres (seq 0 (time_steps cfg - 1)) s0 ;;
  final_sample ds cfg s1.

End Trajectory.
Import Trajectory.

(** ** Notions used to state the properties *)

(** A coordinate lies outside [[grid[0], grid[-1]]]. *)
Definition axis_outside (grid : list Z) (x : float) : bool :=
  match grid with
  | [] => false
  | g0 :: _ => (x <? Z2float g0)%float || (Z2float (last grid g0) <? x)%float
  end.

(** A query point lies outside the grid on some axis. *)
Definition outside (points : list (list Z)) (xi : list float) : bool :=
  existsb (fun '(grid, x) => axis_outside grid x) (combine points xi).

(** An element of a (time, parcel) array. *)
Definition entry (a : list (list float)) (t i : nat) (v : float) : Prop :=
  exists row, nth_error a t = Some row /\ nth_error row i = Some v.

(** The query points of one parcel at grid position [(xi, yi, zi)], as the
    loop builds them: on the [u], [v] and [w] grids, on the scalar grid
    relative to the window ([coord_fast]), and on the full grid
    ([coord]). *)
Definition query_u (cfg : settings) (win : window) (xi yi zi : float) : list float :=
  [(zi - Z2float (zmin win))%float; (yi - Z2float (ymin win))%float;
   if staggered cfg then ((xi + 0.5) - Z2float (xmin win))%float
   else (xi - Z2float (xmin win))%float].

Definition query_v (cfg : settings) (win : window) (xi yi zi : float) : list float :=
  [(zi - Z2float (zmin win))%float;
   if staggered cfg then ((yi + 0.5) - Z2float (ymin win))%float
   else (yi - Z2float (ymin win))%float;
   (xi - Z2float (xmin win))%float].

Definition query_w (cfg : settings) (win : window) (xi yi zi : float) : list float :=
  [if staggered cfg then ((zi + 0.5) - Z2float (zmin win))%float
   else (zi - Z2float (zmin win))%float;
   (yi - Z2float (ymin win))%float; (xi - Z2float (xmin win))%float].

Definition query_fast (win : window) (xi yi zi : float) : list float :=
  [(zi - Z2float (zmin win))%float; (yi - Z2float (ymin win))%float;
   (xi - Z2float (xmin win))%float].

Definition query_full (win : window) (xi yi zi : float) : list float :=
  [((zi - Z2float (zmin win)) + Z2float (zmin win))%float;
   ((yi - Z2float (ymin win)) + Z2float (ymin win))%float;
   ((xi - Z2float (xmin win)) + Z2float (xmin win))%float].

(** A parcel is lost at time index [t]: its three grid coordinates are
    not-a-number. *)
Definition lost (s : arrays) (t i : nat) : Prop :=
  entry (xpos s) t i nan /\ entry (ypos s) t i nan /\ entry (zpos s) t i nan.

(** [m] is the least (for [flip = false]) or greatest (for [flip = true])
    of the numbers in [pos], not-a-numbers left out. *)
Definition extremum (flip : bool) (pos : list float) (m : float) : Prop :=
  In m pos /\ m <> nan
  /\ forall p, In p pos -> p <> nan ->
       (if flip then (p <=? m)%float else (m <=? p)%float) = true.

(** What the loop computes for one axis of the field window. *)
Definition axis_bounds (pos : list float) (dim lo hi : Z) : Prop :=
  exists mn mx a b,
    extremum false pos mn /\ extremum true pos mx
    /\ np_int (mn - 2)%float = Some a /\ lo = Z.max 0 a
    /\ np_int (mx + 2)%float = Some b /\ hi = Z.min dim b.

(** The bounds as the specification words them: floor and ceiling of the
    extremes, a margin, and a clamp on both sides. *)
Definition float_floor (x : float) : option Z :=
  match Prim2SF x with
  | S754_zero _ => Some 0
  | S754_finite s m e => Some (Z.shiftl (if s then Zneg m else Zpos m) e)
  | S754_infinity _ | S754_nan => None
  end.

Definition float_ceil (x : float) : option Z :=
  match Prim2SF x with
  | S754_zero _ => Some 0
  | S754_finite s m e => Some (- Z.shiftl (if s then Zpos m else Zneg m) e)
  | S754_infinity _ | S754_nan => None
  end.

Definition clamp (v lo hi : Z) : Z := Z.max lo (Z.min v hi).

Definition spec_window_lo (margin : Z) (pos : list float) (dim : Z) : option Z :=
  m <- nanmin pos ;; f <- float_floor m ;; Some (clamp (f - margin) 0 (dim - 1)).

Definition spec_window_hi (margin : Z) (pos : list float) (dim : Z) : option Z :=
  m <- nanmax pos ;; c <- float_ceil m ;; Some (clamp (c + margin) 0 dim).

(** The window the specification expects for a swarm of not-a-numbers. *)
Definition full_domain (ds : dataset) : window :=
  {| xmin := 0; xmax := nx ds; ymin := 0; ymax := ny ds; zmin := 0; zmax := nz ds |}.

(** The selection behind [fmin] and [fmax], for an order [rel]. *)
Definition pick (rel : float -> float -> bool) (a b : float) : float :=
  if rel a b || is_nan b then a else b.

(** The position of a [float64] that is a number in a total order: the
    sign class, then exponent and mantissa. *)
Definition SFrank (f : spec_float) : Z * Z * Z :=
  match f with
  | S754_infinity true => (-2, 0, 0)
  | S754_finite true m e => (-1, - e, Zneg m)
  | S754_zero _ => (0, 0, 0)
  | S754_nan => (0, 0, 0)
  | S754_finite false m e => (1, e, Zpos m)
  | S754_infinity false => (2, 0, 0)
  end.

Definition lex_le (a b : Z * Z * Z) : Prop :=
  match a, b with
  | (a1, a2, a3), (b1, b2, b3) =>
      a1 < b1 \/ (a1 = b1 /\ (a2 < b2 \/ (a2 = b2 /\ a3 <= b3)))
  end.

(** A located coordinate whose normalised distance is not-a-number. *)
Definition nan_located (l : Z * float * bool) : Prop :=
  match l with (_, yi, _) => yi = nan end.

(** ** A small synthetic run

    A 10 x 10 x 5 domain without terrain: horizontal resolution 1000 m,
    levels 500 m apart, a constant wind of 1 m/s along x and output every
    1000 s, so that a parcel moves one grid point per pass. *)
Module Demo.

Definition const3 (c : float) : field3 := repeat (repeat (repeat c 10) 10) 5.

Definition ds : dataset := {|
  nx := 10; ny := 10; nz := 5;
  uinterp := repeat (const3 1) 4;
  vinterp := repeat (const3 0) 4;
  winterp := repeat (const3 0) 4;
  tracked := repeat (const3 300) 4;
  zs := None;
  zh := None;
  z_km := [0; 0.5; 1; 1.5; 2]%float
|}.

Definition cfg : settings := {|
  time_steps := 4;
  incre := 1;
  start_time_step := 0;
  staggered := false;
  hor_resolution := 1000;
  time_step_length := 1000
|}.

(** The same output with the tracked field of time index [k] equal to
    [300 + k] everywhere. *)
Definition marked : dataset := {|
  nx := 10; ny := 10; nz := 5;
  uinterp := repeat (const3 1) 4;
  vinterp := repeat (const3 0) 4;
  winterp := repeat (const3 0) 4;
  tracked := [const3 300; const3 301; const3 302; const3 303];
  zs := None;
  zh := None;
  z_km := [0; 0.5; 1; 1.5; 2]%float
|}.

Definition vres : field3 := repeat (repeat (repeat 500%float 10) 10) 4.

(** Three parcels: one in the interior, one that passes the last grid
    point x = 9 on the first pass and is lost on the second, one seeded
    above the last level of the vertical-spacing field. *)
Definition x0 : list float := [0; 8.5; 0]%float.
Definition y0 : list float := [5; 5; 5]%float.
Definition z0 : list float := [2; 2; 3.5]%float.

Definition blank : list float := [0; 0; 0]%float.

(** The arrays after [initialize] (run on [Terrain.ds] below, the same
    output with [ds.zh]), after the passes [t = 0] and [t = 1], after the
    loop, and after the last sampling cell. *)
Definition seeded : arrays := {|
  xpos := [x0; blank; blank; blank];
  ypos := [y0; blank; blank; blank];
  zpos := [z0; blank; blank; blank];
  zpos_heightASL := [[1000; 1000; 1750]%float; blank; blank; blank];
  zpos_vert_res := [blank; blank; blank; blank];
  variable1 := [blank; blank; blank; blank]
|}.

Definition pass0 : arrays := {|
  xpos := [x0; [1; 9.5; 1]%float; blank; blank];
  ypos := [y0; [5; 5; 5]%float; blank; blank];
  zpos := [z0; [2; nan; nan]%float; blank; blank];
  zpos_heightASL := [[1000; 1000; 1750]%float; [1000; 1000; 1750]%float; blank; blank];
  zpos_vert_res := [[500; 500; nan]%float; blank; blank; blank];
  variable1 := [[300; 300; 300]%float; blank; blank; blank]
|}.

Definition pass1 : arrays := {|
  xpos := [x0; [1; 9.5; 1]%float; [2; nan; nan]%float; blank];
  ypos := [y0; [5; 5; 5]%float; [5; nan; nan]%float; blank];
  zpos := [z0; [2; nan; nan]%float; [2; nan; nan]%float; blank];
  zpos_heightASL := [[1000; 1000; 1750]%float; [1000; 1000; 1750]%float;
                     [1000; 1000; nan]%float; blank];
  zpos_vert_res := [[500; 500; nan]%float; [500; nan; nan]%float; blank; blank];
  variable1 := [[300; 300; 300]%float; [300; nan; nan]%float; blank; blank]
|}.

Definition looped : arrays := {|
  xpos := [x0; [1; 9.5; 1]%float; [2; nan; nan]%float; [3; nan; nan]%float];
  ypos := [y0; [5; 5; 5]%float; [5; nan; nan]%float; [5; nan; nan]%float];
  zpos := [z0; [2; nan; nan]%float; [2; nan; nan]%float; [2; nan; nan]%float];
  zpos_heightASL := [[1000; 1000; 1750]%float; [1000; 1000; 1750]%float;
                     [1000; 1000; nan]%float; [1000; nan; nan]%float];
  zpos_vert_res := [[500; 500; nan]%float; [500; nan; nan]%float;
                    [500; nan; nan]%float; blank];
  variable1 := [[300; 300; 300]%float; [300; nan; nan]%float;
                [300; nan; nan]%float; blank]
|}.

Definition final : arrays := {|
  xpos := xpos looped;
  ypos := ypos looped;
  zpos := zpos looped;
  zpos_heightASL := zpos_heightASL looped;
  zpos_vert_res := zpos_vert_res looped;
  variable1 := [[300; 300; 300]%float; [300; nan; nan]%float;
                [300; nan; nan]%float; [300; nan; nan]%float]
|}.

(** A run with the single parcel of the boundary scenario, seeded at
    x = 9.5: the arrays after the pass [t = 0]. *)
Definition lone : arrays := {|
  xpos := [[9.5]; [nan]; [0]; [0]]%float;
  ypos := [[5]; [nan]; [0]; [0]]%float;
  zpos := [[2]; [nan]; [0]; [0]]%float;
  zpos_heightASL := [[0]; [0]; [0]; [0]]%float;
  zpos_vert_res := [[nan]; [0]; [0]; [0]]%float;
  variable1 := [[nan]; [0]; [0]; [0]]%float
|}.

(** The field windows of the passes [t = 0] and [t = 1]. *)
Definition win0 : window :=
  {| xmin := 0; xmax := 10; ymin := 3; ymax := 7; zmin := 0; zmax := 5 |}.

Definition win1 : window :=
  {| xmin := 0; xmax := 10; ymin := 3; ymax := 7; zmin := 0; zmax := 4 |}.

End Demo.

(** ** The synthetic run on an output with terrain

    The seeding cells complete only on an output that has [ds.zh].
    [Terrain.ds] is [Demo.ds] with a flat surface at 0 m and the level
    heights of [Demo.ds] written out as [ds.zh]: its surface, level
    heights and vertical spacing are those of [Demo.ds], and a run on it
    goes through the arrays of [Demo].  [Terrain.marked] is [Demo.marked]
    with the same surface and level heights. *)
Module Terrain.

Definition ground : field2 := repeat (repeat 0%float 10) 10.

Definition levels : field3 :=
  map (fun h => repeat (repeat h 10) 10) [0; 500; 1000; 1500; 2000]%float.

Definition ds : dataset := {|
  nx := nx Demo.ds; ny := ny Demo.ds; nz := nz Demo.ds;
  uinterp := uinterp Demo.ds;
  vinterp := vinterp Demo.ds;
  winterp := winterp Demo.ds;
  tracked := tracked Demo.ds;
  zs := Some [ground];
  zh := Some [levels];
  z_km := z_km Demo.ds
|}.

Definition marked : dataset := {|
  nx := nx Demo.marked; ny := ny Demo.marked; nz := nz Demo.marked;
  uinterp := uinterp Demo.marked;
  vinterp := vinterp Demo.marked;
  winterp := winterp Demo.marked;
  tracked := tracked Demo.marked;
  zs := Some [ground];
  zh := Some [levels];
  z_km := z_km Demo.marked
|}.

End Terrain.

(** ** The notebook's own settings *)
Module Notebook.

(** [time_steps = 50], [incre = 5], [start_time_step = 300],
    [staggered = 'N']; the two resolutions are read from the output. *)
Definition cfg (hor_resolution time_step_length : float) : settings := {|
  time_steps := 50;
  incre := 5;
  start_time_step := 300;
  staggered := false;
  hor_resolution := hor_resolution;
  time_step_length := time_step_length
|}.

End Notebook.

(** ** Fields for the smoothing filter *)

(** Whether two 3-D fields have the same shape and compare equal element
    by element. *)
Definition same_row (a b : list float) : bool :=
  (length a =? length b)%nat && forallb (fun p => (fst p =? snd p)%float) (combine a b).

Definition same_plane (a b : list (list float)) : bool :=
  (length a =? length b)%nat && forallb (fun p => same_row (fst p) (snd p)) (combine a b).

Definition same_field (a b : field3) : bool :=
  (length a =? length b)%nat && forallb (fun p => same_plane (fst p) (snd p)) (combine a b).

Definition bump : field3 := [[[0; 400; 0]%float]].

Definition alternating : field3 := [[[0; 1]%float]].

(** ** Shapes, and the NumPy calls of the branch without terrain *)

(** A two-dimensional array of shape [(b, c)] and a three-dimensional one
    of shape [(a, b, c)]. *)
Definition has_shape2 {A} (b c : nat) (p : list (list A)) : Prop :=
  length p = b /\ Forall (fun r => length r = c) p.

Definition has_shape3 {A} (a b c : nat) (f : list (list (list A))) : Prop :=
  length f = a /\ Forall (has_shape2 b c) f.

(** The six arrays of the notebook all hold [steps] rows of [n] parcels. *)
Definition well_shaped (steps n : nat) (s : arrays) : Prop :=
  has_shape2 steps n (xpos s) /\ has_shape2 steps n (ypos s)
  /\ has_shape2 steps n (zpos s) /\ has_shape2 steps n (zpos_heightASL s)
  /\ has_shape2 steps n (zpos_vert_res s) /\ has_shape2 steps n (variable1 s).

(** The numbers of an array, not-a-numbers left out. *)
Definition numbers (pos : list float) : list float :=
  filter (fun p => negb (is_nan p)) pos.

(** A time index a variable of [steps] output times can be read at. *)
Definition readable {A} (var : list A) (time : Z) : Prop :=
  - len var <= time < len var.

(** The window selects a non-empty box inside a [(nz, ny, nx)] field. *)
Definition proper (ds : dataset) (win : window) : Prop :=
  0 <= xmin win < xmax win /\ xmax win <= nx ds
  /\ 0 <= ymin win < ymax win /\ ymax win <= ny ds
  /\ 0 <= zmin win < zmax win /\ zmax win <= nz ds.

(** No axis of the window is empty. *)
Definition nonempty (win : window) : Prop :=
  xmin win < xmax win /\ ymin win < ymax win /\ zmin win < zmax win.

(** Every field of the output has shape [(nz, ny, nx)]. *)
Definition regular (ds : dataset) : Prop :=
  forall f, In f (uinterp ds ++ vinterp ds ++ winterp ds ++ tracked ds) ->
    has_shape3 (Z.to_nat (nz ds)) (Z.to_nat (ny ds)) (Z.to_nat (nx ds)) f.

(** An array with one value per point of the window grid. *)
Definition fits (win : window) (g : field3) : Prop :=
  has_shape3 (Z.to_nat (zmax win - zmin win)) (Z.to_nat (ymax win - ymin win))
             (Z.to_nat (xmax win - xmin win)) g.

Module Literal.

(** [np.repeat(a, repeats, axis=0)]: every item of the leading axis
    [repeats] times in a row; [ValueError] on a negative count. *)
Definition np_repeat {A} (a : list A) (repeats : Z) : option (list A) :=
  if repeats <? 0 then None
  else Some (flat_map (fun v => repeat v (Z.to_nat repeats)) a).

(** The shape [reshape] uses for [size] elements: one dimension may be
    [-1] and is then inferred; [ValueError] when the sizes do not agree. *)
Definition np_shape (size : Z) (dims : list Z) : option (list Z) :=
  if existsb (fun d => d <? -1) dims then None else
  let known := fold_right Z.mul 1 (filter (fun d => negb (d =? -1)) dims) in
  match filter (fun d => d =? -1) dims with
  | [] => if known =? size then Some dims else None
  | [_] =>
      if (0 <? known) && (size mod known =? 0)
      then Some (map (fun d => if d =? -1 then size / known else d) dims)
      else None
  | _ => None
  end.

(** [rows] consecutive runs of [cols] items. *)
Fixpoint chunks {A} (rows cols : nat) (flat : list A) : list (list A) :=
  match rows with
  | O => []
  | S r => firstn cols flat :: chunks r cols (skipn cols flat)
  end.

(** [a.reshape(d0, d1)] and [a.reshape(d0, d1, d2)] of the elements
    [flat] of [a] in row-major order. *)
Definition reshape2 {A} (flat : list A) (d0 d1 : Z) : option (list (list A)) :=
  s <- np_shape (len flat) [d0; d1] ;;
  match s with
  | [a; b] => Some (chunks (Z.to_nat a) (Z.to_nat b) flat)
  | _ => None
  end.

Definition reshape3 {A} (flat : list A) (d0 d1 d2 : Z)
  : option (list (list (list A))) :=
  s <- np_shape (len flat) [d0; d1; d2] ;;
  match s with
  | [a; b; c] =>
      Some (map (chunks (Z.to_nat b) (Z.to_nat c))
                (chunks (Z.to_nat a) (Z.to_nat b * Z.to_nat c) flat))
  | _ => None
  end.

(** [a.flatten()] of a two-dimensional array: its rows one after the
    other. *)
Definition flatten {A} (a : list (list A)) : list A := concat a.

(** [np.repeat(np.repeat(d, ds.ny, axis = 0).reshape(levels, ds.ny), ds.nx,
    axis = 0).reshape(levels, ds.ny, ds.nx)] for a one-dimensional [d]. *)
Definition repeat_reshape (ds : dataset) (levels : Z) (d : list float)
  : option field3 :=
  r1 <- np_repeat d (ny ds) ;;
  d2 <- reshape2 r1 levels (ny ds) ;;
  r2 <- np_repeat d2 (nx ds) ;;
  reshape3 (concat r2) levels (ny ds) (nx ds).

(** The two arrays of the branch without terrain, call by call. *)
Definition vert_resolution (ds : dataset) : option field3 :=
  let zk := z_km ds in
  repeat_reshape ds (nz ds - 1)
    (map2 (fun a b => ((a - b) * 1000)%float)
          (py_slice zk 1 (len zk)) (py_slice zk 0 (-1))).

Definition level_height (ds : dataset) : option field3 :=
  repeat_reshape ds (nz ds) (map (fun a => (a * 1000)%float) (z_km ds)).

End Literal.

(** Element [(k, j, i)] of a three-dimensional array, indices from 0. *)
Definition at3 (f : field3) (k j i : nat) : option float :=
  p <- nth_error f k ;; r <- nth_error p j ;; nth_error r i.

(** ** Parcels at the edge of the domain

    Over the domain of [Demo.ds]: the arrays of a run whose single parcel
    stands at x = 20, ten grid points beyond the last one, with its field
    window; and two seeds, one half a grid point beyond x = 9 and one
    whose height is not-a-number, with the arrays [initialize] builds
    from them on [Terrain.ds]. *)
Module Edge.

Definition beyond : arrays := {|
  xpos := [[20]; [0]]%float;
  ypos := [[5]; [0]]%float;
  zpos := [[2]; [0]]%float;
  zpos_heightASL := [[0]; [0]]%float;
  zpos_vert_res := [[0]; [0]]%float;
  variable1 := [[0]; [0]]%float
|}.

(** [xmin = int(20 - 2)] lies beyond [xmax = nx]. *)
Definition win : window :=
  {| xmin := 18; xmax := 10; ymin := 3; ymax := 7; zmin := 0; zmax := 4 |}.

Definition x0 : list float := [9.5; 0]%float.
Definition y0 : list float := [5; 5]%float.
Definition z0 : list float := [2; nan]%float.

Definition seeded : arrays := {|
  xpos := [x0; [0; 0]; [0; 0]; [0; 0]]%float;
  ypos := [y0; [0; 0]; [0; 0]; [0; 0]]%float;
  zpos := [z0; [0; 0]; [0; 0]; [0; 0]]%float;
  zpos_heightASL := [[0; nan]; [0; 0]; [0; 0]; [0; 0]]%float;
  zpos_vert_res := [[0; 0]; [0; 0]; [0; 0]; [0; 0]]%float;
  variable1 := [[0; 0]; [0; 0]; [0; 0]; [0; 0]]%float
|}.

End Edge.

(** ** A hill

    An output with terrain: one row of two columns and three levels, the
    ground at 0 m in the first column and at 100 m in the second. *)
Module Hill.

Definition zh0 : field3 :=
  [[[0; 100]]; [[500; 550]]; [[1000; 1000]]]%float.

Definition ds : dataset := {|
  nx := 2; ny := 1; nz := 3;
  uinterp := []; vinterp := []; winterp := []; tracked := [];
  zs := Some [[[0; 100]]%float];
  zh := Some [zh0];
  z_km := [0; 0.5; 1]%float
|}.

End Hill.

(** * Properties *)

(** ** Arithmetic on [float64] *)

Lemma Prim2SF_nan : Prim2SF nan = S754_nan.
Proof. reflexivity. Qed.

Lemma Prim2SF_zero : Prim2SF 0%float = S754_zero false.
Proof. reflexivity. Qed.

Lemma SFcompare_refl f : f <> S754_nan -> SFcompare f f = Some Eq.
Proof.
  destruct f as [s|s| |s m e]; simpl; try congruence.
  - destruct s; reflexivity.
  - intros _. rewrite Z.compare_refl, Pos.compare_cont_refl. destruct s; reflexivity.
Qed.

Lemma is_nan_spec x : is_nan x = true <-> x = nan.
Proof.
  unfold is_nan. rewrite eqb_spec. unfold SFeqb. split.
  - intros H. apply Prim2SF_inj. rewrite Prim2SF_nan.
    destruct (Prim2SF x) eqn:E; try reflexivity;
      rewrite SFcompare_refl in H by discriminate; discriminate.
  - intros ->. reflexivity.
Qed.

Lemma is_nan_false x : is_nan x = false <-> x <> nan.
Proof.
  rewrite <- is_nan_spec. destruct (is_nan x); split; congruence.
Qed.

Lemma nan_Prim2SF x : Prim2SF x = S754_nan -> x = nan.
Proof. intros H. apply Prim2SF_inj. now rewrite Prim2SF_nan. Qed.

Lemma add_nan_l x : (nan + x)%float = nan.
Proof. apply nan_Prim2SF. rewrite add_spec, Prim2SF_nan. reflexivity. Qed.

Lemma add_nan_r x : (x + nan)%float = nan.
Proof.
  apply nan_Prim2SF. rewrite add_spec, Prim2SF_nan.
  destruct (Prim2SF x); reflexivity.
Qed.

Lemma sub_nan_l x : (nan - x)%float = nan.
Proof. apply nan_Prim2SF. rewrite sub_spec, Prim2SF_nan. reflexivity. Qed.

Lemma sub_nan_r x : (x - nan)%float = nan.
Proof.
  apply nan_Prim2SF. rewrite sub_spec, Prim2SF_nan.
  destruct (Prim2SF x); reflexivity.
Qed.

Lemma mul_nan_l x : (nan * x)%float = nan.
Proof. apply nan_Prim2SF. rewrite mul_spec, Prim2SF_nan. reflexivity. Qed.

Lemma mul_nan_r x : (x * nan)%float = nan.
Proof.
  apply nan_Prim2SF. rewrite mul_spec, Prim2SF_nan.
  destruct (Prim2SF x); reflexivity.
Qed.

Lemma div_nan_l x : (nan / x)%float = nan.
Proof. apply nan_Prim2SF. rewrite div_spec, Prim2SF_nan. reflexivity. Qed.

Lemma div_nan_r x : (x / nan)%float = nan.
Proof.
  apply nan_Prim2SF. rewrite div_spec, Prim2SF_nan.
  destruct (Prim2SF x); reflexivity.
Qed.

Lemma ltb_nan_l x : (nan <? x)%float = false.
Proof. rewrite ltb_spec, Prim2SF_nan. reflexivity. Qed.

Lemma ltb_nan_r x : (x <? nan)%float = false.
Proof. rewrite ltb_spec, Prim2SF_nan. unfold SFltb. destruct (Prim2SF x); reflexivity. Qed.

Lemma leb_nan_l x : (nan <=? x)%float = false.
Proof. rewrite leb_spec, Prim2SF_nan. reflexivity. Qed.

Lemma leb_nan_r x : (x <=? nan)%float = false.
Proof. rewrite leb_spec, Prim2SF_nan. unfold SFleb. destruct (Prim2SF x); reflexivity. Qed.

Lemma clip_min0_nan : clip_min0 nan = nan.
Proof. reflexivity. Qed.

Lemma clip_min0_sound x :
  clip_min0 x = nan \/ (0 <=? clip_min0 x)%float = true.
Proof.
  unfold clip_min0. destruct (x <? 0)%float eqn:E.
  - right. reflexivity.
  - rewrite ltb_spec in E. rewrite leb_spec. rewrite Prim2SF_zero in *.
    unfold SFltb in E. unfold SFleb.
    destruct (Prim2SF x) as [s|s| |s m e] eqn:Ex; simpl in *.
    + now right.
    + destruct s; [discriminate | now right].
    + left. now apply nan_Prim2SF.
    + destruct s; [discriminate | now right].
Qed.

Lemma float_nan_dec (x : float) : {x = nan} + {x <> nan}.
Proof.
  destruct (is_nan x) eqn:E; [left; now apply is_nan_spec | right; now apply is_nan_false].
Qed.

(** ** The order of [float64] *)

Lemma SFleb_rank f g :
  f <> S754_nan -> g <> S754_nan ->
  (SFleb f g = true <-> lex_le (SFrank f) (SFrank g)).
Proof.
  intros Hf Hg. unfold SFleb, SFcompare, lex_le.
  destruct f as [s|s| |s m e], g as [s'|s'| |s' m' e']; try congruence;
    try destruct s; try destruct s'; simpl;
    try (split; [intros _; lia | reflexivity]);
    try (split; [discriminate | intros H; exfalso; lia]).
  - destruct (Z.compare_spec e e'); [subst; rewrite Pos.compare_cont_spec; simpl|..].
    + destruct (Pos.compare_spec m m'); simpl;
        (split; [intros; lia || discriminate | intros; reflexivity || (exfalso; lia)]).
    + split; [discriminate | intros; exfalso; lia].
    + split; [intros; lia | reflexivity].
  - destruct (Z.compare_spec e e'); [subst; rewrite Pos.compare_cont_spec; simpl|..].
    + destruct (Pos.compare_spec m m'); simpl;
        (split; [intros; lia || discriminate | intros; reflexivity || (exfalso; lia)]).
    + split; [intros; lia | reflexivity].
    + split; [discriminate | intros; exfalso; lia].
Qed.

Lemma Prim2SF_not_nan x : x <> nan -> Prim2SF x <> S754_nan.
Proof. intros H E. apply H. now apply nan_Prim2SF. Qed.

Lemma leb_rank x y :
  x <> nan -> y <> nan ->
  ((x <=? y)%float = true <-> lex_le (SFrank (Prim2SF x)) (SFrank (Prim2SF y))).
Proof.
  intros Hx Hy. rewrite leb_spec. apply SFleb_rank; now apply Prim2SF_not_nan.
Qed.

Lemma leb_refl x : x <> nan -> (x <=? x)%float = true.
Proof.
  intros H. apply leb_rank; auto. unfold lex_le.
  destruct (SFrank (Prim2SF x)) as [[a b] c]. lia.
Qed.

Lemma leb_total x y :
  x <> nan -> y <> nan -> (x <=? y)%float = false -> (y <=? x)%float = true.
Proof.
  intros Hx Hy H. apply leb_rank; auto.
  assert (N : ~ lex_le (SFrank (Prim2SF x)) (SFrank (Prim2SF y))).
  { intros L. apply leb_rank in L; auto. congruence. }
  revert N. unfold lex_le.
  destruct (SFrank (Prim2SF x)) as [[a b] c], (SFrank (Prim2SF y)) as [[a' b'] c']. lia.
Qed.

Lemma leb_trans x y z :
  x <> nan -> y <> nan -> z <> nan ->
  (x <=? y)%float = true -> (y <=? z)%float = true -> (x <=? z)%float = true.
Proof.
  intros Hx Hy Hz H1 H2. apply leb_rank in H1, H2; auto. apply leb_rank; auto.
  revert H1 H2. unfold lex_le.
  destruct (SFrank (Prim2SF x)) as [[a b] c], (SFrank (Prim2SF y)) as [[a' b'] c'],
    (SFrank (Prim2SF z)) as [[a'' b''] c'']. lia.
Qed.

(** *** Adding a zero *)

Lemma finite_cases x :
  is_finite x = true ->
  (exists s, Prim2SF x = S754_zero s) \/ (exists s m e, Prim2SF x = S754_finite s m e).
Proof.
  unfold is_finite, is_infinity. rewrite eqb_spec, abs_spec.
  destruct (Prim2SF x) as [s|s| |s m e] eqn:E; intros H; eauto.
  - rewrite orb_true_r in H. discriminate.
  - apply nan_Prim2SF in E. subst. discriminate.
Qed.

Lemma mul_zero_finite x :
  is_finite x = true -> exists s, Prim2SF (0 * x)%float = S754_zero s.
Proof.
  intros H. rewrite mul_spec, Prim2SF_zero.
  destruct (finite_cases _ H) as [(s & ->)|(s & m & e & ->)]; simpl; eauto.
Qed.

(** A non-negative height plus a zero increment, clipped, compares equal to
    the height. *)
Lemma clip_add_zero a z s :
  Prim2SF z = S754_zero s -> (0 <=? a)%float = true ->
  (clip_min0 (a + z) =? a)%float = true.
Proof.
  intros Hz Ha. rewrite leb_spec, Prim2SF_zero in Ha. unfold clip_min0.
  rewrite ltb_spec, Prim2SF_zero.
  assert (Hr : Prim2SF (a + z)%float = SF64add (Prim2SF a) (S754_zero s))
    by now rewrite add_spec, Hz.
  destruct (Prim2SF a) as [s1|s1| |s1 m e] eqn:Ea.
  - assert (exists s2, Prim2SF (a + z)%float = S754_zero s2) as (s2 & Hs2).
    { rewrite Hr. destruct s1, s; simpl; eauto. }
    rewrite Hs2. simpl. rewrite eqb_spec, Hs2, Ea. reflexivity.
  - destruct s1; [discriminate|]. simpl in Hr.
    rewrite Hr. simpl. rewrite eqb_spec, Hr, Ea. reflexivity.
  - discriminate.
  - destruct s1; [discriminate|]. simpl in Hr.
    rewrite Hr. simpl. rewrite eqb_spec, Hr, Ea. unfold SFeqb.
    now rewrite SFcompare_refl by discriminate.
Qed.

(** ** Lists, rows and the exception monad *)

Ltac inv_bind H :=
  repeat match type of H with
  | bind ?m _ = Some _ =>
      let E := fresh "E" in
      destruct m eqn:E; [cbn [bind] in H | discriminate H]
  | (if ?c then None else _) = Some _ =>
      let E := fresh "E" in
      destruct c eqn:E; [discriminate H | ]
  end.

Section Rows.
Context {A B C : Type}.

Lemma nth_error_map2 (f : A -> B -> C) a b i :
  nth_error (map2 f a b) i =
  match nth_error a i, nth_error b i with
  | Some p, Some q => Some (f p q)
  | _, _ => None
  end.
Proof.
  revert b i; induction a as [|p a IH]; intros [|q b] [|i]; simpl; auto.
  destruct (nth_error a i); reflexivity.
Qed.

Lemma nth_error_zip3 (a : list A) (b : list B) (c : list C) i :
  nth_error (zip3 a b c) i =
  match nth_error a i, nth_error b i, nth_error c i with
  | Some p, Some q, Some r => Some (p, q, r)
  | _, _, _ => None
  end.
Proof.
  revert b c i; induction a as [|p a IH]; intros [|q b] [|r c] [|i]; simpl; auto;
    repeat match goal with
           | |- context [match nth_error ?l ?k with _ => _ end] =>
               destruct (nth_error l k)
           end; reflexivity.
Qed.

Lemma set_row_same (l l' : list A) i v :
  set_row l i v = Some l' -> nth_error l' i = Some v.
Proof.
  revert i l'; induction l as [|a l IH]; intros [|i] l' H; simpl in H; try discriminate.
  - injection H as <-. reflexivity.
  - inv_bind H. injection H as <-. simpl. eauto.
Qed.

Lemma set_row_other (l l' : list A) i j v :
  set_row l i v = Some l' -> j <> i -> nth_error l' j = nth_error l j.
Proof.
  revert i j l'; induction l as [|a l IH]; intros [|i] [|j] l' H N;
    simpl in H; try discriminate; try congruence.
  - injection H as <-. reflexivity.
  - inv_bind H. injection H as <-. reflexivity.
  - inv_bind H. injection H as <-. simpl. eauto.
Qed.

Lemma mapM_nth (f : A -> option B) l r i a :
  mapM f l = Some r -> nth_error l i = Some a ->
  exists b, f a = Some b /\ nth_error r i = Some b.
Proof.
  revert r i; induction l as [|p l IH]; intros r [|i] H N; simpl in *; try discriminate.
  - injection N as ->. inv_bind H. injection H as <-. eauto.
  - inv_bind H. injection H as <-. simpl. eauto.
Qed.

End Rows.

Lemma nth_error_coords3 zl yl xl i :
  nth_error (coords3 zl yl xl) i =
  match nth_error zl i, nth_error yl i, nth_error xl i with
  | Some c, Some b, Some a => Some [c; b; a]
  | _, _, _ => None
  end.
Proof.
  unfold coords3. rewrite nth_error_map, nth_error_zip3.
  destruct (nth_error zl i); [destruct (nth_error yl i); [destruct (nth_error xl i)|]|];
    reflexivity.
Qed.

Lemma nth_error_coords2 yl xl i :
  nth_error (coords2 yl xl) i =
  match nth_error yl i, nth_error xl i with
  | Some b, Some a => Some [b; a]
  | _, _ => None
  end.
Proof. unfold coords2. apply nth_error_map2. Qed.

Lemma entry_clip a t i v :
  entry a t i v -> entry (clip a) t i (clip_min0 v).
Proof.
  intros (row & Hr & Hv). exists (map clip_min0 row). unfold clip.
  rewrite nth_error_map, Hr. split; [reflexivity|].
  rewrite nth_error_map, Hv. reflexivity.
Qed.

Lemma entry_clip_inv a t i v :
  entry (clip a) t i v -> exists v0, entry a t i v0 /\ v = clip_min0 v0.
Proof.
  intros (row & Hr & Hv). unfold clip in Hr. rewrite nth_error_map in Hr.
  destruct (nth_error a t) as [row0|] eqn:E; [|discriminate].
  injection Hr as <-. rewrite nth_error_map in Hv.
  destruct (nth_error row0 i) as [v0|] eqn:E0; [|discriminate].
  injection Hv as <-. exists v0. split; [exists row0|]; auto.
Qed.

(** ** The interpolator *)

Lemma py_index_first {A} (a : A) l : py_index (a :: l) 0 = Some a.
Proof.
  unfold py_index, len. simpl length.
  replace (0 <? Z.of_nat (S (length l))) with true by (symmetry; apply Z.ltb_lt; lia).
  reflexivity.
Qed.

Lemma nth_error_last {A} (a d : A) l :
  nth_error (a :: l) (length l) = Some (last (a :: l) d).
Proof.
  revert a. induction l as [|b l IH]; intros a; [reflexivity|].
  simpl length. cbn [nth_error]. rewrite IH. reflexivity.
Qed.

Lemma py_index_last {A} (a : A) l : py_index (a :: l) (-1) = Some (last (a :: l) a).
Proof.
  unfold py_index, len. simpl length.
  replace (0 <=? -1) with false by reflexivity. cbn [andb].
  replace (- Z.of_nat (S (length l)) <=? -1) with true by (symmetry; apply Z.leb_le; lia).
  cbn [andb Z.ltb Z.compare].
  replace (Z.to_nat (-1 + Z.of_nat (S (length l)))) with (length l) by lia.
  apply nth_error_last.
Qed.

Lemma py_index_nil {A} i : py_index (@nil A) i = None.
Proof.
  unfold py_index, len. simpl.
  destruct (Z.leb_spec 0 i), (Z.ltb_spec i 0); simpl; try reflexivity; lia.
Qed.

Lemma find_indices_outside grid x i yi o :
  find_indices grid x = Some (i, yi, o) -> o = axis_outside grid x.
Proof.
  unfold find_indices. intros H. inv_bind H. injection H as _ _ <-.
  destruct grid as [|g0 r].
  - rewrite py_index_nil in E1. discriminate.
  - rewrite py_index_first in E1. rewrite py_index_last in E2.
    injection E1 as <-. injection E2 as <-. reflexivity.
Qed.

Lemma find_indices_nan grid i yi o :
  find_indices grid nan = Some (i, yi, o) -> yi = nan /\ o = false.
Proof.
  unfold find_indices. intros H. inv_bind H. injection H as _ <- <-.
  rewrite sub_nan_l, div_nan_l, ltb_nan_l, ltb_nan_r. auto.
Qed.

Lemma located_outside points q ind :
  mapM (fun '(grid, x) => find_indices grid x) (combine points q) = Some ind ->
  out_of_bounds ind = outside points q.
Proof.
  unfold out_of_bounds, outside.
  revert ind. induction (combine points q) as [|[g x] l IH]; intros ind H; simpl in H.
  - injection H as <-. reflexivity.
  - inv_bind H. injection H as <-. destruct p as [[i yi] o]. simpl.
    rewrite (IH _ eq_refl). f_equal. eapply find_indices_outside; eauto.
Qed.

Lemma interp_point_outside points values fill q r :
  interp_point points values fill q = Some r ->
  outside points q = true -> r = fill.
Proof.
  unfold interp_point. intros H O. inv_bind H. injection H as <-.
  rewrite (located_outside _ _ _ E0), O. reflexivity.
Qed.

Lemma interp_point_inside points values fill q r :
  interp_point points values fill q = Some r ->
  outside points q = false ->
  exists ind, mapM (fun '(grid, x) => find_indices grid x) (combine points q) = Some ind
              /\ evaluate_linear values ind = Some r.
Proof.
  unfold interp_point. intros H O. inv_bind H. injection H as <-.
  rewrite (located_outside _ _ _ E0), O. eauto.
Qed.

Lemma interpn_nth points values xi fill r i q :
  interpn points values xi fill = Some r -> nth_error xi i = Some q ->
  exists val, interp_point points values fill q = Some val /\ nth_error r i = Some val.
Proof.
  unfold interpn. intros H N. inv_bind H. eapply mapM_nth; eauto.
Qed.

(** *** A not-a-number coordinate poisons the interpolated value *)

Lemma weight_step_nan (w : float) (ei i : Z) :
  (w * (if (ei =? i)%Z then 1 - nan else nan))%float = nan.
Proof. destruct (ei =? i)%Z; rewrite ?sub_nan_r; apply mul_nan_r. Qed.

Lemma weight_fold_nan (l : list (Z * (Z * float * bool))) :
  fold_left (fun (w : float) '(ei, (i, yi, _)) =>
               (w * (if (ei =? i)%Z then 1 - yi else yi))%float) l nan = nan.
Proof.
  induction l as [|[ei [[i yi] o]] l IH]; [reflexivity|].
  simpl. rewrite mul_nan_l. exact IH.
Qed.

Lemma weight_fold_poison (l : list (Z * (Z * float * bool))) (w : float) :
  Exists (fun p => nan_located (snd p)) l ->
  fold_left (fun (w : float) '(ei, (i, yi, _)) =>
               (w * (if (ei =? i)%Z then 1 - yi else yi))%float) l w = nan.
Proof.
  intros X. revert w. induction X as [[ei [[i yi] o]] l Hn|[ei [[i yi] o]] l _ IH];
    intros w; simpl.
  - simpl in Hn. subst yi. rewrite weight_step_nan. apply weight_fold_nan.
  - apply IH.
Qed.

Lemma weight_nan edge ind :
  length edge = length ind -> Exists nan_located ind -> weight edge ind = nan.
Proof.
  intros L X. apply weight_fold_poison.
  revert edge L. induction X as [l0 ind Hn|l0 ind _ IH]; intros [|ei edge] L;
    simpl in L; try discriminate; simpl.
  - now left.
  - right. apply IH. lia.
Qed.

Lemma product_length {A} (ls : list (list A)) e :
  In e (product ls) -> length e = length ls.
Proof.
  revert e. induction ls as [|l ls IH]; intros e H; simpl in H.
  - destruct H as [<-|[]]. reflexivity.
  - apply in_flat_map in H. destruct H as (a & _ & H).
    apply in_map_iff in H. destruct H as (e' & <- & H). simpl. f_equal. auto.
Qed.

Lemma product_inhabited {A} (ls : list (list A)) :
  Forall (fun l => l <> []) ls -> product ls <> [].
Proof.
  induction 1 as [|l ls Hl _ IH]; simpl; [discriminate|].
  destruct l as [|a l]; [congruence|]. simpl.
  destruct (product ls) as [|e es]; [congruence|]. discriminate.
Qed.

Lemma evaluate_linear_nan values ind r :
  evaluate_linear values ind = Some r -> Exists nan_located ind -> r = nan.
Proof.
  unfold evaluate_linear. intros H X.
  set (edges := product (map (fun '(i, _, _) => [i; i + 1]) ind)) in *.
  assert (W : forall e, In e edges -> weight e ind = nan).
  { intros e He. apply weight_nan; [|exact X].
    apply product_length in He. now rewrite length_map in He. }
  assert (NE : edges <> []).
  { apply product_inhabited. apply Forall_forall. intros l Hl.
    apply in_map_iff in Hl. destruct Hl as ([[i yi] o] & <- & _). discriminate. }
  set (F := fun (acc : option float) (edge : list Z) =>
              a <- acc ;; v <- getitem values edge ;;
              Some (a + v * weight edge ind)%float) in *.
  assert (K : forall es acc, (forall e, In e es -> weight e ind = nan) ->
              acc = None \/ acc = Some nan ->
              fold_left F es acc = None \/ fold_left F es acc = Some nan).
  { induction es as [|e es IH]; intros acc We Ha; [exact Ha|].
    simpl. apply IH; [intros; apply We; now right|].
    destruct Ha as [->| ->]; [now left|]. unfold F. simpl.
    destruct (getitem values e); simpl; [right|now left].
    now rewrite add_nan_l. }
  destruct edges as [|e es]; [congruence|]. cbn [fold_left] in H.
  destruct (K es (F (Some 0%float) e)) as [K1|K1].
  - intros; apply W; now right.
  - unfold F. simpl. destruct (getitem values e); simpl; [right|now left].
    rewrite (W e) by now left. now rewrite mul_nan_r, add_nan_r.
  - rewrite K1 in H. discriminate.
  - rewrite K1 in H. now injection H as <-.
Qed.

Lemma located_nan points q ind :
  length q = length points -> In nan q ->
  mapM (fun '(grid, x) => find_indices grid x) (combine points q) = Some ind ->
  Exists nan_located ind.
Proof.
  revert q ind. induction points as [|g points IH]; intros [|x q] ind L N H;
    simpl in *; try discriminate; try contradiction.
  inv_bind H. injection H as <-. destruct p as [[i yi] o].
  destruct N as [->|N].
  - left. simpl. eapply find_indices_nan; eauto.
  - right. eapply IH; eauto.
Qed.

Lemma interp_point_length points values fill q r :
  interp_point points values fill q = Some r -> length q = length points.
Proof.
  unfold interp_point. intros H.
  destruct (length q =? length points)%nat eqn:E; [|discriminate].
  now apply Nat.eqb_eq.
Qed.

(** With a not-a-number fill value every query point that has a
    not-a-number coordinate yields not-a-number. *)
Lemma interp_point_nan_coord points values q r :
  interp_point points values nan q = Some r -> In nan q -> r = nan.
Proof.
  intros H N. destruct (outside points q) eqn:O.
  - eapply interp_point_outside; eauto.
  - pose proof (interp_point_length _ _ _ _ _ H) as L.
    destruct (interp_point_inside _ _ _ _ _ H O) as (ind & Hi & He).
    eapply evaluate_linear_nan; eauto. eapply located_nan; eauto.
Qed.

Lemma axis_outside_nan grid : axis_outside grid nan = false.
Proof. destruct grid; simpl; [reflexivity|]. now rewrite ltb_nan_l, ltb_nan_r. Qed.

Lemma outside_all_nan points q :
  Forall (eq nan) q -> outside points q = false.
Proof.
  unfold outside. revert q. induction points as [|g points IH]; intros q F; [reflexivity|].
  destruct F as [|x q Hx F]; [reflexivity|]. simpl. subst x.
  rewrite axis_outside_nan. simpl. auto.
Qed.

(** Whatever the fill value, a query point whose coordinates are all
    not-a-number yields not-a-number: it is not out of bounds. *)
Lemma interp_point_all_nan points values fill q r :
  interp_point points values fill q = Some r ->
  Forall (eq nan) q -> q <> [] -> r = nan.
Proof.
  intros H F NE.
  pose proof (interp_point_length _ _ _ _ _ H) as L.
  destruct (interp_point_inside _ _ _ _ _ H (outside_all_nan _ _ F)) as (ind & Hi & He).
  eapply evaluate_linear_nan; eauto. eapply located_nan; eauto.
  destruct F; [congruence|]. subst. now left.
Qed.

(** ** One pass of the loop, parcel by parcel *)

Ltac bind_step H x E :=
  match type of H with
  | bind ?m _ = Some _ =>
      destruct m as [x|] eqn:E; [cbn [bind] in H | discriminate H]
  end.

Lemma nth_error_rebase pos lo i p :
  nth_error pos i = Some p ->
  nth_error (rebase pos lo) i = Some (p - Z2float lo)%float.
Proof. intros H. unfold rebase. now rewrite nth_error_map, H. Qed.

Lemma nth_error_rebase_stag pos lo i p :
  nth_error pos i = Some p ->
  nth_error (rebase_stag pos lo) i = Some ((p + 0.5) - Z2float lo)%float.
Proof. intros H. unfold rebase_stag. now rewrite nth_error_map, H. Qed.

Lemma nth_error_unbase loc lo i p :
  nth_error loc i = Some p ->
  nth_error (unbase loc lo) i = Some (p + Z2float lo)%float.
Proof. intros H. unfold unbase. now rewrite nth_error_map, H. Qed.

Section Parcel.

Variables (ds : dataset) (cfg : settings) (win : window).
Variables (xt yt zt : list float) (i : nat) (xi yi zi : float).
Hypothesis Hxi : nth_error xt i = Some xi.
Hypothesis Hyi : nth_error yt i = Some yi.
Hypothesis Hzi : nth_error zt i = Some zi.

Lemma nth_coord_u :
  nth_error (coord_u cfg win xt yt zt) i = Some (query_u cfg win xi yi zi).
Proof.
  unfold coord_u, query_u. rewrite nth_error_coords3.
  rewrite (nth_error_rebase _ _ _ _ Hzi), (nth_error_rebase _ _ _ _ Hyi).
  destruct (staggered cfg);
    now rewrite ?(nth_error_rebase _ _ _ _ Hxi), ?(nth_error_rebase_stag _ _ _ _ Hxi).
Qed.

Lemma nth_coord_v :
  nth_error (coord_v cfg win xt yt zt) i = Some (query_v cfg win xi yi zi).
Proof.
  unfold coord_v, query_v. rewrite nth_error_coords3.
  rewrite (nth_error_rebase _ _ _ _ Hzi), (nth_error_rebase _ _ _ _ Hxi).
  destruct (staggered cfg);
    now rewrite ?(nth_error_rebase _ _ _ _ Hyi), ?(nth_error_rebase_stag _ _ _ _ Hyi).
Qed.

Lemma nth_coord_w :
  nth_error (coord_w cfg win xt yt zt) i = Some (query_w cfg win xi yi zi).
Proof.
  unfold coord_w, query_w. rewrite nth_error_coords3.
  rewrite (nth_error_rebase _ _ _ _ Hyi), (nth_error_rebase _ _ _ _ Hxi).
  destruct (staggered cfg);
    now rewrite ?(nth_error_rebase _ _ _ _ Hzi), ?(nth_error_rebase_stag _ _ _ _ Hzi).
Qed.

Lemma nth_coord_fast :
  nth_error (coord_fast win xt yt zt) i = Some (query_fast win xi yi zi).
Proof.
  unfold coord_fast, query_fast. rewrite nth_error_coords3.
  now rewrite (nth_error_rebase _ _ _ _ Hzi), (nth_error_rebase _ _ _ _ Hyi),
    (nth_error_rebase _ _ _ _ Hxi).
Qed.

Lemma nth_coord :
  nth_error (coord win xt yt zt) i = Some (query_full win xi yi zi).
Proof.
  unfold coord, query_full. rewrite nth_error_coords3.
  now rewrite (nth_error_unbase _ _ _ _ (nth_error_rebase _ _ _ _ Hzi)),
    (nth_error_unbase _ _ _ _ (nth_error_rebase _ _ _ _ Hyi)),
    (nth_error_unbase _ _ _ _ (nth_error_rebase _ _ _ _ Hxi)).
Qed.

End Parcel.

Section Integrate.

Variables (ds : dataset) (cfg : settings) (vres : field3).
Variables (t : nat) (win : window) (md : model_data) (s s' : arrays).
Hypothesis Hint : integrate ds cfg vres t win md s = Some s'.

(** What [integrate] leaves alone. *)
Lemma integrate_frame :
  (forall j, j <> S t -> nth_error (xpos s') j = nth_error (xpos s) j)
  /\ (forall j, j <> S t -> nth_error (ypos s') j = nth_error (ypos s) j)
  /\ (forall j, j <> S t -> nth_error (zpos s') j = nth_error (zpos s) j)
  /\ (forall j, j <> S t ->
        nth_error (zpos_heightASL s') j = nth_error (zpos_heightASL s) j)
  /\ (forall j, j <> t ->
        nth_error (zpos_vert_res s') j = nth_error (zpos_vert_res s) j)
  /\ variable1 s' = variable1 s.
Proof.
  unfold integrate in Hint.
  bind_step Hint xt Ext. bind_step Hint yt Eyt. bind_step Hint zt Ezt.
  bind_step Hint at_ Eat. bind_step Hint zsf Ezs.
  bind_step Hint iu Eiu. bind_step Hint xp Exp.
  bind_step Hint iv Eiv. bind_step Hint yp Eyp.
  bind_step Hint iw Eiw. bind_step Hint asl Easl.
  bind_step Hint vr Evr. bind_step Hint vrs Evrs.
  bind_step Hint zs1 Ezs1. bind_step Hint zs2 Ezs2.
  bind_step Hint zp Ezp.
  injection Hint as <-. simpl.
  repeat split; intros; eauto using set_row_other.
Qed.

Variables (xt yt zt at_ : list float).
Hypothesis Hxt : nth_error (xpos s) t = Some xt.
Hypothesis Hyt : nth_error (ypos s) t = Some yt.
Hypothesis Hzt : nth_error (zpos s) t = Some zt.
Hypothesis Hat : nth_error (zpos_heightASL s) t = Some at_.

Variables (i : nat) (xi yi zi ai : float).
Hypothesis Hxi : nth_error xt i = Some xi.
Hypothesis Hyi : nth_error yt i = Some yi.
Hypothesis Hzi : nth_error zt i = Some zi.
Hypothesis Hai : nth_error at_ i = Some ai.

(** The new rows, read at parcel [i]. *)
Lemma integrate_parcel :
  exists ui vi wi vri zsf z1 z2,
    interp_point (fast_grid win) (Arr3 (u md)) nan (query_u cfg win xi yi zi) = Some ui
    /\ interp_point (fast_grid win) (Arr3 (v md)) nan (query_v cfg win xi yi zi) = Some vi
    /\ interp_point (fast_grid win) (Arr3 (w md)) 0%float (query_w cfg win xi yi zi) = Some wi
    /\ interp_point [py_slice (z ds) 0 (-1); y ds; x ds] (Arr3 vres) nan
         (query_full win xi yi zi) = Some vri
    /\ surface ds = Some zsf
    /\ interp_point [y ds; x ds] (Arr2 zsf) nan [yi; xi] = Some z1
    /\ interp_point [y ds; x ds] (Arr2 zsf) nan
         [(yi + vi * time_step_length cfg / hor_resolution cfg)%float;
          (xi + ui * time_step_length cfg / hor_resolution cfg)%float] = Some z2
    /\ entry (xpos s') (S t) i (xi + ui * time_step_length cfg / hor_resolution cfg)%float
    /\ entry (ypos s') (S t) i (yi + vi * time_step_length cfg / hor_resolution cfg)%float
    /\ entry (zpos_heightASL s') (S t) i (ai + wi * time_step_length cfg)%float
    /\ entry (zpos_vert_res s') t i vri
    /\ entry (zpos s') (S t) i
         (zi + (((ai + wi * time_step_length cfg) - ai) - (z2 - z1)) / vri)%float.
Proof.
  unfold integrate in Hint. rewrite Hxt, Hyt, Hzt, Hat in Hint. cbn [bind] in Hint.
  bind_step Hint zsf Ezs.
  bind_step Hint iu Eiu. bind_step Hint xp Exp.
  bind_step Hint iv Eiv. bind_step Hint yp Eyp.
  bind_step Hint iw Eiw. bind_step Hint asl Easl.
  bind_step Hint vr Evr. bind_step Hint vrs Evrs.
  bind_step Hint zs1 Ezs1. bind_step Hint zs2 Ezs2.
  bind_step Hint zp Ezp.
  injection Hint as <-. simpl.
  destruct (interpn_nth _ _ _ _ _ _ _ Eiu (nth_coord_u cfg win _ _ _ _ _ _ _ Hxi Hyi Hzi))
    as (ui & Hui & Nui).
  destruct (interpn_nth _ _ _ _ _ _ _ Eiv (nth_coord_v cfg win _ _ _ _ _ _ _ Hxi Hyi Hzi))
    as (vi & Hvi & Nvi).
  destruct (interpn_nth _ _ _ _ _ _ _ Eiw (nth_coord_w cfg win _ _ _ _ _ _ _ Hxi Hyi Hzi))
    as (wi & Hwi & Nwi).
  destruct (interpn_nth _ _ _ _ _ _ _ Evr (nth_coord win _ _ _ _ _ _ _ Hxi Hyi Hzi))
    as (vri & Hvri & Nvri).
  set (xn := map2 (fun p k => (p + k * time_step_length cfg / hor_resolution cfg)%float) xt iu) in *.
  set (yn := map2 (fun p k => (p + k * time_step_length cfg / hor_resolution cfg)%float) yt iv) in *.
  set (an := map2 (fun p k => (p + k * time_step_length cfg)%float) at_ iw) in *.
  assert (Nxn : nth_error xn i = Some (xi + ui * time_step_length cfg / hor_resolution cfg)%float).
  { unfold xn. now rewrite nth_error_map2, Hxi, Nui. }
  assert (Nyn : nth_error yn i = Some (yi + vi * time_step_length cfg / hor_resolution cfg)%float).
  { unfold yn. now rewrite nth_error_map2, Hyi, Nvi. }
  assert (Nan : nth_error an i = Some (ai + wi * time_step_length cfg)%float).
  { unfold an. now rewrite nth_error_map2, Hai, Nwi. }
  unfold surface_at in Ezs1, Ezs2.
  assert (C1 : nth_error (coords2 yt xt) i = Some [yi; xi]).
  { now rewrite nth_error_coords2, Hyi, Hxi. }
  assert (C2 : nth_error (coords2 yn xn) i =
               Some [(yi + vi * time_step_length cfg / hor_resolution cfg)%float;
                     (xi + ui * time_step_length cfg / hor_resolution cfg)%float]).
  { now rewrite nth_error_coords2, Nyn, Nxn. }
  destruct (interpn_nth _ _ _ _ _ _ _ Ezs1 C1) as (z1 & Hz1 & Nz1).
  destruct (interpn_nth _ _ _ _ _ _ _ Ezs2 C2) as (z2 & Hz2 & Nz2).
  exists ui, vi, wi, vri, zsf, z1, z2.
  repeat match goal with |- _ /\ _ => split end; try assumption; try reflexivity.
  - exists xn. split; [eapply set_row_same; eauto | exact Nxn].
  - exists yn. split; [eapply set_row_same; eauto | exact Nyn].
  - exists an. split; [eapply set_row_same; eauto | exact Nan].
  - exists vr. split; [eapply set_row_same; eauto | exact Nvri].
  - eexists. split; [eapply set_row_same; eauto |].
    rewrite !nth_error_map2, Hzi, Nan, Hai, Nz2, Nz1, Nvri. reflexivity.
Qed.

End Integrate.

Section Step.

Variables (ds : dataset) (cfg : settings) (vres : field3).
Variables (t : nat) (s s' : arrays).
Hypothesis Hstep : step ds cfg vres t s = Some s'.

(** The stages of one pass. *)
Lemma step_inv :
  exists xt yt zt win md s1 val,
    nth_error (xpos s) t = Some xt
    /\ nth_error (ypos s) t = Some yt
    /\ nth_error (zpos s) t = Some zt
    /\ field_window ds xt yt zt = Some win
    /\ get_model_data ds cfg t win = Some md
    /\ integrate ds cfg vres t win md s = Some s1
    /\ interpn (fast_grid win) (Arr3 (var1 md)) (coord_fast win xt yt zt) nan = Some val
    /\ xpos s' = xpos s1
    /\ ypos s' = ypos s1
    /\ zpos s' = clip (zpos s1)
    /\ zpos_heightASL s' = clip (zpos_heightASL s1)
    /\ zpos_vert_res s' = zpos_vert_res s1
    /\ nth_error (variable1 s') t = Some val
    /\ (forall j, j <> t -> nth_error (variable1 s') j = nth_error (variable1 s) j).
Proof.
  unfold step in Hstep.
  bind_step Hstep xt Ext. bind_step Hstep yt Eyt. bind_step Hstep zt Ezt.
  bind_step Hstep win Ewin. bind_step Hstep md Emd. bind_step Hstep s1 Es1.
  unfold sample_variable in Hstep.
  bind_step Hstep val Eval. bind_step Hstep vs Evs.
  injection Hstep as <-. simpl in *.
  destruct (integrate_frame _ _ _ _ _ _ _ _ Es1) as (_ & _ & _ & _ & _ & Fv).
  exists xt, yt, zt, win, md, s1, val.
  repeat match goal with |- _ /\ _ => split end; try reflexivity; try assumption.
  - eapply set_row_same; eauto.
  - intros j Hj. rewrite <- Fv. eapply set_row_other; eauto.
Qed.

(** Rows a pass does not write keep their entries, up to the clip of the
    two height arrays. *)
Lemma step_frame_xy j :
  j <> S t ->
  nth_error (xpos s') j = nth_error (xpos s) j
  /\ nth_error (ypos s') j = nth_error (ypos s) j.
Proof.
  intros Hj.
  destruct step_inv as (xt & yt & zt & win & md & s1 & val & _ & _ & _ & _ & _ & Hi
                        & _ & -> & -> & _).
  destruct (integrate_frame _ _ _ _ _ _ _ _ Hi) as (Fx & Fy & _). auto.
Qed.

Lemma step_frame_heights j :
  j <> S t ->
  nth_error (zpos s') j = option_map (map clip_min0) (nth_error (zpos s) j)
  /\ nth_error (zpos_heightASL s') j
     = option_map (map clip_min0) (nth_error (zpos_heightASL s) j).
Proof.
  intros Hj.
  destruct step_inv as (xt & yt & zt & win & md & s1 & val & _ & _ & _ & _ & _ & Hi
                        & _ & _ & _ & -> & -> & _).
  destruct (integrate_frame _ _ _ _ _ _ _ _ Hi) as (_ & _ & Fz & Fa & _).
  unfold clip. rewrite !nth_error_map, Fz, Fa by assumption. auto.
Qed.

Lemma step_frame_variable j :
  j <> t -> nth_error (variable1 s') j = nth_error (variable1 s) j.
Proof.
  intros Hj.
  destruct step_inv as (xt & yt & zt & win & md & s1 & val & H). apply H, Hj.
Qed.

End Step.

(** ** Lost parcels *)

Lemma entry_eq_row (a b : list (list float)) t i v :
  nth_error b t = nth_error a t -> entry a t i v -> entry b t i v.
Proof. intros E (row & Hr & Hv). exists row. split; congruence. Qed.

Section StepLost.

Variables (ds : dataset) (cfg : settings) (vres : field3).
Variables (t : nat) (s s' : arrays).
Hypothesis Hstep : step ds cfg vres t s = Some s'.

(** Not-a-number entries of rows the pass does not write survive it. *)
Lemma step_keeps_lost j i :
  j <> S t -> lost s j i -> lost s' j i.
Proof.
  intros Hj (Hx & Hy & Hz).
  destruct (step_frame_xy _ _ _ _ _ _ Hstep j Hj) as (Fx & Fy).
  destruct (step_frame_heights _ _ _ _ _ _ Hstep j Hj) as (Fz & _).
  repeat split.
  - eapply entry_eq_row; eauto.
  - eapply entry_eq_row; eauto.
  - destruct Hz as (row & Hr & Hv). exists (map clip_min0 row).
    rewrite Fz, Hr. split; [reflexivity|]. now rewrite nth_error_map, Hv.
Qed.

Lemma step_keeps_asl_nan j i :
  j <> S t -> entry (zpos_heightASL s) j i nan -> entry (zpos_heightASL s') j i nan.
Proof.
  intros Hj (row & Hr & Hv).
  destruct (step_frame_heights _ _ _ _ _ _ Hstep j Hj) as (_ & Fa).
  exists (map clip_min0 row). rewrite Fa, Hr. split; [reflexivity|].
  now rewrite nth_error_map, Hv.
Qed.

Lemma step_keeps_variable j i val :
  j <> t -> entry (variable1 s) j i val -> entry (variable1 s') j i val.
Proof.
  intros Hj H. eapply entry_eq_row; [|exact H].
  eapply step_frame_variable; eauto.
Qed.

Variables (xt yt zt at_ : list float) (i : nat) (xi yi zi ai : float).
Hypothesis Hxt : nth_error (xpos s) t = Some xt.
Hypothesis Hyt : nth_error (ypos s) t = Some yt.
Hypothesis Hzt : nth_error (zpos s) t = Some zt.
Hypothesis Hat : nth_error (zpos_heightASL s) t = Some at_.
Hypothesis Hxi : nth_error xt i = Some xi.
Hypothesis Hyi : nth_error yt i = Some yi.
Hypothesis Hzi : nth_error zt i = Some zi.
Hypothesis Hai : nth_error at_ i = Some ai.

(** The pass, read at parcel [i]. *)
Lemma step_parcel :
  exists win md ui vi wi vri zsf z1 z2 si,
    field_window ds xt yt zt = Some win
    /\ get_model_data ds cfg t win = Some md
    /\ interp_point (fast_grid win) (Arr3 (u md)) nan (query_u cfg win xi yi zi) = Some ui
    /\ interp_point (fast_grid win) (Arr3 (v md)) nan (query_v cfg win xi yi zi) = Some vi
    /\ interp_point (fast_grid win) (Arr3 (w md)) 0%float (query_w cfg win xi yi zi) = Some wi
    /\ interp_point (fast_grid win) (Arr3 (var1 md)) nan (query_fast win xi yi zi) = Some si
    /\ interp_point [py_slice (z ds) 0 (-1); y ds; x ds] (Arr3 vres) nan
         (query_full win xi yi zi) = Some vri
    /\ surface ds = Some zsf
    /\ interp_point [y ds; x ds] (Arr2 zsf) nan [yi; xi] = Some z1
    /\ interp_point [y ds; x ds] (Arr2 zsf) nan
         [(yi + vi * time_step_length cfg / hor_resolution cfg)%float;
          (xi + ui * time_step_length cfg / hor_resolution cfg)%float] = Some z2
    /\ entry (xpos s') (S t) i (xi + ui * time_step_length cfg / hor_resolution cfg)%float
    /\ entry (ypos s') (S t) i (yi + vi * time_step_length cfg / hor_resolution cfg)%float
    /\ entry (zpos_heightASL s') (S t) i (clip_min0 (ai + wi * time_step_length cfg))%float
    /\ entry (zpos_vert_res s') t i vri
    /\ entry (zpos s') (S t) i
         (clip_min0 (zi + (((ai + wi * time_step_length cfg) - ai) - (z2 - z1)) / vri))%float
    /\ entry (variable1 s') t i si.
Proof.
  destruct (step_inv _ _ _ _ _ _ Hstep)
    as (xt' & yt' & zt' & win & md & s1 & val & Ex & Ey & Ez & Hw & Hmd & Hi & Hval
        & Sx & Sy & Sz & Sa & Sv & Svar & _).
  rewrite Hxt in Ex. rewrite Hyt in Ey. rewrite Hzt in Ez.
  injection Ex as <-. injection Ey as <-. injection Ez as <-.
  destruct (integrate_parcel _ _ _ _ _ _ _ _ Hi _ _ _ _ Hxt Hyt Hzt Hat _ _ _ _ _ Hxi Hyi Hzi Hai)
    as (ui & vi & wi & vri & zsf & z1 & z2 & Hu & Hv & Hw' & Hvr & Hzs & Hz1 & Hz2
        & Nx & Ny & Na & Nvr & Nz).
  destruct (interpn_nth _ _ _ _ _ _ _ Hval (nth_coord_fast win _ _ _ _ _ _ _ Hxi Hyi Hzi))
    as (si & Hsi & Nsi).
  exists win, md, ui, vi, wi, vri, zsf, z1, z2, si.
  rewrite Sx, Sy, Sz, Sa, Sv.
  repeat match goal with |- _ /\ _ => split end; try assumption.
  - now apply entry_clip.
  - now apply entry_clip.
  - exists val. auto.
Qed.

End StepLost.

Ltac splits := repeat match goal with |- _ /\ _ => split end.

Ltac nan_simpl :=
  repeat (rewrite ?add_nan_l, ?add_nan_r, ?sub_nan_l, ?sub_nan_r,
            ?mul_nan_l, ?mul_nan_r, ?div_nan_l, ?div_nan_r, ?clip_min0_nan).

Lemma query_u_nan cfg win yi zi : In nan (query_u cfg win nan yi zi).
Proof.
  unfold query_u. right. right. left. destruct (staggered cfg); now nan_simpl.
Qed.

Lemma query_v_nan cfg win yi zi : In nan (query_v cfg win nan yi zi).
Proof. unfold query_v. right. right. left. now nan_simpl. Qed.

Lemma query_fast_nan win yi zi : In nan (query_fast win nan yi zi).
Proof. unfold query_fast. right. right. left. now nan_simpl. Qed.

Lemma query_w_all_nan cfg win : Forall (eq nan) (query_w cfg win nan nan nan).
Proof.
  unfold query_w. destruct (staggered cfg); repeat constructor; now nan_simpl.
Qed.

Section Propagation.

Variables (ds : dataset) (cfg : settings) (vres : field3).

(** A parcel lost at index [t] is lost at [t + 1], where its height above
    sea level is not-a-number as well, and its scalar sample at [t] is
    not-a-number. *)
Lemma step_lost_next t s s' i :
  step ds cfg vres t s = Some s' ->
  lost s t i -> (exists a, entry (zpos_heightASL s) t i a) ->
  lost s' (S t) i
  /\ entry (zpos_heightASL s') (S t) i nan
  /\ entry (variable1 s') t i nan.
Proof.
  intros Hstep ((xt & Hxt & Hxi) & (yt & Hyt & Hyi) & (zt & Hzt & Hzi))
         (ai & at_ & Hat & Hai).
  destruct (step_parcel _ _ _ _ _ _ Hstep _ _ _ _ _ _ _ _ _
              Hxt Hyt Hzt Hat Hxi Hyi Hzi Hai)
    as (win & md & ui & vi & wi & vri & zsf & z1 & z2 & si & _ & _ & Hu & Hv & Hw & Hs
        & _ & _ & _ & Hz2 & Nx & Ny & Na & _ & Nz & Ns).
  apply interp_point_nan_coord in Hu; [|apply query_u_nan].
  apply interp_point_nan_coord in Hv; [|apply query_v_nan].
  apply interp_point_nan_coord in Hs; [|apply query_fast_nan].
  apply interp_point_all_nan in Hw; [|apply query_w_all_nan|discriminate].
  subst ui vi wi si.
  revert Nx Ny Na Nz. nan_simpl. intros Nx Ny Na Nz.
  unfold lost. splits; assumption.
Qed.

(** A parcel whose [u] and [v] query points are outside the field window
    at pass [t] is lost at [t + 1]; its height above sea level at [t + 1]
    is a number whenever the vertical velocity there is: the fill value
    for [w] is zero. *)
Lemma step_outside_lost t s s' xt yt zt at_ win i xi yi zi ai :
  step ds cfg vres t s = Some s' ->
  nth_error (xpos s) t = Some xt -> nth_error (ypos s) t = Some yt ->
  nth_error (zpos s) t = Some zt -> nth_error (zpos_heightASL s) t = Some at_ ->
  nth_error xt i = Some xi -> nth_error yt i = Some yi ->
  nth_error zt i = Some zi -> nth_error at_ i = Some ai ->
  field_window ds xt yt zt = Some win ->
  outside (fast_grid win) (query_u cfg win xi yi zi) = true ->
  outside (fast_grid win) (query_v cfg win xi yi zi) = true ->
  lost s' (S t) i /\ exists a, entry (zpos_heightASL s') (S t) i a.
Proof.
  intros Hstep Hxt Hyt Hzt Hat Hxi Hyi Hzi Hai Hwin Ou Ov.
  destruct (step_parcel _ _ _ _ _ _ Hstep _ _ _ _ _ _ _ _ _
              Hxt Hyt Hzt Hat Hxi Hyi Hzi Hai)
    as (win' & md & ui & vi & wi & vri & zsf & z1 & z2 & si & Hwin' & _ & Hu & Hv & _ & _
        & _ & _ & _ & Hz2 & Nx & Ny & Na & _ & Nz & _).
  rewrite Hwin in Hwin'. injection Hwin' as <-.
  apply interp_point_outside in Hu; [|exact Ou].
  apply interp_point_outside in Hv; [|exact Ov].
  subst ui vi.
  apply interp_point_nan_coord in Hz2; [|left; now nan_simpl].
  subst z2.
  revert Nx Ny Nz. nan_simpl. intros Nx Ny Nz.
  unfold lost. splits; eauto.
Qed.

Lemma loop_cons t ts s sk :
  loop ds cfg vres (t :: ts) s = Some sk ->
  exists s1, step ds cfg vres t s = Some s1 /\ loop ds cfg vres ts s1 = Some sk.
Proof. simpl. intros H. bind_step H s1 E. eauto. Qed.

(** Later passes leave the rows up to their own time index alone. *)
Lemma loop_keeps t k s sk i :
  loop ds cfg vres (seq t k) s = Some sk ->
  (forall j, (j <= t)%nat -> lost s j i -> lost sk j i)
  /\ (forall j, (j <= t)%nat ->
        entry (zpos_heightASL s) j i nan -> entry (zpos_heightASL sk) j i nan)
  /\ (forall j val, (j < t)%nat ->
        entry (variable1 s) j i val -> entry (variable1 sk) j i val)
  /\ (forall j, (j <= t)%nat -> nth_error (xpos sk) j = nth_error (xpos s) j)
  /\ (forall j, (j <= t)%nat -> nth_error (ypos sk) j = nth_error (ypos s) j).
Proof.
  revert t s. induction k as [|k IH]; intros t s H; simpl in H.
  - injection H as <-. splits; auto.
  - bind_step H s1 E. destruct (IH _ _ H) as (K1 & K2 & K3 & K4 & K5).
    splits.
    + intros j Hj L. apply K1; [lia|]. eapply step_keeps_lost; eauto. lia.
    + intros j Hj L. apply K2; [lia|]. eapply step_keeps_asl_nan; eauto. lia.
    + intros j val Hj L. apply K3; [lia|]. eapply step_keeps_variable; eauto. lia.
    + intros j Hj. rewrite K4 by lia.
      apply (step_frame_xy _ _ _ _ _ _ E j). lia.
    + intros j Hj. rewrite K5 by lia.
      apply (step_frame_xy _ _ _ _ _ _ E j). lia.
Qed.

(** Once lost, lost for the rest of the loop. *)
Lemma loop_lost k t s sk i :
  loop ds cfg vres (seq t k) s = Some sk ->
  lost s t i -> (exists a, entry (zpos_heightASL s) t i a) ->
  (forall t', (t <= t' <= t + k)%nat -> lost sk t' i)
  /\ (forall t', (t < t' <= t + k)%nat -> entry (zpos_heightASL sk) t' i nan)
  /\ (forall t', (t <= t' < t + k)%nat -> entry (variable1 sk) t' i nan).
Proof.
  revert t s. induction k as [|k IH]; intros t s H L A.
  - simpl in H. injection H as <-. splits; intros t' Ht'; try lia.
    replace t' with t by lia. exact L.
  - pose proof H as H0. simpl in H. bind_step H s1 E.
    destruct (step_lost_next _ _ _ _ E L A) as (L1 & A1 & V1).
    destruct (IH _ _ H L1 (ex_intro _ _ A1)) as (I1 & I2 & I3).
    destruct (loop_keeps _ _ _ _ i H) as (K1 & K2 & K3 & _).
    destruct (loop_keeps _ _ _ _ i H0) as (K1' & _).
    splits; intros t' Ht'.
    + destruct (Nat.eq_dec t' t) as [->|N]; [apply K1'; auto | apply I1; lia].
    + destruct (Nat.eq_dec t' (S t)) as [->|N]; [apply K2; auto | apply I2; lia].
    + destruct (Nat.eq_dec t' t) as [->|N]; [apply K3; auto | apply I3; lia].
Qed.

End Propagation.

(** ** The last sampling cell *)

Lemma final_sample_inv ds cfg s out :
  final_sample ds cfg s = Some out ->
  exists fld xt yt zt val,
    py_index (tracked ds) (final_time_index cfg) = Some fld
    /\ nth_error (xpos s) (time_steps cfg - 1) = Some xt
    /\ nth_error (ypos s) (time_steps cfg - 1) = Some yt
    /\ nth_error (zpos s) (time_steps cfg - 1) = Some zt
    /\ interpn [z ds; y ds; x ds] (Arr3 fld)
         (coords3 (shift_half zt) (shift_half yt) (shift_half xt)) nan = Some val
    /\ xpos out = xpos s /\ ypos out = ypos s /\ zpos out = zpos s
    /\ zpos_heightASL out = zpos_heightASL s
    /\ zpos_vert_res out = zpos_vert_res s
    /\ nth_error (variable1 out) (time_steps cfg - 1) = Some val
    /\ (forall j, j <> (time_steps cfg - 1)%nat ->
          nth_error (variable1 out) j = nth_error (variable1 s) j).
Proof.
  unfold final_sample. intros H.
  bind_step H fld Ev. bind_step H xt Ex. bind_step H yt Ey. bind_step H zt Ez.
  bind_step H val Eval. bind_step H vs Evs. injection H as <-. simpl.
  exists fld, xt, yt, zt, val. splits; try reflexivity; try assumption.
  - eapply set_row_same; eauto.
  - intros j Hj. eapply set_row_other; eauto.
Qed.

Lemma final_sample_lost ds cfg s out i :
  final_sample ds cfg s = Some out ->
  lost s (time_steps cfg - 1) i ->
  entry (variable1 out) (time_steps cfg - 1) i nan.
Proof.
  intros H ((xt & Hxt & Hxi) & (yt & Hyt & Hyi) & (zt & Hzt & Hzi)).
  destruct (final_sample_inv _ _ _ _ H)
    as (fld & xt' & yt' & zt' & val & _ & Ex & Ey & Ez & Hval & _ & _ & _ & _ & _ & Nv & _).
  rewrite Hxt in Ex. rewrite Hyt in Ey. rewrite Hzt in Ez.
  injection Ex as <-. injection Ey as <-. injection Ez as <-.
  assert (C : nth_error (coords3 (shift_half zt) (shift_half yt) (shift_half xt)) i
              = Some [nan; nan; nan]).
  { rewrite nth_error_coords3. unfold shift_half.
    rewrite !nth_error_map, Hxi, Hyi, Hzi. simpl. now nan_simpl. }
  destruct (interpn_nth _ _ _ _ _ _ _ Hval C) as (r & Hr & Nr).
  apply interp_point_nan_coord in Hr; [|now left]. subst r.
  exists val. auto.
Qed.

(** ** Whole rows *)

Lemma integrate_rows ds cfg vres t win md s s' xt yt zt at_ :
  integrate ds cfg vres t win md s = Some s' ->
  nth_error (xpos s) t = Some xt -> nth_error (ypos s) t = Some yt ->
  nth_error (zpos s) t = Some zt -> nth_error (zpos_heightASL s) t = Some at_ ->
  exists zsf iu iv iw vr zs1 zs2,
    let xn := map2 (fun p k => (p + k * time_step_length cfg / hor_resolution cfg)%float) xt iu in
    let yn := map2 (fun p k => (p + k * time_step_length cfg / hor_resolution cfg)%float) yt iv in
    let an := map2 (fun p k => (p + k * time_step_length cfg)%float) at_ iw in
    surface ds = Some zsf
    /\ interpn (fast_grid win) (Arr3 (u md)) (coord_u cfg win xt yt zt) nan = Some iu
    /\ interpn (fast_grid win) (Arr3 (v md)) (coord_v cfg win xt yt zt) nan = Some iv
    /\ interpn (fast_grid win) (Arr3 (w md)) (coord_w cfg win xt yt zt) 0%float = Some iw
    /\ interpn [py_slice (z ds) 0 (-1); y ds; x ds] (Arr3 vres)
         (coord win xt yt zt) nan = Some vr
    /\ surface_at ds zsf yt xt = Some zs1
    /\ surface_at ds zsf yn xn = Some zs2
    /\ nth_error (xpos s') (S t) = Some xn
    /\ nth_error (ypos s') (S t) = Some yn
    /\ nth_error (zpos_heightASL s') (S t) = Some an
    /\ nth_error (zpos_vert_res s') t = Some vr
    /\ nth_error (zpos s') (S t)
       = Some (map2 PrimFloat.add zt
                 (map2 PrimFloat.div
                    (map2 PrimFloat.sub (map2 PrimFloat.sub an at_)
                                        (map2 PrimFloat.sub zs2 zs1)) vr)).
Proof.
  intros Hint Hxt Hyt Hzt Hat.
  unfold integrate in Hint. rewrite Hxt, Hyt, Hzt, Hat in Hint. cbn [bind] in Hint.
  bind_step Hint zsf Ezs.
  bind_step Hint iu Eiu. bind_step Hint xp Exp.
  bind_step Hint iv Eiv. bind_step Hint yp Eyp.
  bind_step Hint iw Eiw. bind_step Hint asl Easl.
  bind_step Hint vr Evr. bind_step Hint vrs Evrs.
  bind_step Hint zs1 Ezs1. bind_step Hint zs2 Ezs2.
  bind_step Hint zp Ezp.
  injection Hint as <-.
  cbn [xpos ypos zpos zpos_heightASL zpos_vert_res variable1].
  exists zsf, iu, iv, iw, vr, zs1, zs2. cbv zeta.
  splits; try assumption; try reflexivity; eapply set_row_same; eauto.
Qed.

Lemma clip_min0_idem a : clip_min0 (clip_min0 a) = clip_min0 a.
Proof.
  unfold clip_min0. destruct (a <? 0)%float eqn:E; [reflexivity|].
  now rewrite E.
Qed.

Lemma clip_row_idem (r : list float) :
  map clip_min0 (map clip_min0 r) = map clip_min0 r.
Proof. rewrite map_map. apply map_ext. intros. apply clip_min0_idem. Qed.

(** Rows up to the current time index, over the rest of the loop. *)
Lemma loop_keeps_rows ds cfg vres t k s sk :
  loop ds cfg vres (seq t k) s = Some sk ->
  (forall j, (j <= t)%nat -> nth_error (xpos sk) j = nth_error (xpos s) j)
  /\ (forall j, (j <= t)%nat -> nth_error (ypos sk) j = nth_error (ypos s) j)
  /\ (forall j r, (j <= t)%nat -> nth_error (zpos s) j = Some (map clip_min0 r) ->
        nth_error (zpos sk) j = Some (map clip_min0 r))
  /\ (forall j, (j < t)%nat -> nth_error (variable1 sk) j = nth_error (variable1 s) j).
Proof.
  revert t s. induction k as [|k IH]; intros t s H; simpl in H.
  - injection H as <-. splits; auto.
  - bind_step H s1 E. destruct (IH _ _ H) as (K1 & K2 & K3 & K4).
    splits.
    + intros j Hj. rewrite K1 by lia. apply (step_frame_xy _ _ _ _ _ _ E j). lia.
    + intros j Hj. rewrite K2 by lia. apply (step_frame_xy _ _ _ _ _ _ E j). lia.
    + intros j r Hj Hr. apply K3; [lia|].
      destruct (step_frame_heights _ _ _ _ _ _ E j) as (Fz & _); [lia|].
      rewrite Fz, Hr. simpl. now rewrite clip_row_idem.
    + intros j Hj. rewrite K4 by lia. apply (step_frame_variable _ _ _ _ _ _ E j). lia.
Qed.

(** Rows of the height arrays that are already clipped, and rows of the
    vertical-spacing array below the current time index, over the rest of
    the loop. *)
Lemma loop_keeps_heights ds cfg vres t k s sk :
  loop ds cfg vres (seq t k) s = Some sk ->
  (forall j r, (j <= t)%nat -> nth_error (zpos_heightASL s) j = Some (map clip_min0 r) ->
     nth_error (zpos_heightASL sk) j = Some (map clip_min0 r))
  /\ (forall j, (j < t)%nat ->
        nth_error (zpos_vert_res sk) j = nth_error (zpos_vert_res s) j).
Proof.
  revert t s. induction k as [|k IH]; intros t s H; simpl in H.
  - injection H as <-. splits; auto.
  - bind_step H s1 E. destruct (IH _ _ H) as (K1 & K2).
    splits.
    + intros j r Hj Hr. apply K1; [lia|].
      destruct (step_frame_heights _ _ _ _ _ _ E j) as (_ & Fa); [lia|].
      rewrite Fa, Hr. simpl. now rewrite clip_row_idem.
    + intros j Hj. rewrite K2 by lia.
      destruct (step_inv _ _ _ _ _ _ E)
        as (xt & yt & zt & win & md & s' & val & _ & _ & _ & _ & _ & Hi
            & _ & _ & _ & _ & _ & -> & _).
      destruct (integrate_frame _ _ _ _ _ _ _ _ Hi) as (_ & _ & _ & _ & Fv & _).
      apply Fv. lia.
Qed.

(** Every row of the two height arrays is clipped after a pass. *)
Lemma step_clipped ds cfg vres t s s' j r :
  step ds cfg vres t s = Some s' ->
  nth_error (zpos s') j = Some r \/ nth_error (zpos_heightASL s') j = Some r ->
  exists r0, r = map clip_min0 r0.
Proof.
  intros E H.
  destruct (step_inv _ _ _ _ _ _ E)
    as (xt & yt & zt & win & md & s1 & val & _ & _ & _ & _ & _ & _
        & _ & _ & _ & Hz & Ha & _).
  rewrite Hz, Ha in H. unfold clip in H. rewrite !nth_error_map in H.
  destruct H as [H|H].
  - destruct (nth_error (zpos s1) j) as [r0|]; [|discriminate].
    injection H as <-. eauto.
  - destruct (nth_error (zpos_heightASL s1) j) as [r0|]; [|discriminate].
    injection H as <-. eauto.
Qed.

(** ** The field window *)

Section Reduce.

(** [fmin] and [fmax] are one selection, for an order and its converse. *)
Variable rel : float -> float -> bool.
Hypothesis rel_nan_l : forall a, rel nan a = false.
Hypothesis rel_refl : forall a, a <> nan -> rel a a = true.
Hypothesis rel_total : forall a b, a <> nan -> b <> nan -> rel a b = false -> rel b a = true.
Hypothesis rel_trans :
  forall a b c, a <> nan -> b <> nan -> c <> nan ->
                rel a b = true -> rel b c = true -> rel a c = true.

Lemma pick_cases a b :
  (pick rel a b = a /\ (b = nan \/ rel a b = true))
  \/ (pick rel a b = b /\ b <> nan /\ rel a b = false).
Proof.
  unfold pick. destruct (rel a b) eqn:R; simpl; [left; auto|].
  destruct (is_nan b) eqn:N.
  - left. split; [reflexivity|]. left. now apply is_nan_spec.
  - right. repeat split; auto. now apply is_nan_false.
Qed.

Lemma pick_number a b : pick rel a b = nan -> a = nan /\ b = nan.
Proof.
  destruct (pick_cases a b) as [(-> & [->|R])|(-> & N & _)]; intros E; auto.
  - subst. now rewrite rel_nan_l in R.
  - contradiction.
Qed.

Lemma pick_below_l a b :
  pick rel a b <> nan -> a <> nan -> rel (pick rel a b) a = true.
Proof.
  destruct (pick_cases a b) as [(-> & _)|(-> & N & R)]; intros; auto.
Qed.

Lemma pick_below_r a b :
  pick rel a b <> nan -> b <> nan -> rel (pick rel a b) b = true.
Proof.
  destruct (pick_cases a b) as [(-> & [->|R])|(-> & N & R)]; intros; auto;
    congruence.
Qed.

Lemma reduce_in r a : In (fold_left (pick rel) r a) (a :: r).
Proof.
  revert a. induction r as [|b r IH]; intros a; simpl; [now left|].
  specialize (IH (pick rel a b)).
  remember (fold_left (pick rel) r (pick rel a b)) as m eqn:Em. clear Em.
  destruct IH as [H|H]; [|now right; right].
  destruct (pick_cases a b) as [(E & _)|(E & _)]; rewrite E in H; auto.
Qed.

Lemma reduce_below r a p :
  fold_left (pick rel) r a <> nan -> In p (a :: r) -> p <> nan ->
  rel (fold_left (pick rel) r a) p = true.
Proof.
  revert a p. induction r as [|b r IH]; intros a p Hm Hp Np; simpl in *.
  - destruct Hp as [->|[]]. now apply rel_refl.
  - destruct (float_nan_dec (pick rel a b)) as [E|Na].
    + destruct (pick_number _ _ E) as (-> & ->).
      destruct Hp as [<-|[<-|Hp]]; try congruence.
      apply IH; auto.
    + assert (Q : rel (fold_left (pick rel) r (pick rel a b)) (pick rel a b) = true)
        by (apply IH; auto).
      destruct Hp as [<-|[<-|Hp]].
      * eapply rel_trans; [exact Hm|exact Na|exact Np|exact Q|].
        now apply pick_below_l.
      * eapply rel_trans; [exact Hm|exact Na|exact Np|exact Q|].
        now apply pick_below_r.
      * apply IH; auto.
Qed.

Lemma reduce_all_nan r : Forall (eq nan) r -> fold_left (pick rel) r nan = nan.
Proof.
  induction 1 as [|b r <- _ IH]; simpl; [reflexivity|].
  unfold pick at 2. now rewrite rel_nan_l.
Qed.

End Reduce.

Lemma fmin_pick : fmin = pick PrimFloat.leb.
Proof. reflexivity. Qed.

Lemma fmax_pick : fmax = pick (fun a b => (b <=? a)%float).
Proof. reflexivity. Qed.

Lemma nanmin_extremum pos m :
  nanmin pos = Some m -> m <> nan -> extremum false pos m.
Proof.
  destruct pos as [|a r]; [discriminate|]. simpl. intros H Hm.
  injection H as <-. rewrite fmin_pick in *.
  split; [apply reduce_in|]. split; [exact Hm|].
  intros p Hp Np.
  apply (reduce_below PrimFloat.leb leb_nan_l leb_refl leb_total leb_trans); auto.
Qed.

Lemma nanmax_extremum pos m :
  nanmax pos = Some m -> m <> nan -> extremum true pos m.
Proof.
  destruct pos as [|a r]; [discriminate|]. simpl. intros H Hm.
  injection H as <-. rewrite fmax_pick in *.
  split; [apply reduce_in|]. split; [exact Hm|].
  intros p Hp Np.
  apply (reduce_below (fun a b => (b <=? a)%float) leb_nan_r leb_refl); auto.
  - intros; apply leb_total; auto.
  - intros a0 b c ? ? ? ? ?; apply (leb_trans c b a0); auto.
Qed.

Lemma window_lo_spec pos lo :
  window_lo pos = Some lo ->
  exists mn a, extremum false pos mn /\ np_int (mn - 2)%float = Some a /\ lo = Z.max 0 a.
Proof.
  unfold window_lo. intros H. bind_step H m Em. bind_step H a Ea.
  injection H as <-. exists m, a. split; [|split; [exact Ea|]].
  - apply nanmin_extremum; [exact Em|]. intros ->.
    rewrite sub_nan_l in Ea. discriminate.
  - destruct (Z.ltb_spec a 0); lia.
Qed.

Lemma window_hi_spec pos dim hi :
  window_hi pos dim = Some hi ->
  exists mx b, extremum true pos mx /\ np_int (mx + 2)%float = Some b /\ hi = Z.min dim b.
Proof.
  unfold window_hi. intros H. bind_step H m Em. bind_step H b Eb.
  injection H as <-. exists m, b. split; [|split; [exact Eb|]].
  - apply nanmax_extremum; [exact Em|]. intros ->.
    rewrite add_nan_l in Eb. discriminate.
  - unfold Z.gtb. destruct (Z.compare_spec b dim); lia.
Qed.

Lemma window_lo_all_nan pos : Forall (eq nan) pos -> window_lo pos = None.
Proof.
  intros H. unfold window_lo. destruct H as [|a r <- H]; [reflexivity|].
  simpl. rewrite fmin_pick, (reduce_all_nan _ leb_nan_l) by exact H.
  reflexivity.
Qed.

(** ** Integer grids *)

Lemma len_arange n : len (arange n) = Z.max 0 n.
Proof. unfold len, arange. rewrite length_map, length_seq. lia. Qed.

Lemma firstn_seq k a n : firstn k (seq a n) = seq a (Nat.min k n).
Proof.
  revert a n. induction k as [|k IH]; intros a [|n]; simpl; try reflexivity.
  now rewrite IH.
Qed.

Lemma arange_slice n : py_slice (arange n) 0 (-1) = arange (n - 1).
Proof.
  unfold py_slice. rewrite len_arange. unfold py_bound.
  change (-1 <? 0) with true. change (0 <? 0) with false. cbv iota.
  replace (Z.to_nat (Z.min 0 (Z.max 0 n))) with 0%nat by lia.
  cbn [skipn]. unfold arange. rewrite firstn_map, firstn_seq. do 2 f_equal. lia.
Qed.

Lemma arange_ends m :
  1 <= m -> exists r, arange m = 0 :: r /\ last (arange m) 0 = m - 1.
Proof.
  intros H. unfold arange.
  destruct (Z.to_nat m) as [|k] eqn:E; [lia|].
  exists (map Z.of_nat (seq 1 k)). split; [reflexivity|].
  rewrite seq_S, map_app. simpl. rewrite last_last. lia.
Qed.

Lemma interp_point_grid points values fill q r :
  interp_point points values fill q = Some r -> Forall (fun g => g <> []) points.
Proof.
  intros H. pose proof (interp_point_length _ _ _ _ _ H) as L.
  unfold interp_point in H. inv_bind H. clear H E1 E.
  revert q L l E0. induction points as [|g points IH]; intros [|a q] L l H;
    simpl in *; try discriminate; constructor.
  - intros ->. bind_step H p E. unfold find_indices in E.
    rewrite !py_index_nil in E. discriminate.
  - bind_step H p E. bind_step H l' E'. eapply IH; eauto.
Qed.

Lemma interpn_shape points values xi fill r :
  interpn points values xi fill = Some r -> shape_matches points values = true.
Proof.
  unfold interpn. intros H. inv_bind H.
  destruct (shape_matches points values); [reflexivity|discriminate].
Qed.

Lemma integrate_asl_row ds cfg vres t win md s s' :
  integrate ds cfg vres t win md s = Some s' ->
  exists at_, nth_error (zpos_heightASL s) t = Some at_.
Proof.
  unfold integrate. intros H.
  bind_step H xt Ext. bind_step H yt Eyt. bind_step H zt Ezt.
  bind_step H at_ Eat. eauto.
Qed.

(** ** The synthetic run, computed *)

Lemma demo_vres : vert_resolution Demo.ds = Some Demo.vres.
Proof. vm_compute. reflexivity. Qed.

Lemma terrain_vres : vert_resolution Terrain.ds = Some Demo.vres.
Proof. vm_compute. reflexivity. Qed.

Lemma terrain_surface : surface Terrain.ds = surface Demo.ds.
Proof. vm_compute. reflexivity. Qed.

Lemma demo_seeded :
  initialize Terrain.ds Demo.cfg Demo.x0 Demo.y0 Demo.z0 = Some Demo.seeded.
Proof. vm_compute. reflexivity. Qed.

Lemma demo_pass0 :
  step Demo.ds Demo.cfg Demo.vres 0 Demo.seeded = Some Demo.pass0.
Proof. vm_compute. reflexivity. Qed.

Lemma demo_pass1 :
  step Demo.ds Demo.cfg Demo.vres 1 Demo.pass0 = Some Demo.pass1.
Proof. vm_compute. reflexivity. Qed.

Lemma demo_looped :
  loop Demo.ds Demo.cfg Demo.vres (seq 1 2) Demo.pass0 = Some Demo.looped.
Proof. vm_compute. reflexivity. Qed.

Lemma demo_final :
  final_sample Demo.ds Demo.cfg Demo.looped = Some Demo.final.
Proof. vm_compute. reflexivity. Qed.

Lemma demo_trajectories :
  trajectories Terrain.ds Demo.cfg Demo.x0 Demo.y0 Demo.z0 = Some Demo.final.
Proof. vm_compute. reflexivity. Qed.

Lemma demo_win0 :
  field_window Demo.ds Demo.x0 Demo.y0 Demo.z0 = Some Demo.win0.
Proof. vm_compute. reflexivity. Qed.

Lemma demo_win1 :
  field_window Demo.ds [1; 9.5; 1]%float [5; 5; 5]%float [2; nan; nan]%float
  = Some Demo.win1.
Proof. vm_compute. reflexivity. Qed.

Lemma demo_lone :
  s0 <- initialize Terrain.ds Demo.cfg [9.5%float] [5%float] [2%float] ;;
  step Terrain.ds Demo.cfg Demo.vres 0 s0 = Some Demo.lone.
Proof. vm_compute. reflexivity. Qed.

(** * The claims *)

(** ** C1: the ground clip *)

(** C1, as stated, fails: in the synthetic run the second parcel reaches
    x = 9.5 on the pass [t = 0]; the surface height interpolated there is
    the not-a-number fill, so its [z_grid] at index 1 is not-a-number,
    which the clip leaves alone, and not-a-number is not [>= 0]. *)
Lemma ground_clip_counterexample :
  step Demo.ds Demo.cfg Demo.vres 0 Demo.seeded = Some Demo.pass0
  /\ entry (zpos Demo.pass0) 1 1 nan
  /\ (0 <=? nan)%float = false.
Proof.
  split; [exact demo_pass0|]. split; [|reflexivity].
  eexists. split; reflexivity.
Qed.

(** C1 (amended): after a pass of the loop, every element of [zpos] and of
    [zpos_heightASL], at every time index and for every parcel, is either
    not-a-number or [>= 0]: it is never negative. *)
Theorem ground_clip_invariant ds cfg vres t s s' t' i zv :
  step ds cfg vres t s = Some s' ->
  entry (zpos s') t' i zv \/ entry (zpos_heightASL s') t' i zv ->
  zv = nan \/ (0 <=? zv)%float = true.
Proof.
  intros Hstep H.
  destruct (step_inv _ _ _ _ _ _ Hstep)
    as (xt & yt & zt & win & md & s1 & val & _ & _ & _ & _ & _ & _ & _ & _ & _ & Hz & Ha & _).
  rewrite Hz, Ha in H.
  destruct H as [H|H]; apply entry_clip_inv in H; destruct H as (v0 & _ & ->);
    apply clip_min0_sound.
Qed.

Lemma ground_clip_invariant_witness :
  step Demo.ds Demo.cfg Demo.vres 0 Demo.seeded = Some Demo.pass0
  /\ entry (zpos_heightASL Demo.pass0) 1 2 1750%float
  /\ (1750%float = nan \/ (0 <=? 1750)%float = true).
Proof.
  assert (E : entry (zpos_heightASL Demo.pass0) 1 2 1750%float)
    by (eexists; split; reflexivity).
  split; [exact demo_pass0|]. split; [exact E|].
  apply (ground_clip_invariant Demo.ds Demo.cfg Demo.vres 0 Demo.seeded Demo.pass0 1 2).
  - vm_compute. reflexivity.
  - right. exact E.
Defined.

(** ** C2: lost parcels *)

(** C2, as stated, fails for the height above sea level: on the pass
    [t = 1] of the synthetic run the second parcel, at x = 9.5, has its
    query point outside the field window, yet its [z_ASL] at index 2 is
    1000, not not-a-number: out of bounds the vertical velocity is filled
    with zero. *)
Lemma lost_parcel_counterexample :
  loop Demo.ds Demo.cfg Demo.vres (seq 1 2) Demo.pass0 = Some Demo.looped
  /\ final_sample Demo.ds Demo.cfg Demo.looped = Some Demo.final
  /\ field_window Demo.ds [1; 9.5; 1]%float [5; 5; 5]%float [2; nan; nan]%float
     = Some Demo.win1
  /\ outside (fast_grid Demo.win1) (query_u Demo.cfg Demo.win1 9.5 5 nan) = true
  /\ outside (fast_grid Demo.win1) (query_v Demo.cfg Demo.win1 9.5 5 nan) = true
  /\ outside (fast_grid Demo.win1) (query_fast Demo.win1 9.5 5 nan) = true
  /\ entry (zpos_heightASL Demo.final) 2 1 1000%float
  /\ is_nan 1000%float = false.
Proof.
  split; [exact demo_looped|]. split; [exact demo_final|].
  split; [exact demo_win1|].
  split; [vm_compute; reflexivity|]. split; [vm_compute; reflexivity|].
  split; [vm_compute; reflexivity|]. split; [|reflexivity].
  eexists. split; reflexivity.
Qed.

(** C2 (amended): if at pass [t] the [u] and [v] query points of a parcel
    (one and the same point when the velocities are not staggered) fall
    outside the field window, then in the arrays the notebook ends with its
    x, y and z_grid positions and its sampled scalar are not-a-number at
    every time index [t' > t], and its height above sea level is
    not-a-number at every [t' > t + 1].  At [t + 1] the height above sea
    level is the clipped sum of the height at [t] and the time step times
    the vertical velocity [wi] interpolated at the [w] query point with
    fill value zero; [wi] is zero when that point is outside the window
    too, as it is whenever the velocities are not staggered. *)
Theorem lost_parcel_propagation ds cfg vres t k s sk out xt yt zt at_ win i xi yi zi ai :
  nth_error (xpos s) t = Some xt -> nth_error (ypos s) t = Some yt ->
  nth_error (zpos s) t = Some zt -> nth_error (zpos_heightASL s) t = Some at_ ->
  nth_error xt i = Some xi -> nth_error yt i = Some yi ->
  nth_error zt i = Some zi -> nth_error at_ i = Some ai ->
  field_window ds xt yt zt = Some win ->
  outside (fast_grid win) (query_u cfg win xi yi zi) = true ->
  outside (fast_grid win) (query_v cfg win xi yi zi) = true ->
  loop ds cfg vres (seq t (S k)) s = Some sk ->
  final_sample ds cfg sk = Some out ->
  time_steps cfg = (t + S k + 1)%nat ->
  (forall t', (t < t' < time_steps cfg)%nat ->
     lost out t' i /\ entry (variable1 out) t' i nan)
  /\ (forall t', (S t < t' < time_steps cfg)%nat ->
        entry (zpos_heightASL out) t' i nan)
  /\ exists md wi,
       get_model_data ds cfg t win = Some md
       /\ interp_point (fast_grid win) (Arr3 (w md)) 0%float
            (query_w cfg win xi yi zi) = Some wi
       /\ entry (zpos_heightASL out) (S t) i
            (clip_min0 (ai + wi * time_step_length cfg))
       /\ (outside (fast_grid win) (query_w cfg win xi yi zi) = true ->
           wi = 0%float)
       /\ (staggered cfg = false -> wi = 0%float).
Proof.
  intros Hxt Hyt Hzt Hat Hxi Hyi Hzi Hai Hwin Ou Ov Hloop Hfin Hlen.
  change (seq t (S k)) with (t :: seq (S t) k) in Hloop.
  destruct (loop_cons _ _ _ _ _ _ _ Hloop) as (s1 & Hstep & Hrest).
  assert (W : exists md wi,
             get_model_data ds cfg t win = Some md
             /\ interp_point (fast_grid win) (Arr3 (w md)) 0%float
                  (query_w cfg win xi yi zi) = Some wi
             /\ entry (zpos_heightASL s1) (S t) i
                  (clip_min0 (ai + wi * time_step_length cfg))).
  { destruct (step_parcel _ _ _ _ _ _ Hstep _ _ _ _ _ _ _ _ _
                Hxt Hyt Hzt Hat Hxi Hyi Hzi Hai)
      as (win' & md & ui & vi & wi & vri & zsf & z1 & z2 & si & Hw' & Hmd
          & _ & _ & Hwi & _ & _ & _ & _ & _ & _ & _ & Pa & _).
    rewrite Hwin in Hw'. injection Hw' as <-. eauto. }
  destruct (step_outside_lost _ _ _ _ _ _ _ _ _ _ _ _ _ _ _ _
              Hstep Hxt Hyt Hzt Hat Hxi Hyi Hzi Hai Hwin Ou Ov) as (L1 & A1).
  destruct (loop_lost _ _ _ _ _ _ _ i Hrest L1 A1) as (I1 & I2 & I3).
  pose proof (final_sample_lost _ _ _ _ i Hfin) as FL.
  destruct (final_sample_inv _ _ _ _ Hfin)
    as (fld & _ & _ & _ & _ & _ & _ & _ & _ & _ & Sx & Sy & Sz & Sa & _ & _ & Fv).
  assert (Lout : forall t', (S t <= t' <= S t + k)%nat -> lost out t' i).
  { intros t' Ht'. unfold lost. rewrite Sx, Sy, Sz. now apply I1. }
  split; [|split].
  - intros t' Ht'. split; [apply Lout; lia|].
    destruct (Nat.eq_dec t' (time_steps cfg - 1)) as [->|N].
    + apply FL. apply I1. lia.
    + eapply entry_eq_row; [apply Fv; exact N|]. apply I3. lia.
  - intros t' Ht'. rewrite Sa. apply I2. lia.
  - destruct W as (md & wi & Hmd & Hwi & (row & Hrow & Hval)).
    exists md, wi. splits; [exact Hmd|exact Hwi| | |].
    + exists row. split; [|exact Hval]. rewrite Sa.
      destruct (step_clipped _ _ _ _ _ _ (S t) row Hstep) as (r0 & ->); [now right|].
      destruct (loop_keeps_heights _ _ _ _ _ _ _ Hrest) as (K & _).
      apply K; [lia|exact Hrow].
    + intros Ow. eapply interp_point_outside; eauto.
    + intros St. eapply interp_point_outside; [exact Hwi|].
      unfold query_w. unfold query_u in Ou. rewrite St in *. exact Ou.
Qed.

Lemma lost_parcel_propagation_witness :
  (forall t', (1 < t' < 4)%nat ->
     lost Demo.final t' 1 /\ entry (variable1 Demo.final) t' 1 nan)
  /\ (forall t', (2 < t' < 4)%nat -> entry (zpos_heightASL Demo.final) t' 1 nan)
  /\ exists md wi,
       get_model_data Demo.ds Demo.cfg 1 Demo.win1 = Some md
       /\ interp_point (fast_grid Demo.win1) (Arr3 (w md)) 0%float
            (query_w Demo.cfg Demo.win1 9.5 5 nan) = Some wi
       /\ entry (zpos_heightASL Demo.final) 2 1
            (clip_min0 (1000 + wi * time_step_length Demo.cfg))
       /\ (outside (fast_grid Demo.win1) (query_w Demo.cfg Demo.win1 9.5 5 nan) = true ->
           wi = 0%float)
       /\ (staggered Demo.cfg = false -> wi = 0%float).
Proof.
  apply (lost_parcel_propagation Demo.ds Demo.cfg Demo.vres 1 1 Demo.pass0 Demo.looped
           Demo.final [1; 9.5; 1]%float [5; 5; 5]%float [2; nan; nan]%float
           [1000; 1000; 1750]%float Demo.win1 1 9.5 5 nan 1000);
    vm_compute; reflexivity.
Defined.

(** ** C3: the two fill values *)

(** C3: on a pass of the loop, for a parcel whose query point lies outside
    the field window on some axis, the interpolated [u], [v] and tracked
    scalar are not-a-number, and so are the new x, the new y and the
    recorded scalar; the interpolated [w] is zero, so the new height above
    sea level is the old one plus zero times the time step (clipped): for
    a finite time step and a height that is [>= 0] it compares equal to
    the old height. *)
Theorem dual_fill_policy ds cfg vres t s s' xt yt zt at_ i xi yi zi ai :
  step ds cfg vres t s = Some s' ->
  nth_error (xpos s) t = Some xt -> nth_error (ypos s) t = Some yt ->
  nth_error (zpos s) t = Some zt -> nth_error (zpos_heightASL s) t = Some at_ ->
  nth_error xt i = Some xi -> nth_error yt i = Some yi ->
  nth_error zt i = Some zi -> nth_error at_ i = Some ai ->
  exists win md ui vi wi si,
    field_window ds xt yt zt = Some win
    /\ get_model_data ds cfg t win = Some md
    /\ interp_point (fast_grid win) (Arr3 (u md)) nan (query_u cfg win xi yi zi) = Some ui
    /\ interp_point (fast_grid win) (Arr3 (v md)) nan (query_v cfg win xi yi zi) = Some vi
    /\ interp_point (fast_grid win) (Arr3 (w md)) 0%float (query_w cfg win xi yi zi) = Some wi
    /\ interp_point (fast_grid win) (Arr3 (var1 md)) nan (query_fast win xi yi zi) = Some si
    /\ (outside (fast_grid win) (query_u cfg win xi yi zi) = true ->
        ui = nan /\ entry (xpos s') (S t) i nan)
    /\ (outside (fast_grid win) (query_v cfg win xi yi zi) = true ->
        vi = nan /\ entry (ypos s') (S t) i nan)
    /\ (outside (fast_grid win) (query_fast win xi yi zi) = true ->
        si = nan /\ entry (variable1 s') t i nan)
    /\ (outside (fast_grid win) (query_w cfg win xi yi zi) = true ->
        wi = 0%float
        /\ entry (zpos_heightASL s') (S t) i
             (clip_min0 (ai + 0 * time_step_length cfg))%float
        /\ (is_finite (time_step_length cfg) = true -> (0 <=? ai)%float = true ->
            (clip_min0 (ai + 0 * time_step_length cfg) =? ai)%float = true)).
Proof.
  intros Hstep Hxt Hyt Hzt Hat Hxi Hyi Hzi Hai.
  destruct (step_parcel _ _ _ _ _ _ Hstep _ _ _ _ _ _ _ _ _
              Hxt Hyt Hzt Hat Hxi Hyi Hzi Hai)
    as (win & md & ui & vi & wi & vri & zsf & z1 & z2 & si & Hwin & Hmd & Hu & Hv & Hw & Hs
        & _ & _ & _ & _ & Nx & Ny & Na & _ & _ & Ns).
  exists win, md, ui, vi, wi, si. splits; try assumption.
  - intros O. pose proof (interp_point_outside _ _ _ _ _ Hu O) as ->.
    split; [reflexivity|]. revert Nx. now nan_simpl.
  - intros O. pose proof (interp_point_outside _ _ _ _ _ Hv O) as ->.
    split; [reflexivity|]. revert Ny. now nan_simpl.
  - intros O. pose proof (interp_point_outside _ _ _ _ _ Hs O) as ->. auto.
  - intros O. pose proof (interp_point_outside _ _ _ _ _ Hw O) as ->.
    splits; [reflexivity|exact Na|].
    intros Hf Ha. destruct (mul_zero_finite _ Hf) as (sg & Hz).
    eapply clip_add_zero; eauto.
Qed.

Lemma dual_fill_policy_witness :
  step Demo.ds Demo.cfg Demo.vres 1 Demo.pass0 = Some Demo.pass1
  /\ exists win md ui vi wi si,
    field_window Demo.ds [1; 9.5; 1]%float [5; 5; 5]%float [2; nan; nan]%float = Some win
    /\ get_model_data Demo.ds Demo.cfg 1 win = Some md
    /\ interp_point (fast_grid win) (Arr3 (u md)) nan (query_u Demo.cfg win 9.5 5 nan)
       = Some ui
    /\ interp_point (fast_grid win) (Arr3 (v md)) nan (query_v Demo.cfg win 9.5 5 nan)
       = Some vi
    /\ interp_point (fast_grid win) (Arr3 (w md)) 0%float (query_w Demo.cfg win 9.5 5 nan)
       = Some wi
    /\ interp_point (fast_grid win) (Arr3 (var1 md)) nan (query_fast win 9.5 5 nan)
       = Some si
    /\ (outside (fast_grid win) (query_u Demo.cfg win 9.5 5 nan) = true ->
        ui = nan /\ entry (xpos Demo.pass1) 2 1 nan)
    /\ (outside (fast_grid win) (query_v Demo.cfg win 9.5 5 nan) = true ->
        vi = nan /\ entry (ypos Demo.pass1) 2 1 nan)
    /\ (outside (fast_grid win) (query_fast win 9.5 5 nan) = true ->
        si = nan /\ entry (variable1 Demo.pass1) 1 1 nan)
    /\ (outside (fast_grid win) (query_w Demo.cfg win 9.5 5 nan) = true ->
        wi = 0%float
        /\ entry (zpos_heightASL Demo.pass1) 2 1
             (clip_min0 (1000 + 0 * time_step_length Demo.cfg))%float
        /\ (is_finite (time_step_length Demo.cfg) = true -> (0 <=? 1000)%float = true ->
            (clip_min0 (1000 + 0 * time_step_length Demo.cfg) =? 1000)%float = true)).
Proof.
  split; [vm_compute; reflexivity|].
  apply (dual_fill_policy Demo.ds Demo.cfg Demo.vres 1 Demo.pass0 Demo.pass1
           [1; 9.5; 1]%float [5; 5; 5]%float [2; nan; nan]%float
           [1000; 1000; 1750]%float 1 9.5 5 nan 1000);
    vm_compute; reflexivity.
Defined.

(** ** C4: the coordinate transform *)

(** C4: on every pass and for every parcel, the grid height assigned to
    index [t + 1] is the old grid height plus, divided by the vertical
    spacing interpolated at the parcel's position of time [t], the change
    of height above sea level less the change of surface height between
    the horizontal positions of time [t] and of time [t + 1].  (The clip
    then applies to this value and to the new height above sea level.) *)
Theorem coordinate_transform ds cfg vres t s s' xt yt zt at_ i xi yi zi ai :
  step ds cfg vres t s = Some s' ->
  nth_error (xpos s) t = Some xt -> nth_error (ypos s) t = Some yt ->
  nth_error (zpos s) t = Some zt -> nth_error (zpos_heightASL s) t = Some at_ ->
  nth_error xt i = Some xi -> nth_error yt i = Some yi ->
  nth_error zt i = Some zi -> nth_error at_ i = Some ai ->
  exists win md s1 xn yn an zsf z1 z2 dz,
    field_window ds xt yt zt = Some win
    /\ get_model_data ds cfg t win = Some md
    /\ integrate ds cfg vres t win md s = Some s1
    /\ entry (xpos s1) (S t) i xn
    /\ entry (ypos s1) (S t) i yn
    /\ entry (zpos_heightASL s1) (S t) i an
    /\ surface ds = Some zsf
    /\ interp_point [y ds; x ds] (Arr2 zsf) nan [yi; xi] = Some z1
    /\ interp_point [y ds; x ds] (Arr2 zsf) nan [yn; xn] = Some z2
    /\ interp_point [py_slice (z ds) 0 (-1); y ds; x ds] (Arr3 vres) nan
         (query_full win xi yi zi) = Some dz
    /\ entry (zpos_vert_res s1) t i dz
    /\ entry (zpos s1) (S t) i (zi + ((an - ai) - (z2 - z1)) / dz)%float
    /\ entry (zpos s') (S t) i (clip_min0 (zi + ((an - ai) - (z2 - z1)) / dz))%float
    /\ entry (zpos_heightASL s') (S t) i (clip_min0 an).
Proof.
  intros Hstep Hxt Hyt Hzt Hat Hxi Hyi Hzi Hai.
  destruct (step_inv _ _ _ _ _ _ Hstep)
    as (xt' & yt' & zt' & win & md & s1 & val & Ex & Ey & Ez & Hw & Hmd & Hi & _
        & _ & _ & Sz & Sa & _).
  rewrite Hxt in Ex. rewrite Hyt in Ey. rewrite Hzt in Ez.
  injection Ex as <-. injection Ey as <-. injection Ez as <-.
  destruct (integrate_parcel _ _ _ _ _ _ _ _ Hi _ _ _ _ Hxt Hyt Hzt Hat _ _ _ _ _ Hxi Hyi Hzi Hai)
    as (ui & vi & wi & vri & zsf & z1 & z2 & _ & _ & _ & Hvr & Hzs & Hz1 & Hz2
        & Nx & Ny & Na & Nvr & Nz).
  exists win, md, s1.
  exists (xi + ui * time_step_length cfg / hor_resolution cfg)%float,
         (yi + vi * time_step_length cfg / hor_resolution cfg)%float,
         (ai + wi * time_step_length cfg)%float, zsf, z1, z2, vri.
  rewrite Sz, Sa. splits; try assumption; now apply entry_clip.
Qed.

Lemma coordinate_transform_witness :
  step Demo.ds Demo.cfg Demo.vres 0 Demo.seeded = Some Demo.pass0
  /\ exists win md s1 xn yn an zsf z1 z2 dz,
       field_window Demo.ds Demo.x0 Demo.y0 Demo.z0 = Some win
       /\ get_model_data Demo.ds Demo.cfg 0 win = Some md
       /\ integrate Demo.ds Demo.cfg Demo.vres 0 win md Demo.seeded = Some s1
       /\ entry (xpos s1) 1 0 xn
       /\ entry (ypos s1) 1 0 yn
       /\ entry (zpos_heightASL s1) 1 0 an
       /\ surface Demo.ds = Some zsf
       /\ interp_point [y Demo.ds; x Demo.ds] (Arr2 zsf) nan [5; 0]%float = Some z1
       /\ interp_point [y Demo.ds; x Demo.ds] (Arr2 zsf) nan [yn; xn] = Some z2
       /\ interp_point [py_slice (z Demo.ds) 0 (-1); y Demo.ds; x Demo.ds]
            (Arr3 Demo.vres) nan (query_full win 0 5 2) = Some dz
       /\ entry (zpos_vert_res s1) 0 0 dz
       /\ entry (zpos s1) 1 0 (2 + ((an - 1000) - (z2 - z1)) / dz)%float
       /\ entry (zpos Demo.pass0) 1 0
            (clip_min0 (2 + ((an - 1000) - (z2 - z1)) / dz))%float
       /\ entry (zpos_heightASL Demo.pass0) 1 0 (clip_min0 an).
Proof.
  split; [vm_compute; reflexivity|].
  apply (coordinate_transform Demo.ds Demo.cfg Demo.vres 0 Demo.seeded Demo.pass0
           Demo.x0 Demo.y0 Demo.z0 [1000; 1000; 1750]%float 0 0 5 2 1000);
    vm_compute; reflexivity.
Defined.

(** ** C5: the bounds of the field window *)

(** C5, as stated, fails on each of its three points.  For a single parcel
    at 3.5 on an axis of ten points the loop takes [hi = int(3.5 + 2) = 5],
    whereas the ceiling of 3.5 plus any margin of at least 2, clamped to
    [0, 10], is at least 6.  For a parcel at 20.5 the loop takes
    [lo = int(18.5) = 18], above the clamp at [dim - 1 = 9]; for a parcel at
    -5.5 it takes [hi = int(-3.5) = -3], below the clamp at 0. *)
Lemma window_bounds_counterexample :
  (window_hi [3.5%float] 10 = Some 5
   /\ forall margin, 2 <= margin -> spec_window_hi margin [3.5%float] 10 <> Some 5)
  /\ (window_lo [20.5%float] = Some 18
      /\ forall margin, spec_window_lo margin [20.5%float] 10 <> Some 18)
  /\ (window_hi [(-5.5)%float] 10 = Some (-3)
      /\ forall margin, spec_window_hi margin [(-5.5)%float] 10 <> Some (-3)).
Proof.
  split; [|split]; (split; [vm_compute; reflexivity|]); intros margin.
  - intros Hm.
    assert (E : spec_window_hi margin [3.5%float] 10 = Some (clamp (4 + margin) 0 10))
      by reflexivity.
    rewrite E. unfold clamp. intros H.
    assert (Z.max 0 (Z.min (4 + margin) 10) = 5) by congruence. lia.
  - assert (E : spec_window_lo margin [20.5%float] 10
                = Some (clamp (20 - margin) 0 (10 - 1))) by reflexivity.
    rewrite E. unfold clamp. intros H.
    assert (Z.max 0 (Z.min (20 - margin) (10 - 1)) = 18) by congruence. lia.
  - assert (E : spec_window_hi margin [(-5.5)%float] 10
                = Some (clamp (-5 + margin) 0 10)) by reflexivity.
    rewrite E. unfold clamp. intros H.
    assert (Z.max 0 (Z.min (-5 + margin) 10) = -3) by congruence. lia.
Qed.

(** C5 (amended): on each axis the loop takes
    [lo = max(0, int(min - 2))] and [hi = min(dim, int(max + 2))], where
    [min] and [max] are the least and greatest positions that are numbers
    and [int] truncates towards zero; the margin is the constant 2. *)
Theorem window_bounds ds xt yt zt win :
  field_window ds xt yt zt = Some win ->
  axis_bounds xt (nx ds) (xmin win) (xmax win)
  /\ axis_bounds yt (ny ds) (ymin win) (ymax win)
  /\ axis_bounds zt (nz ds) (zmin win) (zmax win).
Proof.
  unfold field_window. intros H.
  bind_step H xlo Exlo. bind_step H xhi Exhi.
  bind_step H ylo Eylo. bind_step H yhi Eyhi.
  bind_step H zlo Ezlo. bind_step H zhi Ezhi.
  injection H as <-. cbn [xmin xmax ymin ymax zmin zmax].
  assert (K : forall pos dim lo hi,
             window_lo pos = Some lo -> window_hi pos dim = Some hi ->
             axis_bounds pos dim lo hi).
  { intros pos dim lo hi Hlo Hhi.
    destruct (window_lo_spec _ _ Hlo) as (mn & a & Hmn & Ha & ->).
    destruct (window_hi_spec _ _ _ Hhi) as (mx & b & Hmx & Hb & ->).
    exists mn, mx, a, b. auto 10. }
  auto.
Qed.

Lemma window_bounds_witness :
  field_window Demo.ds Demo.x0 Demo.y0 Demo.z0 = Some Demo.win0
  /\ axis_bounds Demo.x0 10 0 10
  /\ axis_bounds Demo.y0 10 3 7
  /\ axis_bounds Demo.z0 5 0 5.
Proof.
  split; [vm_compute; reflexivity|].
  apply (window_bounds Demo.ds Demo.x0 Demo.y0 Demo.z0 Demo.win0).
  vm_compute. reflexivity.
Defined.

(** ** C6: a swarm of not-a-numbers *)

(** C6, as stated, fails: in the run of the single parcel seeded at
    x = 9.5 every position is not-a-number after the first pass; the window
    computation of the next pass raises instead of returning the
    full-domain window, and the run ends there.  On the output with
    terrain the seeding cells and the first pass complete, with the arrays
    [Demo.lone], and the run fails at the second pass. *)
Lemma degenerate_swarm_counterexample :
  field_window Demo.ds [nan] [nan] [nan] <> Some (full_domain Demo.ds)
  /\ step Demo.ds Demo.cfg Demo.vres 1 Demo.lone = None
  /\ trajectories Demo.ds Demo.cfg [9.5%float] [5%float] [2%float] = None
  /\ (s0 <- initialize Terrain.ds Demo.cfg [9.5%float] [5%float] [2%float] ;;
      step Terrain.ds Demo.cfg Demo.vres 0 s0) = Some Demo.lone
  /\ step Terrain.ds Demo.cfg Demo.vres 1 Demo.lone = None
  /\ trajectories Terrain.ds Demo.cfg [9.5%float] [5%float] [2%float] = None.
Proof.
  split; [vm_compute; discriminate|].
  repeat split; vm_compute; reflexivity.
Qed.

(** C6 (amended): if on some axis all parcel positions at time [t] are
    not-a-number, the window computation fails (the conversion of
    not-a-number to an integer raises) and so does the pass: no window is
    produced. *)
Theorem degenerate_swarm_fails ds cfg vres t s xt yt zt :
  nth_error (xpos s) t = Some xt -> nth_error (ypos s) t = Some yt ->
  nth_error (zpos s) t = Some zt ->
  Forall (eq nan) xt \/ Forall (eq nan) yt \/ Forall (eq nan) zt ->
  field_window ds xt yt zt = None /\ step ds cfg vres t s = None.
Proof.
  intros Hxt Hyt Hzt H.
  assert (W : field_window ds xt yt zt = None).
  { unfold field_window.
    destruct H as [H|[H|H]]; apply window_lo_all_nan in H.
    - now rewrite H.
    - destruct (window_lo xt); [|reflexivity]. cbn [bind].
      destruct (window_hi xt (nx ds)); [|reflexivity]. cbn [bind].
      now rewrite H.
    - destruct (window_lo xt); [|reflexivity]. cbn [bind].
      destruct (window_hi xt (nx ds)); [|reflexivity]. cbn [bind].
      destruct (window_lo yt); [|reflexivity]. cbn [bind].
      destruct (window_hi yt (ny ds)); [|reflexivity]. cbn [bind].
      now rewrite H. }
  split; [exact W|]. unfold step. rewrite Hxt, Hyt, Hzt. cbn [bind].
  now rewrite W.
Qed.

Lemma degenerate_swarm_fails_witness :
  Forall (eq nan) [nan]
  /\ field_window Demo.ds [nan] [nan] [nan] = None
  /\ step Demo.ds Demo.cfg Demo.vres 1 Demo.lone = None.
Proof.
  split; [repeat constructor|].
  apply degenerate_swarm_fails; try reflexivity.
  left. repeat constructor.
Defined.

(** ** C7: the scalar is sampled before the step *)

(** C7: for every pass [t] (so [t < time_steps - 1]) the scalar row the
    notebook ends with at index [t] is the interpolation of the smoothed
    tracked field at the query points built from the positions of time
    [t], as they stood before the pass; rows [t] of the positions are
    those positions (the grid heights clipped), and rows [t + 1] are the
    result of the pass. *)
Theorem scalar_alignment ds cfg vres t k s s1 sk out xt yt zt :
  nth_error (xpos s) t = Some xt -> nth_error (ypos s) t = Some yt ->
  nth_error (zpos s) t = Some zt ->
  step ds cfg vres t s = Some s1 ->
  loop ds cfg vres (seq (S t) k) s1 = Some sk ->
  final_sample ds cfg sk = Some out ->
  time_steps cfg = (t + k + 2)%nat ->
  exists win md val iu iv,
    field_window ds xt yt zt = Some win
    /\ get_model_data ds cfg t win = Some md
    /\ interpn (fast_grid win) (Arr3 (var1 md)) (coord_fast win xt yt zt) nan = Some val
    /\ nth_error (variable1 out) t = Some val
    /\ nth_error (xpos out) t = Some xt
    /\ nth_error (ypos out) t = Some yt
    /\ nth_error (zpos out) t = Some (map clip_min0 zt)
    /\ interpn (fast_grid win) (Arr3 (u md)) (coord_u cfg win xt yt zt) nan = Some iu
    /\ interpn (fast_grid win) (Arr3 (v md)) (coord_v cfg win xt yt zt) nan = Some iv
    /\ nth_error (xpos out) (S t)
       = Some (map2 (fun p d => (p + d * time_step_length cfg / hor_resolution cfg)%float)
                    xt iu)
    /\ nth_error (ypos out) (S t)
       = Some (map2 (fun p d => (p + d * time_step_length cfg / hor_resolution cfg)%float)
                    yt iv).
Proof.
  intros Hxt Hyt Hzt Hstep Hloop Hfin Hlen.
  destruct (step_inv _ _ _ _ _ _ Hstep)
    as (xt' & yt' & zt' & win & md & s0 & val & Ex & Ey & Ez & Hw & Hmd & Hi & Hval
        & Sx & Sy & Sz & Sa & Sv & Svar & _).
  rewrite Hxt in Ex. rewrite Hyt in Ey. rewrite Hzt in Ez.
  injection Ex as <-. injection Ey as <-. injection Ez as <-.
  destruct (integrate_asl_row _ _ _ _ _ _ _ _ Hi) as (at_ & Hat).
  destruct (integrate_rows _ _ _ _ _ _ _ _ _ _ _ _ Hi Hxt Hyt Hzt Hat)
    as (zsf & iu & iv & iw & vr & zs1 & zs2 & _ & Hu & Hv & _ & _ & _ & _
        & Rx & Ry & _).
  destruct (integrate_frame _ _ _ _ _ _ _ _ Hi) as (Fx & Fy & Fz & _).
  destruct (loop_keeps_rows _ _ _ _ _ _ _ Hloop) as (K1 & K2 & K3 & K4).
  destruct (final_sample_inv _ _ _ _ Hfin)
    as (fld & _ & _ & _ & _ & _ & _ & _ & _ & _ & Ox & Oy & Oz & _ & _ & _ & Fv).
  exists win, md, val, iu, iv. rewrite Ox, Oy, Oz.
  splits; try assumption.
  - rewrite Fv by lia. rewrite K4 by lia. exact Svar.
  - rewrite K1 by lia. rewrite Sx, Fx by lia. exact Hxt.
  - rewrite K2 by lia. rewrite Sy, Fy by lia. exact Hyt.
  - apply K3; [lia|]. rewrite Sz. unfold clip. rewrite nth_error_map, Fz by lia.
    now rewrite Hzt.
  - rewrite K1 by lia. rewrite Sx. exact Rx.
  - rewrite K2 by lia. rewrite Sy. exact Ry.
Qed.

Lemma scalar_alignment_witness :
  step Demo.ds Demo.cfg Demo.vres 0 Demo.seeded = Some Demo.pass0
  /\ loop Demo.ds Demo.cfg Demo.vres (seq 1 2) Demo.pass0 = Some Demo.looped
  /\ final_sample Demo.ds Demo.cfg Demo.looped = Some Demo.final
  /\ exists win md val iu iv,
    field_window Demo.ds Demo.x0 Demo.y0 Demo.z0 = Some win
    /\ get_model_data Demo.ds Demo.cfg 0 win = Some md
    /\ interpn (fast_grid win) (Arr3 (var1 md))
         (coord_fast win Demo.x0 Demo.y0 Demo.z0) nan = Some val
    /\ nth_error (variable1 Demo.final) 0 = Some val
    /\ nth_error (xpos Demo.final) 0 = Some Demo.x0
    /\ nth_error (ypos Demo.final) 0 = Some Demo.y0
    /\ nth_error (zpos Demo.final) 0 = Some (map clip_min0 Demo.z0)
    /\ interpn (fast_grid win) (Arr3 (u md))
         (coord_u Demo.cfg win Demo.x0 Demo.y0 Demo.z0) nan = Some iu
    /\ interpn (fast_grid win) (Arr3 (v md))
         (coord_v Demo.cfg win Demo.x0 Demo.y0 Demo.z0) nan = Some iv
    /\ nth_error (xpos Demo.final) 1
       = Some (map2 (fun p d => (p + d * time_step_length Demo.cfg
                                   / hor_resolution Demo.cfg)%float) Demo.x0 iu)
    /\ nth_error (ypos Demo.final) 1
       = Some (map2 (fun p d => (p + d * time_step_length Demo.cfg
                                   / hor_resolution Demo.cfg)%float) Demo.y0 iv).
Proof.
  split; [vm_compute; reflexivity|].
  split; [vm_compute; reflexivity|].
  split; [vm_compute; reflexivity|].
  apply (scalar_alignment Demo.ds Demo.cfg Demo.vres 0 2 Demo.seeded Demo.pass0
           Demo.looped Demo.final Demo.x0 Demo.y0 Demo.z0);
    vm_compute; reflexivity.
Defined.

(** ** C8: the time axis *)

(** C8 holds for the loop and fails for the last cell.  With the
    notebook's own settings ([time_steps = 50], [incre = 5],
    [start_time_step = 300]) pass [t] of the loop reads the simulation
    time index [300 + 5 t], so the final slice [t = 49] corresponds to
    index 545; the last cell reads index [300 - 49 = 251].  Whatever the
    settings, the index the last cell reads is not the index of the final
    slice as soon as the loop runs once and [incre] is not [-1].  In the
    synthetic run over the output with terrain whose tracked field is
    [300 + k] at time index [k] (four output times), the loop records
    300, 301 and 302 for the slices 0, 1 and 2, and the scalar recorded
    for the final slice [t = 3] is 301 (the last cell reads index
    [0 - 3], which on four output times is the field of index 1), not
    303. *)
Theorem final_slice_time_index hr dt :
  (forall t, time_index (Notebook.cfg hr dt) t = 300 + 5 * Z.of_nat t)
  /\ time_index (Notebook.cfg hr dt) 49 = 545
  /\ final_time_index (Notebook.cfg hr dt) = 251
  /\ (forall cfg, (2 <= time_steps cfg)%nat -> incre cfg <> -1 ->
        final_time_index cfg <> time_index cfg (time_steps cfg - 1))
  /\ time_index Demo.cfg 3 = 3
  /\ final_time_index Demo.cfg = -3
  /\ py_index (tracked Terrain.marked) (-3) = Some (Demo.const3 301)
  /\ option_map variable1
       (trajectories Terrain.marked Demo.cfg [0%float] [5%float] [2%float])
     = Some [[300]; [301]; [302]; [301]]%float.
Proof.
  split.
  { intros t. unfold time_index, Notebook.cfg. cbn [start_time_step incre]. lia. }
  split; [vm_compute; reflexivity|]. split; [vm_compute; reflexivity|].
  split.
  { intros cfg T I. unfold final_time_index, time_index.
    rewrite Nat2Z.inj_sub by lia. change (Z.of_nat 1) with 1. nia. }
  repeat split; vm_compute; reflexivity.
Qed.

(** ** C9: smoothing twice *)

(** C9, as stated, fails in its parenthesis: the field [[0, 1]] is not
    constant, yet with the reflecting boundary one pass of the filter
    averages whole periods of it into the constant 0.5, which a second
    pass leaves unchanged. *)
Lemma smoothing_counterexample :
  alternating = [[[0; 1]%float]]
  /\ (0 =? 1)%float = false
  /\ uniform_filter alternating smooth = [[[0.5; 0.5]%float]]
  /\ uniform_filter (uniform_filter alternating smooth) smooth
     = uniform_filter alternating smooth.
Proof. repeat split; vm_compute; reflexivity. Qed.

(** C9 (amended): there is a 3-D field for which the filter applied twice
    differs from the filter applied once; the field [[0, 400, 0]] is
    one. *)
Theorem smoothing_not_idempotent :
  exists f : field3,
    uniform_filter (uniform_filter f smooth) smooth <> uniform_filter f smooth.
Proof.
  exists bump. intros H.
  apply (f_equal (same_field (uniform_filter bump smooth))) in H.
  vm_compute in H. discriminate H.
Qed.

(** ** C10: above the last level of the vertical-spacing field *)

(** C10: the vertical-spacing field has [nz - 1] levels and is
    interpolated over the levels [0 .. nz - 2] with a not-a-number fill.
    On a pass that completes, for a parcel whose grid height at time [t]
    is above [nz - 2] (and is left unchanged by the re-basing to the
    window and back, as it is for every position below 2^53), the
    interpolated vertical spacing is not-a-number and so is the grid
    height at [t + 1]. *)
Theorem top_of_domain ds cfg vres t s s' xt yt zt at_ win i xi yi zi ai :
  step ds cfg vres t s = Some s' ->
  nth_error (xpos s) t = Some xt -> nth_error (ypos s) t = Some yt ->
  nth_error (zpos s) t = Some zt -> nth_error (zpos_heightASL s) t = Some at_ ->
  nth_error xt i = Some xi -> nth_error yt i = Some yi ->
  nth_error zt i = Some zi -> nth_error at_ i = Some ai ->
  field_window ds xt yt zt = Some win ->
  ((zi - Z2float (zmin win)) + Z2float (zmin win))%float = zi ->
  (Z2float (nz ds - 2) <? zi)%float = true ->
  len vres = nz ds - 1
  /\ py_slice (z ds) 0 (-1) = arange (nz ds - 1)
  /\ entry (zpos_vert_res s') t i nan
  /\ entry (zpos s') (S t) i nan.
Proof.
  intros Hstep Hxt Hyt Hzt Hat Hxi Hyi Hzi Hai Hwin Hre Htop.
  destruct (step_parcel _ _ _ _ _ _ Hstep _ _ _ _ _ _ _ _ _
              Hxt Hyt Hzt Hat Hxi Hyi Hzi Hai)
    as (win' & md & ui & vi & wi & vri & zsf & z1 & z2 & si & Hwin' & Hmd & _ & _ & _ & _
        & Hvr & _ & _ & _ & _ & _ & _ & Nvr & Nz & _).
  rewrite Hwin in Hwin'. injection Hwin' as <-.
  unfold z in *. rewrite arange_slice in *.
  pose proof (interp_point_grid _ _ _ _ _ Hvr) as G.
  inversion G as [|g gs Hg _]; subst.
  assert (Hnz : 1 <= nz ds - 1).
  { destruct (Z.leb_spec 1 (nz ds - 1)) as [|L]; [assumption|].
    exfalso. apply Hg. unfold arange.
    replace (Z.to_nat (nz ds - 1)) with 0%nat by lia. reflexivity. }
  assert (O : outside [arange (nz ds - 1); y ds; x ds] (query_full win xi yi zi) = true).
  { unfold outside, query_full. cbn [combine existsb]. rewrite Hre.
    destruct (arange_ends _ Hnz) as (r & Er & El).
    unfold axis_outside. rewrite Er. rewrite <- Er, El.
    replace (nz ds - 1 - 1) with (nz ds - 2) by lia. rewrite Htop.
    now rewrite orb_true_r. }
  pose proof (interp_point_outside _ _ _ _ _ Hvr O) as ->.
  split.
  { destruct (step_inv _ _ _ _ _ _ Hstep)
      as (xt' & yt' & zt' & win' & md' & s1 & val & Ex & Ey & Ez & _ & _ & Hi & _).
    rewrite Hxt in Ex. rewrite Hyt in Ey. rewrite Hzt in Ez.
    injection Ex as <-. injection Ey as <-. injection Ez as <-.
    destruct (integrate_rows _ _ _ _ _ _ _ _ _ _ _ _ Hi Hxt Hyt Hzt Hat)
      as (zsf' & iu & iv & iw & vr & zs1 & zs2 & _ & _ & _ & _ & Hvres & _).
    apply interpn_shape in Hvres. unfold shape_matches, z in Hvres.
    rewrite arange_slice in Hvres.
    apply andb_prop in Hvres. destruct Hvres as (Hl & _).
    apply Z.eqb_eq in Hl. rewrite Hl, len_arange. lia. }
  split; [reflexivity|]. split; [exact Nvr|].
  revert Nz. now nan_simpl.
Qed.

Lemma top_of_domain_witness :
  step Demo.ds Demo.cfg Demo.vres 0 Demo.seeded = Some Demo.pass0
  /\ ((3.5 - Z2float (zmin Demo.win0)) + Z2float (zmin Demo.win0))%float = 3.5%float
  /\ (Z2float (nz Demo.ds - 2) <? 3.5)%float = true
  /\ entry (xpos Demo.pass0) 1 2 1%float
  /\ entry (ypos Demo.pass0) 1 2 5%float
  /\ entry (zpos_heightASL Demo.pass0) 1 2 1750%float
  /\ len Demo.vres = nz Demo.ds - 1
  /\ py_slice (z Demo.ds) 0 (-1) = arange (nz Demo.ds - 1)
  /\ entry (zpos_vert_res Demo.pass0) 0 2 nan
  /\ entry (zpos Demo.pass0) 1 2 nan.
Proof.
  split; [vm_compute; reflexivity|].
  split; [vm_compute; reflexivity|].
  split; [vm_compute; reflexivity|].
  split; [eexists; split; reflexivity|].
  split; [eexists; split; reflexivity|].
  split; [eexists; split; reflexivity|].
  apply (top_of_domain Demo.ds Demo.cfg Demo.vres 0 Demo.seeded Demo.pass0
           Demo.x0 Demo.y0 Demo.z0 [1000; 1000; 1750]%float Demo.win0 2 0 5 3.5 1750);
    vm_compute; reflexivity.
Defined.

(** * Further properties of the code *)

(** ** Lengths *)

Lemma mapM_length {A B} (f : A -> option B) l r :
  mapM f l = Some r -> length r = length l.
Proof.
  revert r. induction l as [|a l IH]; intros r H; simpl in H.
  - now injection H as <-.
  - bind_step H b Eb. bind_step H bs Ebs. injection H as <-.
    simpl. f_equal. now apply IH.
Qed.

Lemma mapM_fails {A B} (f : A -> option B) l a :
  In a l -> f a = None -> mapM f l = None.
Proof.
  induction l as [|b l IH]; intros Hin Ha; simpl in *; [contradiction|].
  destruct Hin as [->|Hin].
  - now rewrite Ha.
  - destruct (f b); [cbn [bind]|reflexivity]. now rewrite IH.
Qed.

Lemma interpn_length points values xi fill r :
  interpn points values xi fill = Some r -> length r = length xi.
Proof.
  unfold interpn. intros H.
  destruct (negb (forallb ascending points)); [discriminate|].
  destruct (negb (shape_matches points values)); [discriminate|].
  now apply mapM_length in H.
Qed.

Lemma length_map2 {A B C} (f : A -> B -> C) a b :
  length (map2 f a b) = Nat.min (length a) (length b).
Proof.
  revert b. induction a as [|p a IH]; intros [|q b]; simpl; auto.
Qed.

Lemma length_zip3 {A B C} (a : list A) (b : list B) (c : list C) :
  length (zip3 a b c) = Nat.min (length a) (Nat.min (length b) (length c)).
Proof.
  revert b c. induction a as [|p a IH]; intros [|q b] [|r c]; simpl; auto.
Qed.

Lemma length_coords3 zl yl xl :
  length (coords3 zl yl xl)
  = Nat.min (length zl) (Nat.min (length yl) (length xl)).
Proof. unfold coords3. now rewrite length_map, length_zip3. Qed.

Lemma length_coords2 yl xl :
  length (coords2 yl xl) = Nat.min (length yl) (length xl).
Proof. apply length_map2. Qed.

Lemma set_row_length {A} (l l' : list A) i v :
  set_row l i v = Some l' -> length l' = length l.
Proof.
  revert l' i. induction l as [|a l IH]; intros l' [|i] H; simpl in H;
    try discriminate.
  - now injection H as <-.
  - bind_step H r E. injection H as <-. simpl. f_equal. eauto.
Qed.

Lemma set_row_Forall {A} (P : A -> Prop) (l l' : list A) i v :
  set_row l i v = Some l' -> Forall P l -> P v -> Forall P l'.
Proof.
  revert l' i. induction l as [|a l IH]; intros l' [|i] H Hl Hv; simpl in H;
    try discriminate; inversion Hl; subst.
  - injection H as <-. now constructor.
  - bind_step H r E. injection H as <-. constructor; eauto.
Qed.

Lemma set_row_defined {A} (l : list A) i v :
  (i < length l)%nat -> exists l', set_row l i v = Some l'.
Proof.
  revert i. induction l as [|a l IH]; intros [|i] H; simpl in *; try lia.
  - eauto.
  - destruct (IH i) as (l' & ->); [lia|]. cbn [bind]. eauto.
Qed.

Lemma set_row_bound {A} (l l' : list A) i v :
  set_row l i v = Some l' -> (i < length l)%nat.
Proof.
  revert l' i. induction l as [|a l IH]; intros l' [|i] H; simpl in *;
    try discriminate; try lia.
  bind_step H r E. apply IH in E. lia.
Qed.

(** ** Shapes *)

Lemma shape2_row {A} b c (p : list (list A)) j r :
  has_shape2 b c p -> nth_error p j = Some r -> length r = c.
Proof.
  intros (_ & F) H. rewrite Forall_forall in F. apply F.
  eapply nth_error_In; eauto.
Qed.

Lemma shape2_set_row {A} b c (p p' : list (list A)) j r :
  has_shape2 b c p -> set_row p j r = Some p' -> length r = c ->
  has_shape2 b c p'.
Proof.
  intros (L & F) H Hr. split.
  - now rewrite (set_row_length _ _ _ _ H).
  - eapply set_row_Forall; eauto.
Qed.

Lemma shape2_clip b c a : has_shape2 b c a -> has_shape2 b c (clip a).
Proof.
  intros (L & F). unfold clip. split.
  - now rewrite length_map.
  - apply Forall_map. eapply Forall_impl; [|apply F].
    intros r Hr. now rewrite length_map.
Qed.

Lemma shape2_zeros steps n : has_shape2 steps n (zeros steps n).
Proof.
  unfold zeros. split.
  - apply repeat_length.
  - apply Forall_forall. intros r Hr. apply repeat_spec in Hr. subst.
    apply repeat_length.
Qed.

(** [integrate] writes rows of the length of the rows it reads. *)
Lemma integrate_shape ds cfg vres t win md s s' steps n :
  integrate ds cfg vres t win md s = Some s' ->
  well_shaped steps n s -> well_shaped steps n s'.
Proof.
  intros Hint (Sx & Sy & Sz & Sa & Sv & Sq).
  unfold integrate in Hint.
  bind_step Hint xt Ext. bind_step Hint yt Eyt. bind_step Hint zt Ezt.
  bind_step Hint at_ Eat. bind_step Hint zsf Ezs.
  bind_step Hint iu Eiu. bind_step Hint xp Exp.
  bind_step Hint iv Eiv. bind_step Hint yp Eyp.
  bind_step Hint iw Eiw. bind_step Hint asl Easl.
  bind_step Hint vr Evr. bind_step Hint vrs Evrs.
  bind_step Hint zs1 Ezs1. bind_step Hint zs2 Ezs2.
  bind_step Hint zp Ezp.
  injection Hint as <-.
  pose proof (shape2_row _ _ _ _ _ Sx Ext) as Lx.
  pose proof (shape2_row _ _ _ _ _ Sy Eyt) as Ly.
  pose proof (shape2_row _ _ _ _ _ Sz Ezt) as Lz.
  pose proof (shape2_row _ _ _ _ _ Sa Eat) as La.
  apply interpn_length in Eiu, Eiv, Eiw, Evr.
  unfold surface_at in Ezs1, Ezs2. apply interpn_length in Ezs1, Ezs2.
  unfold coord_u, coord_v, coord_w, coord in *.
  rewrite length_coords3 in Eiu, Eiv, Eiw, Evr.
  rewrite length_coords2 in Ezs1, Ezs2.
  unfold rebase, rebase_stag, unbase in *.
  destruct (staggered cfg);
    repeat rewrite ?length_map, ?length_map2 in *;
    (repeat split; cbn [xpos ypos zpos zpos_heightASL zpos_vert_res variable1];
     try (apply Sx || apply Sy || apply Sz || apply Sa || apply Sv || apply Sq);
     try (erewrite set_row_length by eassumption;
          (apply Sx || apply Sy || apply Sz || apply Sa || apply Sv));
     (eapply set_row_Forall; [eassumption| |];
      [apply Sx || apply Sy || apply Sz || apply Sa || apply Sv|];
      repeat rewrite ?length_map, ?length_map2; lia)).
Qed.

Lemma step_shape ds cfg vres t s s' steps n :
  step ds cfg vres t s = Some s' ->
  well_shaped steps n s -> well_shaped steps n s'.
Proof.
  intros Hstep Hs. unfold step in Hstep.
  bind_step Hstep xt Ext. bind_step Hstep yt Eyt. bind_step Hstep zt Ezt.
  bind_step Hstep win Ewin. bind_step Hstep md Emd. bind_step Hstep s1 Es1.
  pose proof (integrate_shape _ _ _ _ _ _ _ _ _ _ Es1 Hs)
    as (Sx & Sy & Sz & Sa & Sv & Sq).
  unfold sample_variable in Hstep.
  bind_step Hstep val Eval. bind_step Hstep vs Evs.
  injection Hstep as <-. unfold well_shaped.
  cbn [ground_clip xpos ypos zpos zpos_heightASL zpos_vert_res variable1] in *.
  splits; auto using shape2_clip.
  eapply shape2_set_row; eauto.
  apply interpn_length in Eval. rewrite Eval.
  unfold coord_fast, rebase. rewrite length_coords3, !length_map.
  destruct Hs as (Hx & Hy & Hz & _).
  rewrite (shape2_row _ _ _ _ _ Hx Ext), (shape2_row _ _ _ _ _ Hy Eyt),
    (shape2_row _ _ _ _ _ Hz Ezt). lia.
Qed.

Lemma loop_shape ds cfg vres ts s sk steps n :
  loop ds cfg vres ts s = Some sk ->
  well_shaped steps n s -> well_shaped steps n sk.
Proof.
  revert s. induction ts as [|t ts IH]; intros s H Hs; simpl in H.
  - now injection H as <-.
  - bind_step H s1 E. eauto using step_shape.
Qed.

Lemma initialize_inv ds cfg x0 y0 z0 s :
  initialize ds cfg x0 y0 z0 = Some s ->
  exists lh asl0,
    length y0 = length x0 /\ length z0 = length x0
    /\ level_height ds = Some lh
    /\ interpn [z ds; y ds; x ds] (Arr3 lh) (coords3 z0 y0 x0) 0%float = Some asl0
    /\ set_row (zeros (time_steps cfg) (length x0)) 0 x0 = Some (xpos s)
    /\ set_row (zeros (time_steps cfg) (length x0)) 0 y0 = Some (ypos s)
    /\ set_row (zeros (time_steps cfg) (length x0)) 0 z0 = Some (zpos s)
    /\ set_row (zeros (time_steps cfg) (length x0)) 0 asl0 = Some (zpos_heightASL s)
    /\ zpos_vert_res s = zeros (time_steps cfg) (length x0)
    /\ variable1 s = zeros (time_steps cfg) (length x0).
Proof.
  unfold initialize. intros H.
  destruct (negb _) eqn:G in H; [discriminate|].
  apply negb_false_iff, andb_true_iff in G. destruct G as (G1 & G2).
  apply Nat.eqb_eq in G1, G2.
  bind_step H xp Exp. bind_step H yp Eyp. bind_step H zp Ezp.
  bind_step H zs1 Ezs.
  bind_step H lh Ezh. bind_step H asl0 Easl0. bind_step H asl Easl.
  injection H as <-. simpl. exists lh, asl0. splits; auto.
Qed.

Lemma initial_surface_terrain ds :
  (exists zs1, initial_surface ds = Some zs1)
  <-> exists zh0 rest, zh ds = Some (zh0 :: rest).
Proof.
  unfold initial_surface. split.
  - intros (zs1 & H). destruct (zh ds) as [[|zh0 rest]|]; try discriminate. eauto.
  - intros (zh0 & rest & ->). eauto.
Qed.

(** The seeding cells complete only on an output with terrain. *)
Lemma initialize_terrain ds cfg x0 y0 z0 s :
  initialize ds cfg x0 y0 z0 = Some s ->
  exists zh0 rest, zh ds = Some (zh0 :: rest).
Proof.
  unfold initialize. intros H.
  destruct (negb _) eqn:G in H; [discriminate|].
  bind_step H xp Exp. bind_step H yp Eyp. bind_step H zp Ezp.
  bind_step H zs1 Ezs. apply initial_surface_terrain. eauto.
Qed.

Lemma initialize_shape ds cfg x0 y0 z0 s :
  initialize ds cfg x0 y0 z0 = Some s ->
  well_shaped (time_steps cfg) (length x0) s.
Proof.
  intros H.
  destruct (initialize_inv _ _ _ _ _ _ H)
    as (lh & asl0 & Ly & Lz & _ & Ei & Ex & Ey & Ez & Ea & Ev & Eq).
  apply interpn_length in Ei. rewrite length_coords3 in Ei.
  pose proof (shape2_zeros (time_steps cfg) (length x0)) as Z0.
  unfold well_shaped. rewrite Ev, Eq.
  splits; auto; eapply shape2_set_row; eauto. lia.
Qed.

Lemma final_sample_shape ds cfg s out steps n :
  final_sample ds cfg s = Some out ->
  well_shaped steps n s -> well_shaped steps n out.
Proof.
  unfold final_sample. intros H (Sx & Sy & Sz & Sa & Sv & Sq).
  bind_step H fld Ev. bind_step H xt Ex. bind_step H yt Ey. bind_step H zt Ez.
  bind_step H val Eval. bind_step H vs Evs. injection H as <-.
  unfold well_shaped. simpl. splits; auto.
  eapply shape2_set_row; eauto.
  apply interpn_length in Eval. rewrite Eval.
  unfold shift_half. rewrite length_coords3, !length_map.
  rewrite (shape2_row _ _ _ _ _ Sx Ex), (shape2_row _ _ _ _ _ Sy Ey),
    (shape2_row _ _ _ _ _ Sz Ez). lia.
Qed.

Lemma trajectories_inv ds cfg x0 y0 z0 out :
  trajectories ds cfg x0 y0 z0 = Some out ->
  exists vres s0 s1,
    vert_resolution ds = Some vres
    /\ initialize ds cfg x0 y0 z0 = Some s0
    /\ loop ds cfg vres (seq 0 (time_steps cfg - 1)) s0 = Some s1
    /\ final_sample ds cfg s1 = Some out.
Proof.
  unfold trajectories. intros H.
  bind_step H vres Ev. bind_step H s0 E0. bind_step H s1 E1.
  exists vres, s0, s1. auto.
Qed.

(** ** The recorded history *)

(** The rows up to the one a pass writes exist in both height arrays. *)
Lemma step_rows_exist ds cfg vres t s s' j :
  step ds cfg vres t s = Some s' -> (j <= S t)%nat ->
  (exists r, nth_error (zpos s') j = Some r)
  /\ (exists r, nth_error (zpos_heightASL s') j = Some r).
Proof.
  intros E Hj.
  destruct (step_inv _ _ _ _ _ _ E)
    as (xt & yt & zt & win & md & s1 & val & Hx & Hy & Hz & _ & _ & Hi
        & _ & _ & _ & Ez & Ea & _).
  destruct (integrate_asl_row _ _ _ _ _ _ _ _ Hi) as (at_ & Hat).
  destruct (integrate_rows _ _ _ _ _ _ _ _ _ _ _ _ Hi Hx Hy Hz Hat)
    as (zsf & iu & iv & iw & vr & zs1 & zs2 & _ & _ & _ & _ & _ & _ & _
        & _ & _ & Ra & _ & Rz).
  assert (Lz : (j < length (zpos s'))%nat).
  { rewrite Ez. unfold clip. rewrite length_map.
    assert (S t < length (zpos s1))%nat
      by (apply nth_error_Some; rewrite Rz; discriminate). lia. }
  assert (La : (j < length (zpos_heightASL s'))%nat).
  { rewrite Ea. unfold clip. rewrite length_map.
    assert (S t < length (zpos_heightASL s1))%nat
      by (apply nth_error_Some; rewrite Ra; discriminate). lia. }
  apply nth_error_Some in Lz, La.
  destruct (nth_error (zpos s') j); [|congruence].
  destruct (nth_error (zpos_heightASL s') j); [|congruence]. eauto.
Qed.

(** X1: the positions, heights and samples a pass has recorded are final.
    After pass [t], rows [0..t+1] of the four position and height arrays
    and rows [0..t] of the vertical-spacing and tracked-variable arrays
    are the same in the arrays the run returns, whatever the later passes
    and the last sampling cell do. *)
Theorem recorded_history_final ds cfg vres t k s0 s sk out :
  step ds cfg vres t s0 = Some s ->
  loop ds cfg vres (seq (S t) k) s = Some sk ->
  final_sample ds cfg sk = Some out ->
  (t + k + 2 = time_steps cfg)%nat ->
  (forall j, (j <= S t)%nat ->
     nth_error (xpos out) j = nth_error (xpos s) j
     /\ nth_error (ypos out) j = nth_error (ypos s) j
     /\ nth_error (zpos out) j = nth_error (zpos s) j
     /\ nth_error (zpos_heightASL out) j = nth_error (zpos_heightASL s) j)
  /\ (forall j, (j <= t)%nat ->
        nth_error (zpos_vert_res out) j = nth_error (zpos_vert_res s) j
        /\ nth_error (variable1 out) j = nth_error (variable1 s) j).
Proof.
  intros E L F T.
  destruct (final_sample_inv _ _ _ _ F)
    as (fld & xt & yt & zt & val & _ & _ & _ & _ & _ & Fx & Fy & Fz & Fa & Fv & _ & Fq).
  destruct (loop_keeps_rows _ _ _ _ _ _ _ L) as (K1 & K2 & K3 & K4).
  destruct (loop_keeps_heights _ _ _ _ _ _ _ L) as (K5 & K6).
  split.
  - intros j Hj. rewrite Fx, Fy, Fz, Fa. splits; auto.
    + destruct (step_rows_exist _ _ _ _ _ _ j E Hj) as ((r & R) & _).
      destruct (step_clipped _ _ _ _ _ _ j r E) as (r0 & ->); auto.
      rewrite R. auto.
    + destruct (step_rows_exist _ _ _ _ _ _ j E Hj) as (_ & (r & R)).
      destruct (step_clipped _ _ _ _ _ _ j r E) as (r0 & ->); auto.
      rewrite R. auto.
  - intros j Hj. rewrite Fv, Fq by lia. split; [apply K6|apply K4]; lia.
Qed.

Lemma recorded_history_final_witness :
  (forall j, (j <= 1)%nat ->
     nth_error (xpos Demo.final) j = nth_error (xpos Demo.pass0) j
     /\ nth_error (ypos Demo.final) j = nth_error (ypos Demo.pass0) j
     /\ nth_error (zpos Demo.final) j = nth_error (zpos Demo.pass0) j
     /\ nth_error (zpos_heightASL Demo.final) j
        = nth_error (zpos_heightASL Demo.pass0) j)
  /\ (forall j, (j <= 0)%nat ->
        nth_error (zpos_vert_res Demo.final) j = nth_error (zpos_vert_res Demo.pass0) j
        /\ nth_error (variable1 Demo.final) j = nth_error (variable1 Demo.pass0) j).
Proof.
  apply (recorded_history_final Demo.ds Demo.cfg Demo.vres 0 2 Demo.seeded
           Demo.pass0 Demo.looped Demo.final);
    vm_compute; reflexivity.
Defined.

(** ** The arrays a run returns *)

(** X2: a run that completes returns six arrays of [time_steps] rows, each
    row holding one value per seed. *)
Theorem output_shape ds cfg x0 y0 z0 out :
  trajectories ds cfg x0 y0 z0 = Some out ->
  well_shaped (time_steps cfg) (length x0) out.
Proof.
  intros H.
  destruct (trajectories_inv _ _ _ _ _ _ H) as (vres & s0 & s1 & _ & E0 & E1 & E2).
  eapply final_sample_shape; [eassumption|].
  eapply loop_shape; [eassumption|].
  eapply initialize_shape; eassumption.
Qed.

Lemma output_shape_witness :
  trajectories Terrain.ds Demo.cfg Demo.x0 Demo.y0 Demo.z0 = Some Demo.final
  /\ well_shaped 4 3 Demo.final.
Proof.
  split; [vm_compute; reflexivity|].
  apply (output_shape Terrain.ds Demo.cfg Demo.x0 Demo.y0 Demo.z0 Demo.final).
  vm_compute. reflexivity.
Defined.

Lemma initialize_rows ds cfg x0 y0 z0 s :
  initialize ds cfg x0 y0 z0 = Some s ->
  nth_error (xpos s) 0 = Some x0 /\ nth_error (ypos s) 0 = Some y0
  /\ nth_error (zpos s) 0 = Some z0.
Proof.
  intros H.
  destruct (initialize_inv _ _ _ _ _ _ H)
    as (lh & asl0 & _ & _ & _ & _ & Ex & Ey & Ez & _).
  splits; eapply set_row_same; eauto.
Qed.

(** X3: slice 0 of the returned [xpos] and [ypos] holds the seeds as given.
    Slice 0 of [zpos] holds the seed heights as given only when the loop
    body never runs ([time_steps = 1]); as soon as one pass runs it holds
    the seed heights clipped at zero. *)
Theorem seeds_in_output ds cfg x0 y0 z0 out :
  trajectories ds cfg x0 y0 z0 = Some out ->
  nth_error (xpos out) 0 = Some x0
  /\ nth_error (ypos out) 0 = Some y0
  /\ nth_error (zpos out) 0
     = Some (if (time_steps cfg <=? 1)%nat then z0 else map clip_min0 z0).
Proof.
  intros H.
  destruct (trajectories_inv _ _ _ _ _ _ H) as (vres & s0 & s1 & _ & E0 & E1 & E2).
  destruct (initialize_rows _ _ _ _ _ _ E0) as (Ix & Iy & Iz).
  destruct (final_sample_inv _ _ _ _ E2)
    as (fld & xt & yt & zt & val & _ & _ & _ & _ & _ & -> & -> & -> & _).
  destruct (loop_keeps_rows _ _ _ _ _ _ _ E1) as (K1 & K2 & _).
  rewrite K1, K2 by lia. splits; auto.
  destruct (time_steps cfg - 1)%nat as [|k] eqn:T.
  - simpl in E1. injection E1 as <-.
    replace (time_steps cfg <=? 1)%nat with true
      by (symmetry; apply Nat.leb_le; lia). exact Iz.
  - replace (time_steps cfg <=? 1)%nat with false
      by (symmetry; apply Nat.leb_gt; lia).
    cbn [seq] in E1. apply loop_cons in E1. destruct E1 as (sa & Ea & Eb).
    destruct (loop_keeps_rows _ _ _ _ _ _ _ Eb) as (_ & _ & K3 & _).
    apply K3; [lia|].
    destruct (step_frame_heights _ _ _ _ _ _ Ea 0%nat) as (Fz & _); [lia|].
    rewrite Fz, Iz. reflexivity.
Qed.

Lemma seeds_in_output_witness :
  trajectories Terrain.ds Demo.cfg Demo.x0 Demo.y0 Demo.z0 = Some Demo.final
  /\ nth_error (xpos Demo.final) 0 = Some Demo.x0
  /\ nth_error (ypos Demo.final) 0 = Some Demo.y0
  /\ nth_error (zpos Demo.final) 0 = Some (map clip_min0 Demo.z0).
Proof.
  split; [vm_compute; reflexivity|].
  apply (seeds_in_output Terrain.ds Demo.cfg Demo.x0 Demo.y0 Demo.z0 Demo.final).
  vm_compute. reflexivity.
Defined.

(** ** When a pass fails *)

Lemma py_index_readable {A} (l : list A) i :
  (exists a, py_index l i = Some a) <-> readable l i.
Proof.
  unfold py_index, readable, len.
  destruct ((0 <=? i) && (i <? Z.of_nat (length l))) eqn:E1.
  - apply andb_true_iff in E1. destruct E1 as (H1 & H2).
    apply Z.leb_le in H1. apply Z.ltb_lt in H2.
    split; [lia|]. intros _.
    destruct (nth_error l (Z.to_nat i)) eqn:N; [eauto|].
    apply nth_error_None in N. lia.
  - destruct ((- Z.of_nat (length l) <=? i) && (i <? 0)) eqn:E2.
    + apply andb_true_iff in E2. destruct E2 as (H1 & H2).
      apply Z.leb_le in H1. apply Z.ltb_lt in H2.
      split; [lia|]. intros _.
      destruct (nth_error l (Z.to_nat (i + Z.of_nat (length l)))) eqn:N; [eauto|].
      apply nth_error_None in N. lia.
    + split; [intros (a & H); discriminate|].
      intros H. apply andb_false_iff in E1, E2.
      rewrite Z.leb_gt, Z.ltb_ge in E1, E2. lia.
Qed.

Lemma fetch_readable var time win :
  (exists f, fetch var time win = Some f) <-> readable var time.
Proof.
  rewrite <- py_index_readable. unfold fetch.
  destruct (py_index var time) as [f|]; cbn [bind].
  - split; eauto.
  - split; intros (f & H); discriminate.
Qed.

Lemma get_model_data_inv ds cfg t win md :
  get_model_data ds cfg t win = Some md ->
  incre cfg <> 0
  /\ exists u0 v0 w0 q0,
       fetch (uinterp ds) (time_index cfg t) win = Some u0
       /\ fetch (vinterp ds) (time_index cfg t) win = Some v0
       /\ fetch (winterp ds) (time_index cfg t) win = Some w0
       /\ fetch (tracked ds) (time_index cfg t) win = Some q0
       /\ md = {| u := uniform_filter u0 smooth; v := uniform_filter v0 smooth;
                  w := uniform_filter w0 smooth; var1 := uniform_filter q0 smooth |}.
Proof.
  unfold get_model_data. intros H.
  bind_step H u0 Eu. bind_step H v0 Ev. bind_step H w0 Ew. bind_step H q0 Eq0.
  destruct (incre cfg =? 0) eqn:E; [discriminate|].
  apply Z.eqb_neq in E. injection H as <-. split; [exact E|].
  exists u0, v0, w0, q0. splits; reflexivity.
Qed.

Lemma get_model_data_some ds cfg t win :
  incre cfg <> 0 ->
  readable (uinterp ds) (time_index cfg t) ->
  readable (vinterp ds) (time_index cfg t) ->
  readable (winterp ds) (time_index cfg t) ->
  readable (tracked ds) (time_index cfg t) ->
  exists md, get_model_data ds cfg t win = Some md.
Proof.
  intros Hi Hu Hv Hw Hq. unfold get_model_data.
  apply (fetch_readable _ _ win) in Hu, Hv, Hw, Hq.
  destruct Hu as (u0 & ->), Hv as (v0 & ->), Hw as (w0 & ->), Hq as (q0 & ->).
  cbn [bind]. apply Z.eqb_neq in Hi. rewrite Hi. eauto.
Qed.

(** X4: the model data of pass [t] can be read exactly when [incre] is not
    zero and the time index [start_time_step + t * incre] lies in
    [[-len, len)] for each of the four variables, a negative index reading
    from the end of the output. *)
Theorem get_model_data_defined ds cfg t win :
  (exists md, get_model_data ds cfg t win = Some md)
  <-> incre cfg <> 0
      /\ readable (uinterp ds) (time_index cfg t)
      /\ readable (vinterp ds) (time_index cfg t)
      /\ readable (winterp ds) (time_index cfg t)
      /\ readable (tracked ds) (time_index cfg t).
Proof.
  split.
  - intros (md & H). apply get_model_data_inv in H.
    destruct H as (Hi & u0 & v0 & w0 & q0 & Eu & Ev & Ew & Eq0 & _).
    splits; [exact Hi|..]; apply (fetch_readable _ _ win); eauto.
  - intros (Hi & Hu & Hv & Hw & Hq). now apply get_model_data_some.
Qed.

Lemma window_lo_nonempty pos lo : window_lo pos = Some lo -> pos <> [].
Proof. intros H ->. discriminate. Qed.

Lemma loop_passes ds cfg vres a n s sk t :
  loop ds cfg vres (seq a n) s = Some sk -> (a <= t < a + n)%nat ->
  exists st st', step ds cfg vres t st = Some st'.
Proof.
  revert a s. induction n as [|n IH]; intros a s H Ht; [lia|].
  cbn [seq] in H. apply loop_cons in H. destruct H as (s1 & E & L).
  destruct (Nat.eq_dec t a) as [->|Hne]; [eauto|].
  apply (IH _ _ L). lia.
Qed.

(** X5: what a run that completes says about its output and settings.
    The output has terrain ([ds.zh] with at least one time), the arrays
    have at least one time slice, the time index of the last sampling cell
    can be read, and, when the loop body runs at all, there is at least one
    seed, [incre] is not zero and every pass reads a time index the four
    variables have. *)
Theorem run_requirements ds cfg x0 y0 z0 out :
  trajectories ds cfg x0 y0 z0 = Some out ->
  (exists zh0 rest, zh ds = Some (zh0 :: rest))
  /\ (1 <= time_steps cfg)%nat
  /\ readable (tracked ds) (final_time_index cfg)
  /\ ((2 <= time_steps cfg)%nat ->
      x0 <> [] /\ incre cfg <> 0
      /\ forall t, (t < time_steps cfg - 1)%nat ->
           readable (uinterp ds) (time_index cfg t)
           /\ readable (vinterp ds) (time_index cfg t)
           /\ readable (winterp ds) (time_index cfg t)
           /\ readable (tracked ds) (time_index cfg t)).
Proof.
  intros H.
  destruct (trajectories_inv _ _ _ _ _ _ H) as (vres & s0 & s1 & _ & E0 & E1 & E2).
  destruct (final_sample_inv _ _ _ _ E2) as (fld & xt & yt & zt & val & Ef & _).
  destruct (initialize_inv _ _ _ _ _ _ E0)
    as (lh & asl0 & _ & _ & _ & _ & Ex & _).
  splits.
  - eapply initialize_terrain; eauto.
  - apply set_row_bound in Ex. unfold zeros in Ex. rewrite repeat_length in Ex. lia.
  - apply py_index_readable. eauto.
  - intros T.
    assert (P : forall t, (t < time_steps cfg - 1)%nat ->
              exists win md, get_model_data ds cfg t win = Some md).
    { intros t Ht.
      destruct (loop_passes _ _ _ _ _ _ _ t E1) as (st & st' & Est); [lia|].
      destruct (step_inv _ _ _ _ _ _ Est)
        as (xt' & yt' & zt' & win & md & _ & _ & _ & _ & _ & _ & Emd & _).
      eauto. }
    splits.
    + destruct (time_steps cfg - 1)%nat as [|k] eqn:K; [lia|].
      cbn [seq] in E1. apply loop_cons in E1. destruct E1 as (sa & Ea & _).
      destruct (step_inv _ _ _ _ _ _ Ea)
        as (xt' & yt' & zt' & win & md & _ & _ & Hx & _ & _ & Ew & _).
      destruct (initialize_rows _ _ _ _ _ _ E0) as (Ix & _).
      rewrite Ix in Hx. injection Hx as <-.
      unfold field_window in Ew. bind_step Ew xlo Exlo.
      eapply window_lo_nonempty; eauto.
    + destruct (P 0%nat) as (win & md & Emd); [lia|].
      now apply get_model_data_inv in Emd.
    + intros t Ht. destruct (P t Ht) as (win & md & Emd).
      apply get_model_data_inv in Emd.
      destruct Emd as (_ & u0 & v0 & w0 & q0 & Eu & Ev & Ew & Eq0 & _).
      splits; apply (fetch_readable _ _ win); eauto.
Qed.

Lemma run_requirements_witness :
  trajectories Terrain.ds Demo.cfg Demo.x0 Demo.y0 Demo.z0 = Some Demo.final
  /\ (exists zh0 rest, zh Terrain.ds = Some (zh0 :: rest))
  /\ (1 <= time_steps Demo.cfg)%nat
  /\ readable (tracked Terrain.ds) (final_time_index Demo.cfg)
  /\ ((2 <= time_steps Demo.cfg)%nat ->
      Demo.x0 <> [] /\ incre Demo.cfg <> 0
      /\ forall t, (t < time_steps Demo.cfg - 1)%nat ->
           readable (uinterp Terrain.ds) (time_index Demo.cfg t)
           /\ readable (vinterp Terrain.ds) (time_index Demo.cfg t)
           /\ readable (winterp Terrain.ds) (time_index Demo.cfg t)
           /\ readable (tracked Terrain.ds) (time_index Demo.cfg t)).
Proof.
  split; [vm_compute; reflexivity|].
  apply (run_requirements Terrain.ds Demo.cfg Demo.x0 Demo.y0 Demo.z0 Demo.final).
  vm_compute. reflexivity.
Defined.

Lemma arange_nonempty n : arange n <> [] -> 0 < n.
Proof.
  unfold arange. intros H. destruct (Z.to_nat n) eqn:E; [now contradiction H|]. lia.
Qed.

(** X6: a pass whose field window is empty on some axis fails.  Parcels
    that have all moved beyond the domain give [xmin >= xmax] and a grid
    of no points, on which no interpolation is defined: in the notebook,
    the [IndexError] of the traceback it keeps. *)
Theorem empty_window_fails ds cfg vres t s xt yt zt win :
  nth_error (xpos s) t = Some xt ->
  nth_error (ypos s) t = Some yt ->
  nth_error (zpos s) t = Some zt ->
  field_window ds xt yt zt = Some win ->
  xmax win <= xmin win \/ ymax win <= ymin win \/ zmax win <= zmin win ->
  step ds cfg vres t s = None.
Proof.
  intros Hx Hy Hz Hw Hempty.
  destruct (step ds cfg vres t s) as [s'|] eqn:E; [exfalso|reflexivity].
  destruct (step_inv _ _ _ _ _ _ E)
    as (xt' & yt' & zt' & win' & md & s1 & val & Hx' & Hy' & Hz' & Hw' & _ & Hi & _).
  rewrite Hx in Hx'. rewrite Hy in Hy'. rewrite Hz in Hz'.
  injection Hx' as <-. injection Hy' as <-. injection Hz' as <-.
  rewrite Hw in Hw'. injection Hw' as <-.
  destruct (integrate_asl_row _ _ _ _ _ _ _ _ Hi) as (at_ & Hat).
  destruct (integrate_rows _ _ _ _ _ _ _ _ _ _ _ _ Hi Hx Hy Hz Hat)
    as (zsf & iu & iv & iw & vr & zs1 & zs2 & _ & Eu & _).
  unfold field_window in Hw.
  bind_step Hw xlo Exlo. bind_step Hw xhi Exhi.
  bind_step Hw ylo Eylo. bind_step Hw yhi Eyhi.
  bind_step Hw zlo Ezlo. bind_step Hw zhi Ezhi.
  apply window_lo_nonempty in Exlo, Eylo, Ezlo.
  destruct xt as [|xi xt]; [congruence|].
  destruct yt as [|yi yt]; [congruence|].
  destruct zt as [|zi zt]; [congruence|].
  destruct (interpn_nth _ _ _ _ _ 0%nat (query_u cfg win xi yi zi) Eu)
    as (ui & Hui & _); [now apply nth_coord_u|].
  apply interp_point_grid in Hui. unfold fast_grid in Hui.
  inversion Hui as [|? ? Gz Hui1]; subst.
  inversion Hui1 as [|? ? Gy Hui2]; subst.
  inversion Hui2 as [|? ? Gx _]; subst.
  apply arange_nonempty in Gx, Gy, Gz. lia.
Qed.

Lemma empty_window_fails_witness :
  field_window Demo.ds [20]%float [5]%float [2]%float = Some Edge.win
  /\ step Demo.ds Demo.cfg Demo.vres 0 Edge.beyond = None.
Proof.
  split; [vm_compute; reflexivity|].
  apply (empty_window_fails Demo.ds Demo.cfg Demo.vres 0 Edge.beyond
           [20]%float [5]%float [2]%float Edge.win);
    try (vm_compute; reflexivity).
  left. vm_compute. discriminate.
Defined.

Lemma query_nan_any cfg win xi yi zi :
  In nan [xi; yi; zi] ->
  In nan (query_u cfg win xi yi zi) /\ In nan (query_v cfg win xi yi zi)
  /\ In nan (query_fast win xi yi zi) /\ In nan (query_full win xi yi zi).
Proof.
  unfold query_u, query_v, query_fast, query_full.
  intros [->|[->|[->|[]]]]; destruct (staggered cfg); nan_simpl; splits; simpl; auto 6.
Qed.

(** X7: one not-a-number coordinate is enough to lose a parcel.  If at
    time index [t] any of the three grid coordinates of a parcel is
    not-a-number, then after the pass all three are not-a-number at
    [t + 1], and so is the tracked variable at [t]. *)
Theorem nan_coordinate_spreads ds cfg vres t s s' xt yt zt at_ i xi yi zi ai :
  step ds cfg vres t s = Some s' ->
  nth_error (xpos s) t = Some xt ->
  nth_error (ypos s) t = Some yt ->
  nth_error (zpos s) t = Some zt ->
  nth_error (zpos_heightASL s) t = Some at_ ->
  nth_error xt i = Some xi ->
  nth_error yt i = Some yi ->
  nth_error zt i = Some zi ->
  nth_error at_ i = Some ai ->
  In nan [xi; yi; zi] ->
  lost s' (S t) i /\ entry (variable1 s') t i nan.
Proof.
  intros E Hx Hy Hz Ha Hxi Hyi Hzi Hai N.
  destruct (step_parcel _ _ _ _ _ _ E _ _ _ _ _ _ _ _ _ Hx Hy Hz Ha Hxi Hyi Hzi Hai)
    as (win & md & ui & vi & wi & vri & zsf & z1 & z2 & si & _ & _
        & Eu & Ev & _ & Es & Er & _ & _ & _ & Px & Py & _ & _ & Pz & Ps).
  destruct (query_nan_any cfg win xi yi zi N) as (Nu & Nv & Nf & Nl).
  apply interp_point_nan_coord in Eu, Ev, Es, Er; auto. subst.
  revert Px Py Pz Ps. nan_simpl. unfold lost. auto.
Qed.

Lemma nan_coordinate_spreads_witness :
  step Demo.ds Demo.cfg Demo.vres 1 Demo.pass0 = Some Demo.pass1
  /\ lost Demo.pass1 2 2 /\ entry (variable1 Demo.pass1) 1 2 nan.
Proof.
  split; [vm_compute; reflexivity|].
  apply (nan_coordinate_spreads Demo.ds Demo.cfg Demo.vres 1 Demo.pass0 Demo.pass1
           [1; 9.5; 1]%float [5; 5; 5]%float [2; nan; nan]%float
           [1000; 1000; 1750]%float 2 1 5 nan 1750);
    try (vm_compute; reflexivity).
  right. right. left. reflexivity.
Defined.

(** X8: the initial height above sea level of a seed that lies outside the
    grid on some axis is the fill value 0, not a missing value; that of a
    seed inside the grid bounds with a not-a-number coordinate is
    not-a-number. *)
Theorem initial_height_fill ds cfg x0 y0 z0 s i xi yi zi :
  initialize ds cfg x0 y0 z0 = Some s ->
  nth_error x0 i = Some xi ->
  nth_error y0 i = Some yi ->
  nth_error z0 i = Some zi ->
  (outside [z ds; y ds; x ds] [zi; yi; xi] = true ->
   entry (zpos_heightASL s) 0 i 0%float)
  /\ (outside [z ds; y ds; x ds] [zi; yi; xi] = false -> In nan [zi; yi; xi] ->
      entry (zpos_heightASL s) 0 i nan).
Proof.
  intros H Hxi Hyi Hzi.
  destruct (initialize_inv _ _ _ _ _ _ H)
    as (lh & asl0 & _ & _ & _ & Ei & _ & _ & _ & Ea & _).
  destruct (interpn_nth _ _ _ _ _ i [zi; yi; xi] Ei) as (a & Ha & Hn).
  { now rewrite nth_error_coords3, Hzi, Hyi, Hxi. }
  apply set_row_same in Ea.
  split.
  - intros O. rewrite (interp_point_outside _ _ _ _ _ Ha O) in Hn.
    exists asl0. auto.
  - intros O N.
    destruct (interp_point_inside _ _ _ _ _ Ha O) as (ind & Hi & He).
    assert (a = nan) as ->.
    { eapply evaluate_linear_nan; [exact He|].
      eapply located_nan; [|exact N|exact Hi]. reflexivity. }
    exists asl0. auto.
Qed.

Lemma initial_height_fill_witness :
  initialize Terrain.ds Demo.cfg Edge.x0 Edge.y0 Edge.z0 = Some Edge.seeded
  /\ outside [z Terrain.ds; y Terrain.ds; x Terrain.ds] [2; 5; 9.5]%float = true
  /\ entry (zpos_heightASL Edge.seeded) 0 0 0%float
  /\ outside [z Terrain.ds; y Terrain.ds; x Terrain.ds] [nan; 5; 0]%float = false
  /\ entry (zpos_heightASL Edge.seeded) 0 1 nan.
Proof.
  assert (E : initialize Terrain.ds Demo.cfg Edge.x0 Edge.y0 Edge.z0 = Some Edge.seeded)
    by (vm_compute; reflexivity).
  splits; try (vm_compute; reflexivity).
  - apply (initial_height_fill Terrain.ds Demo.cfg Edge.x0 Edge.y0 Edge.z0 Edge.seeded
             0 9.5 5 2 E); vm_compute; reflexivity.
  - apply (initial_height_fill Terrain.ds Demo.cfg Edge.x0 Edge.y0 Edge.z0 Edge.seeded
             1 0 5 nan E); try (vm_compute; reflexivity).
    left. reflexivity.
Defined.

(** ** Not-a-numbers and the field window *)

Section ReduceNumbers.

Variable rel : float -> float -> bool.
Hypothesis rel_nan_l : forall a, rel nan a = false.

Lemma pick_nan_r a : pick rel a nan = a.
Proof. unfold pick. simpl. now rewrite orb_true_r. Qed.

Lemma pick_nan_l b : pick rel nan b = b.
Proof.
  unfold pick. rewrite rel_nan_l. simpl.
  destruct (is_nan b) eqn:N; [|reflexivity]. symmetry. now apply is_nan_spec.
Qed.

Lemma reduce_numbers r a :
  a <> nan -> fold_left (pick rel) r a = fold_left (pick rel) (numbers r) a.
Proof.
  revert a. induction r as [|b r IH]; intros a Ha; [reflexivity|].
  cbn [fold_left numbers filter]. fold (numbers r).
  destruct (is_nan b) eqn:N; cbn [negb].
  - apply is_nan_spec in N. subst b. rewrite pick_nan_r. now apply IH.
  - cbn [fold_left]. apply IH. apply is_nan_false in N.
    destruct (pick_cases rel a b) as [(-> & _)|(-> & _)]; assumption.
Qed.

Lemma reduce_head l :
  numbers l <> [] ->
  match l with [] => None | a :: r => Some (fold_left (pick rel) r a) end
  = match numbers l with [] => None | a :: r => Some (fold_left (pick rel) r a) end.
Proof.
  induction l as [|a l IH]; intros H; [reflexivity|].
  cbn [numbers filter] in *. fold (numbers l) in *.
  destruct (is_nan a) eqn:N; cbn [negb] in *.
  - apply is_nan_spec in N. subst a. rewrite <- (IH H).
    destruct l as [|b l]; [now contradiction H|].
    cbn [fold_left]. now rewrite pick_nan_l.
  - f_equal. apply reduce_numbers. now apply is_nan_false.
Qed.

End ReduceNumbers.

Lemma numbers_nil pos : numbers pos = [] -> Forall (eq nan) pos.
Proof.
  induction pos as [|a pos IH]; intros H; [constructor|].
  cbn [numbers filter] in H. fold (numbers pos) in H.
  destruct (is_nan a) eqn:N; cbn [negb] in H; [|discriminate].
  constructor; [symmetry; now apply is_nan_spec|auto].
Qed.

Lemma window_hi_all_nan pos dim : Forall (eq nan) pos -> window_hi pos dim = None.
Proof.
  intros H. unfold window_hi. destruct H as [|a r <- H]; [reflexivity|].
  simpl. rewrite fmax_pick, (reduce_all_nan _ (fun a => leb_nan_r a)) by exact H.
  reflexivity.
Qed.

Lemma window_lo_numbers pos : window_lo pos = window_lo (numbers pos).
Proof.
  destruct (numbers pos) as [|a r] eqn:E.
  - now rewrite window_lo_all_nan by now apply numbers_nil.
  - rewrite <- E. unfold window_lo, nanmin. rewrite fmin_pick.
    rewrite (reduce_head _ leb_nan_l pos) by congruence. reflexivity.
Qed.

Lemma window_hi_numbers pos dim : window_hi pos dim = window_hi (numbers pos) dim.
Proof.
  destruct (numbers pos) as [|a r] eqn:E.
  - now rewrite window_hi_all_nan by now apply numbers_nil.
  - rewrite <- E. unfold window_hi, nanmax. rewrite fmax_pick.
    rewrite (reduce_head _ (fun a => leb_nan_r a) pos) by congruence. reflexivity.
Qed.

(** X9: lost parcels do not move the field window.  The window of a swarm
    is the window of its positions that are numbers; in particular it is
    undefined (the pass fails) exactly as for an empty swarm when no
    number is left on some axis. *)
Theorem window_ignores_nan ds xt yt zt :
  field_window ds xt yt zt
  = field_window ds (numbers xt) (numbers yt) (numbers zt).
Proof.
  unfold field_window.
  now rewrite (window_lo_numbers xt), (window_hi_numbers xt),
    (window_lo_numbers yt), (window_hi_numbers yt),
    (window_lo_numbers zt), (window_hi_numbers zt).
Qed.

(** ** The field window as a view of the output *)

Lemma py_slice_proper {A} (l : list A) lo hi :
  0 <= lo <= hi -> hi <= len l ->
  py_slice l lo hi = firstn (Z.to_nat (hi - lo)) (skipn (Z.to_nat lo) l).
Proof.
  intros H1 H2. unfold py_slice, py_bound.
  destruct (Z.ltb_spec lo 0); [lia|]. destruct (Z.ltb_spec hi 0); [lia|].
  now rewrite !Z.min_l by lia.
Qed.

Lemma py_slice_length {A} (l : list A) lo hi :
  0 <= lo <= hi -> hi <= len l ->
  length (py_slice l lo hi) = Z.to_nat (hi - lo).
Proof.
  intros H1 H2. rewrite py_slice_proper by assumption.
  rewrite length_firstn, length_skipn. unfold len in H2. lia.
Qed.

Lemma py_slice_index {A} (l : list A) lo hi i :
  0 <= lo <= hi -> hi <= len l -> 0 <= i < hi - lo ->
  py_index (py_slice l lo hi) i = py_index l (lo + i).
Proof.
  intros H1 H2 H3. unfold py_index at 1 2.
  unfold len at 1 2. rewrite py_slice_length by assumption.
  unfold len. unfold len in H2.
  replace ((0 <=? i) && (i <? Z.of_nat (Z.to_nat (hi - lo)))) with true
    by (symmetry; apply andb_true_iff; split; [apply Z.leb_le|apply Z.ltb_lt]; lia).
  replace ((0 <=? lo + i) && (lo + i <? Z.of_nat (length l))) with true
    by (symmetry; apply andb_true_iff; split; [apply Z.leb_le|apply Z.ltb_lt]; lia).
  rewrite py_slice_proper by (unfold len; lia).
  rewrite nth_error_firstn.
  replace (Z.to_nat i <? Z.to_nat (hi - lo))%nat with true
    by (symmetry; apply Nat.ltb_lt; lia).
  rewrite nth_error_skipn. f_equal. lia.
Qed.

Lemma py_index_map {A B} (f : A -> B) (l : list A) i :
  py_index (map f l) i = option_map f (py_index l i).
Proof.
  unfold py_index, len. rewrite length_map.
  destruct ((0 <=? i) && (i <? Z.of_nat (length l)));
    [apply nth_error_map|].
  destruct ((- Z.of_nat (length l) <=? i) && (i <? 0));
    [apply nth_error_map|reflexivity].
Qed.

Lemma py_index_In {A} (l : list A) i a : py_index l i = Some a -> In a l.
Proof.
  unfold py_index.
  destruct ((0 <=? i) && (i <? len l)); [apply nth_error_In|].
  destruct ((- len l <=? i) && (i <? 0)); [apply nth_error_In|discriminate].
Qed.

Lemma shape3_plane {A} a b c (f : list (list (list A))) p :
  has_shape3 a b c f -> In p f -> has_shape2 b c p.
Proof. intros (_ & F) H. rewrite Forall_forall in F. auto. Qed.

Lemma shape2_line {A} b c (p : list (list A)) r :
  has_shape2 b c p -> In r p -> length r = c.
Proof. intros (_ & F) H. rewrite Forall_forall in F. auto. Qed.

Lemma In_py_slice {A} (l : list A) lo hi a : In a (py_slice l lo hi) -> In a l.
Proof.
  unfold py_slice. intros H.
  set (a0 := Z.to_nat (py_bound (len l) lo)) in *.
  set (n := Z.to_nat (py_bound (len l) hi - py_bound (len l) lo)) in *.
  rewrite <- (firstn_skipn a0 l). apply in_or_app. right.
  rewrite <- (firstn_skipn n (skipn a0 l)). apply in_or_app. now left.
Qed.

Section Fetch.

Variables (ds : dataset) (win : window).
Hypothesis Hwin : proper ds win.

Variables (var : list field3) (time : Z) (f : field3).
Hypothesis Hread : py_index var time = Some f.
Hypothesis Hshape :
  has_shape3 (Z.to_nat (nz ds)) (Z.to_nat (ny ds)) (Z.to_nat (nx ds)) f.

Lemma fetch_shape g :
  fetch var time win = Some g ->
  has_shape3 (Z.to_nat (zmax win - zmin win)) (Z.to_nat (ymax win - ymin win))
             (Z.to_nat (xmax win - xmin win)) g.
Proof.
  destruct Hwin as (X1 & X2 & Y1 & Y2 & Z1 & Z2).
  unfold fetch. rewrite Hread. cbn [bind]. intros H. injection H as <-.
  pose proof Hshape as (Lf & Ff).
  split.
  - rewrite length_map. apply py_slice_length; unfold len; lia.
  - apply Forall_map, Forall_forall. intros p Hp. apply In_py_slice in Hp.
    pose proof (shape3_plane _ _ _ _ _ Hshape Hp) as Sp.
    pose proof Sp as (Lp & Fp).
    split.
    + rewrite length_map. apply py_slice_length; unfold len; lia.
    + apply Forall_map, Forall_forall. intros r Hr. apply In_py_slice in Hr.
      pose proof (shape2_line _ _ _ _ Sp Hr) as Lr.
      apply py_slice_length; unfold len; lia.
Qed.

Lemma fetch_getitem g k j i :
  fetch var time win = Some g ->
  0 <= k < zmax win - zmin win ->
  0 <= j < ymax win - ymin win ->
  0 <= i < xmax win - xmin win ->
  getitem (Arr3 g) [k; j; i]
  = getitem (Arr3 f) [zmin win + k; ymin win + j; xmin win + i].
Proof.
  destruct Hwin as (X1 & X2 & Y1 & Y2 & Z1 & Z2).
  unfold fetch. rewrite Hread. cbn [bind]. intros H Hk Hj Hi. injection H as <-.
  pose proof Hshape as (Lf & Ff).
  unfold getitem. rewrite py_index_map.
  rewrite py_slice_index by (unfold len; lia).
  destruct (py_index f (zmin win + k)) as [p|] eqn:Ep; [|reflexivity].
  cbn [option_map bind].
  pose proof (shape3_plane _ _ _ _ _ Hshape (py_index_In _ _ _ Ep)) as Sp.
  pose proof Sp as (Lp & Fp).
  rewrite py_index_map.
  rewrite py_slice_index by (unfold len; lia).
  destruct (py_index p (ymin win + j)) as [r|] eqn:Er; [|reflexivity].
  cbn [option_map bind].
  pose proof (shape2_line _ _ _ _ Sp (py_index_In _ _ _ Er)) as Lr.
  apply py_slice_index; unfold len; lia.
Qed.

End Fetch.

(** X10: the data fetched for a window is the output seen through it.  For
    a window that selects a non-empty box inside a field of shape
    [(nz, ny, nx)], the fetched array has the shape of the box and its
    element [(k, j, i)] is element [(zmin + k, ymin + j, xmin + i)] of the
    field: a window-relative position plus the window offset is the
    position on the full grid. *)
Theorem fetch_reindex ds win var time f g :
  proper ds win ->
  py_index var time = Some f ->
  has_shape3 (Z.to_nat (nz ds)) (Z.to_nat (ny ds)) (Z.to_nat (nx ds)) f ->
  fetch var time win = Some g ->
  has_shape3 (Z.to_nat (zmax win - zmin win)) (Z.to_nat (ymax win - ymin win))
             (Z.to_nat (xmax win - xmin win)) g
  /\ forall k j i,
       0 <= k < zmax win - zmin win ->
       0 <= j < ymax win - ymin win ->
       0 <= i < xmax win - xmin win ->
       getitem (Arr3 g) [k; j; i]
       = getitem (Arr3 f) [zmin win + k; ymin win + j; xmin win + i].
Proof.
  intros Hw Hr Hs Hf. split.
  - eapply fetch_shape; eauto.
  - intros. eapply fetch_getitem; eauto.
Qed.

Lemma fetch_reindex_witness :
  exists g,
    fetch (tracked Demo.marked) 2 Demo.win0 = Some g
    /\ has_shape3 5 4 10 g
    /\ forall k j i, 0 <= k < 5 -> 0 <= j < 4 -> 0 <= i < 10 ->
         getitem (Arr3 g) [k; j; i]
         = getitem (Arr3 (Demo.const3 302)) [0 + k; 3 + j; 0 + i].
Proof.
  eexists. split; [reflexivity|].
  apply (fetch_reindex Demo.marked Demo.win0 (tracked Demo.marked) 2 (Demo.const3 302)).
  - vm_compute. repeat split; discriminate.
  - reflexivity.
  - split; [reflexivity|]. repeat constructor.
  - reflexivity.
Defined.

(** ** The moving average keeps the shape of the data *)

Lemma length_running_mean size tmp steps :
  length (running_mean size tmp steps) = length steps.
Proof.
  revert tmp. induction steps as [|[l2 l1] steps IH]; intros tmp; simpl; auto.
Qed.

Lemma uniform_filter1d_length size line :
  1 <= size -> length (uniform_filter1d size line) = length line.
Proof.
  intros Hs. destruct line as [|a line]; [reflexivity|].
  unfold uniform_filter1d. cbn [length]. f_equal.
  rewrite length_running_mean, length_combine, length_skipn.
  unfold extend_line. rewrite length_map.
  pose proof (len_arange (len (a :: line) + size - 1)) as L.
  unfold len in L. cbn [length] in L. unfold len. cbn [length]. lia.
Qed.

Lemma Forall_map2 {A B C} (f : A -> B -> C) (P : A -> Prop) (Q : B -> Prop)
    (R : C -> Prop) a b :
  (forall p q, P p -> Q q -> R (f p q)) ->
  Forall P a -> Forall Q b -> Forall R (map2 f a b).
Proof.
  intros H Fa. revert b. induction Fa as [|p a Hp Fa IH]; intros b Fb; [constructor|].
  destruct Fb as [|q b Hq Fb]; simpl; [constructor|]. constructor; auto.
Qed.

(** The transpose of an [a] by [b] array of items is [b] by [a]. *)
Lemma transpose_shape {A} (P : A -> Prop) (m : list (list A)) a b :
  (1 <= a)%nat -> length m = a ->
  Forall (fun r => length r = b /\ Forall P r) m ->
  length (transpose m) = b
  /\ Forall (fun r => length r = a /\ Forall P r) (transpose m).
Proof.
  revert a. induction m as [|r m IH]; intros a Ha L F; [simpl in L; lia|].
  inversion F as [|? ? (Lr & Pr) F']; subst. clear F.
  destruct m as [|r' m].
  - cbn [transpose length]. rewrite length_map. split; [reflexivity|].
    apply Forall_map. eapply Forall_impl; [|exact Pr].
    intros x Hx. split; [reflexivity|]. now constructor.
  - change (transpose (r :: r' :: m)) with (map2 cons r (transpose (r' :: m))).
    destruct (IH (length (r' :: m))) as (L' & F''); auto.
    { cbn [length]. lia. }
    split.
    + rewrite length_map2, L'. lia.
    + eapply Forall_map2; [|exact Pr|exact F''].
      intros x y Hx (Ly & Py). cbn [length] in *. split; [lia|]. now constructor.
Qed.

Lemma shape2_transpose (p : field2) a c :
  (1 <= a)%nat -> has_shape2 a c p -> has_shape2 c a (transpose p).
Proof.
  intros Ha (L & F).
  destruct (transpose_shape (fun _ => True) p a c Ha L) as (L' & F').
  - eapply Forall_impl; [|exact F]. intros r Hr. split; [exact Hr|].
    apply Forall_forall. auto.
  - split; [exact L'|]. eapply Forall_impl; [|exact F']. now intros r (Hr & _).
Qed.

Section LineFilter.

Variable f : list float -> list float.
Hypothesis f_length : forall line, length (f line) = length line.

Lemma shape2_map_f (p : field2) a c : has_shape2 a c p -> has_shape2 a c (map f p).
Proof.
  intros (L & F). split; [now rewrite length_map|].
  apply Forall_map. eapply Forall_impl; [|exact F].
  intros r Hr. now rewrite f_length.
Qed.

Lemma along_rows_shape (p : field2) a c :
  (1 <= a)%nat -> (1 <= c)%nat ->
  has_shape2 a c p -> has_shape2 a c (along_rows f p).
Proof.
  intros Ha Hc H. unfold along_rows.
  apply shape2_transpose; [exact Hc|]. apply shape2_map_f.
  now apply shape2_transpose.
Qed.

End LineFilter.

Lemma shape3_transpose (input : field3) a b c :
  (1 <= a)%nat -> has_shape3 a b c input -> has_shape3 b a c (transpose input).
Proof.
  intros Ha (L & F).
  destruct (transpose_shape (fun r => length r = c) input a b Ha L) as (L' & F').
  - exact F.
  - split; [exact L'|exact F'].
Qed.

Lemma shape3_map (g : field2 -> field2) (input : field3) a b c :
  (forall p, has_shape2 b c p -> has_shape2 b c (g p)) ->
  has_shape3 a b c input -> has_shape3 a b c (map g input).
Proof.
  intros Hg (L & F). split; [now rewrite length_map|].
  apply Forall_map. eapply Forall_impl; [|exact F]. auto.
Qed.

Lemma uniform_filter_shape (input : field3) size a b c :
  (1 <= a)%nat -> (1 <= b)%nat -> (1 <= c)%nat ->
  has_shape3 a b c input ->
  has_shape3 a b c (uniform_filter input size).
Proof.
  intros Ha Hb Hc H. unfold uniform_filter.
  destruct (Z.leb_spec size 1) as [|Hs]; [exact H|].
  assert (FL : forall line, length (uniform_filter1d size line) = length line)
    by (intros; apply uniform_filter1d_length; lia).
  apply shape3_map; [intros p Hp; now apply shape2_map_f|].
  apply shape3_map; [intros p Hp; now apply along_rows_shape|].
  apply shape3_transpose; [exact Hb|].
  apply shape3_map; [intros p Hp; now apply along_rows_shape|].
  now apply shape3_transpose.
Qed.

(** X11: the moving average returns an array of the shape of its input,
    and each of its line filters a line of the length of its input (for
    an array with no empty axis). *)
Theorem smoothing_keeps_shape (input : field3) a b c :
  (1 <= a)%nat -> (1 <= b)%nat -> (1 <= c)%nat ->
  has_shape3 a b c input ->
  has_shape3 a b c (uniform_filter input smooth)
  /\ forall line, length (uniform_filter1d smooth line) = length line.
Proof.
  intros Ha Hb Hc H. split; [now apply uniform_filter_shape|].
  intros line. apply uniform_filter1d_length. unfold smooth. lia.
Qed.

Lemma smoothing_keeps_shape_witness :
  has_shape3 1 1 3 bump
  /\ has_shape3 1 1 3 (uniform_filter bump smooth)
  /\ forall line, length (uniform_filter1d smooth line) = length line.
Proof.
  assert (H : has_shape3 1 1 3 bump) by (split; [reflexivity|repeat constructor]).
  split; [exact H|].
  apply (smoothing_keeps_shape bump 1 1 3); try lia. exact H.
Defined.

Lemma shape3_matches (pz py px : list Z) (g : field3) :
  has_shape3 (length pz) (length py) (length px) g ->
  shape_matches [pz; py; px] (Arr3 g) = true.
Proof.
  intros (L & F). unfold shape_matches, len. rewrite L, Z.eqb_refl. cbn [andb].
  apply forallb_forall. intros p Hp. rewrite Forall_forall in F.
  destruct (F p Hp) as (Lp & Fp). rewrite Lp, Z.eqb_refl. cbn [andb].
  apply forallb_forall. intros r Hr. rewrite Forall_forall in Fp.
  rewrite (Fp r Hr). apply Z.eqb_refl.
Qed.

Lemma length_arange n : length (arange n) = Z.to_nat n.
Proof. unfold arange. now rewrite length_map, length_seq. Qed.

Lemma get_model_data_shape ds cfg t win md :
  proper ds win -> regular ds ->
  get_model_data ds cfg t win = Some md ->
  fits win (u md) /\ fits win (v md) /\ fits win (w md) /\ fits win (var1 md).
Proof.
  intros Hw Hds Hmd.
  destruct (get_model_data_inv _ _ _ _ _ Hmd)
    as (_ & u0 & v0 & w0 & q0 & Eu & Ev & Ew & Eq0 & ->).
  assert (K : forall var g, (forall f, In f var ->
              In f (uinterp ds ++ vinterp ds ++ winterp ds ++ tracked ds)) ->
            fetch var (time_index cfg t) win = Some g ->
            fits win (uniform_filter g smooth)).
  { intros var g Hin Hg.
    assert (R : exists f, py_index var (time_index cfg t) = Some f).
    { unfold fetch in Hg. destruct (py_index var (time_index cfg t)); [eauto|discriminate]. }
    destruct R as (f & Hf).
    pose proof (fetch_shape ds win Hw var _ f Hf
                  (Hds f (Hin f (py_index_In _ _ _ Hf))) g Hg) as S.
    destruct Hw as (X1 & X2 & Y1 & Y2 & Z1 & Z2).
    apply uniform_filter_shape; try lia. exact S. }
  cbn [u v w var1]. splits.
  - apply (K (uinterp ds)); [|exact Eu]. intros f Hf. apply in_or_app. now left.
  - apply (K (vinterp ds)); [|exact Ev]. intros f Hf.
    apply in_or_app. right. apply in_or_app. now left.
  - apply (K (winterp ds)); [|exact Ew]. intros f Hf.
    apply in_or_app. right. apply in_or_app. right. apply in_or_app. now left.
  - apply (K (tracked ds)); [|exact Eq0]. intros f Hf.
    apply in_or_app. right. apply in_or_app. right. apply in_or_app. now right.
Qed.

(** X12: the smoothed window data always fits the window grid.  When every
    field of the output has shape [(nz, ny, nx)] and the window selects a
    non-empty box inside it, each of the four arrays of [get_model_data]
    has one value per point of [(z_fast, y_fast, x_fast)], so that the
    shape check of [interpn] passes. *)
Theorem model_data_fits_window ds cfg t win md :
  proper ds win -> regular ds ->
  get_model_data ds cfg t win = Some md ->
  shape_matches (fast_grid win) (Arr3 (u md)) = true
  /\ shape_matches (fast_grid win) (Arr3 (v md)) = true
  /\ shape_matches (fast_grid win) (Arr3 (w md)) = true
  /\ shape_matches (fast_grid win) (Arr3 (var1 md)) = true.
Proof.
  intros Hw Hds Hmd.
  destruct (get_model_data_shape _ _ _ _ _ Hw Hds Hmd) as (Su & Sv & Sw & Sq).
  unfold fast_grid, z_fast, y_fast, x_fast.
  splits; apply shape3_matches; now rewrite !length_arange.
Qed.

Lemma model_data_fits_window_witness :
  exists md,
    get_model_data Demo.ds Demo.cfg 0 Demo.win0 = Some md
    /\ shape_matches (fast_grid Demo.win0) (Arr3 (u md)) = true
    /\ shape_matches (fast_grid Demo.win0) (Arr3 (v md)) = true
    /\ shape_matches (fast_grid Demo.win0) (Arr3 (w md)) = true
    /\ shape_matches (fast_grid Demo.win0) (Arr3 (var1 md)) = true.
Proof.
  destruct (get_model_data Demo.ds Demo.cfg 0 Demo.win0) as [md|] eqn:E;
    [|vm_compute in E; discriminate E].
  exists md. split; [reflexivity|].
  apply (model_data_fits_window Demo.ds Demo.cfg 0 Demo.win0 md).
  - vm_compute. repeat split; discriminate.
  - intros f Hf. unfold regular in *.
    assert (F : forall c, has_shape3 5 10 10 (Demo.const3 c))
      by (intros c; split; [reflexivity|repeat constructor]).
    cbn [uinterp vinterp winterp tracked Demo.ds] in Hf.
    repeat (apply in_app_or in Hf; destruct Hf as [Hf|Hf]);
      apply repeat_spec in Hf; subst f; apply F.
  - exact E.
Defined.

(** ** The vertical grid *)

Lemma at3_sub3 a b k j i p q :
  at3 a k j i = Some p -> at3 b k j i = Some q ->
  at3 (sub3 a b) k j i = Some (p - q)%float.
Proof.
  unfold at3, sub3. intros Ha Hb.
  bind_step Ha pa Epa. bind_step Ha ra Era.
  bind_step Hb pb Epb. bind_step Hb rb Erb.
  rewrite nth_error_map2, Epa, Epb. cbn [bind].
  rewrite nth_error_map2, Era, Erb. cbn [bind].
  now rewrite nth_error_map2, Ha, Hb.
Qed.

Lemma py_slice_tail {A} (l : list A) k :
  nth_error (py_slice l 1 (len l)) k = nth_error l (S k).
Proof.
  unfold py_slice, py_bound, len. cbn [Z.ltb Z.compare].
  destruct (Z.ltb_spec (Z.of_nat (length l)) 0); [lia|].
  rewrite Z.min_id. rewrite nth_error_firstn, nth_error_skipn.
  destruct (Nat.ltb_spec k (Z.to_nat (Z.of_nat (length l) - Z.min 1 (Z.of_nat (length l))))) as [H1|H1].
  - f_equal. lia.
  - symmetry. apply nth_error_None. lia.
Qed.

Lemma py_slice_init {A} (l : list A) k :
  (S k < length l)%nat -> nth_error (py_slice l 0 (-1)) k = nth_error l k.
Proof.
  intros H. unfold py_slice, py_bound, len. cbn [Z.ltb Z.compare].
  rewrite nth_error_firstn, nth_error_skipn.
  rewrite Z.min_l by lia. cbn [Z.to_nat Nat.add].
  destruct (Nat.ltb_spec k (Z.to_nat (Z.max 0 (-1 + Z.of_nat (length l)) - 0)));
    [reflexivity|lia].
Qed.

Lemma py_slice_init_length {A} (l : list A) :
  length (py_slice l 0 (-1)) = (length l - 1)%nat.
Proof.
  unfold py_slice, py_bound, len. cbn [Z.ltb Z.compare].
  rewrite length_firstn, length_skipn. lia.
Qed.

Lemma py_slice_tail_length {A} (l : list A) :
  length (py_slice l 1 (len l)) = (length l - 1)%nat.
Proof.
  unfold py_slice, py_bound, len. cbn [Z.ltb Z.compare].
  destruct (Z.ltb_spec (Z.of_nat (length l)) 0); [lia|].
  rewrite length_firstn, length_skipn. lia.
Qed.

(** X13: with terrain, the vertical spacing has one level less than the
    level heights of the first output time, and its element [(k, j, i)]
    is the height of level [k + 1] minus the height of level [k] in that
    column. *)
Theorem vert_resolution_terrain ds zh0 rest :
  zh ds = Some (zh0 :: rest) ->
  exists vres,
    vert_resolution ds = Some vres
    /\ length vres = (length zh0 - 1)%nat
    /\ forall k j i a b,
         at3 zh0 (S k) j i = Some a -> at3 zh0 k j i = Some b ->
         at3 vres k j i = Some (a - b)%float.
Proof.
  intros H. unfold vert_resolution. rewrite H. eexists. split; [reflexivity|].
  split.
  - unfold sub3. rewrite length_map2, py_slice_tail_length, py_slice_init_length. lia.
  - intros k j i a b Ha Hb. apply at3_sub3.
    + unfold at3 in *. now rewrite py_slice_tail.
    + unfold at3 in *. rewrite py_slice_init; [exact Hb|].
      destruct (nth_error zh0 (S k)) eqn:E; [|discriminate].
      apply nth_error_Some. congruence.
Qed.

Lemma vert_resolution_terrain_witness :
  exists vres,
    vert_resolution Hill.ds = Some vres
    /\ length vres = 2%nat
    /\ at3 vres 0 0 1 = Some (550 - 100)%float.
Proof.
  destruct (vert_resolution_terrain Hill.ds Hill.zh0 [] eq_refl) as (vres & E & L & K).
  exists vres. split; [exact E|]. split; [exact L|].
  apply K; reflexivity.
Defined.

(** ** The branch without terrain, call by call *)

Section Chunks.
Context {A : Type}.

Lemma chunks_concat (l : list (list A)) n :
  Forall (fun r => length r = n) l ->
  Literal.chunks (length l) n (concat l) = l.
Proof.
  induction 1 as [|r l Hr F IH]; [reflexivity|].
  cbn [length Literal.chunks concat].
  rewrite firstn_app, skipn_app, Hr, Nat.sub_diag.
  rewrite <- Hr at 1. rewrite firstn_all. rewrite <- Hr at 2. rewrite skipn_all.
  cbn [firstn skipn app]. rewrite app_nil_r. now rewrite IH.
Qed.

Lemma concat_repeat (v : A) a b :
  concat (repeat (repeat v a) b) = repeat v (b * a).
Proof.
  induction b as [|b IH]; [reflexivity|].
  cbn [repeat concat Nat.mul]. now rewrite IH, repeat_app.
Qed.

Lemma chunks_repeat (v : A) a b :
  Literal.chunks a b (repeat v (a * b)) = repeat (repeat v b) a.
Proof.
  rewrite <- concat_repeat.
  rewrite <- (repeat_length (repeat v b) a) at 1.
  apply chunks_concat. apply Forall_forall. intros r Hr.
  apply repeat_spec in Hr. subst. apply repeat_length.
Qed.

End Chunks.

Lemma np_shape_exact size dims :
  Forall (fun d => 0 <= d) dims -> fold_right Z.mul 1 dims = size ->
  Literal.np_shape size dims = Some dims.
Proof.
  intros F E. unfold Literal.np_shape.
  assert (K : existsb (fun d => d <? -1) dims = false
              /\ filter (fun d => d =? -1) dims = []
              /\ filter (fun d => negb (d =? -1)) dims = dims).
  { clear E. induction F as [|d dims Hd F (I1 & I2 & I3)]; [auto|].
    cbn [existsb filter].
    destruct (Z.ltb_spec d (-1)); [lia|].
    destruct (Z.eqb_spec d (-1)); [lia|]. cbn [negb orb].
    rewrite I3. auto. }
  destruct K as (E1 & E2 & E3).
  rewrite E1, E2, E3, E, Z.eqb_refl. reflexivity.
Qed.

Lemma length_flat_repeat {A} (d : list A) n :
  length (flat_map (fun v => repeat v n) d) = (length d * n)%nat.
Proof.
  induction d as [|a d IH]; [reflexivity|].
  cbn [flat_map length]. rewrite length_app, repeat_length, IH. lia.
Qed.

Lemma concat_flat_repeat {A} (d : list A) a b :
  concat (flat_map (fun row => repeat row b) (map (fun v => repeat v a) d))
  = concat (map (fun v => repeat v (b * a)) d).
Proof.
  induction d as [|v d IH]; [reflexivity|].
  cbn [map flat_map concat]. now rewrite concat_app, concat_repeat, IH.
Qed.

Lemma repeat_reshape_levels ds levels (d : list float) :
  1 <= ny ds -> 0 <= nx ds -> len d = levels ->
  Literal.repeat_reshape ds levels d
  = Some (map (fun r => repeat (repeat r (Z.to_nat (nx ds))) (Z.to_nat (ny ds))) d).
Proof.
  intros Hy Hx Hd. unfold Literal.repeat_reshape, Literal.np_repeat.
  destruct (Z.ltb_spec (ny ds) 0); [lia|]. cbn [bind].
  unfold Literal.reshape2. rewrite np_shape_exact; cycle 1.
  { repeat constructor; unfold len in Hd; lia. }
  { unfold len. rewrite length_flat_repeat. cbn [fold_right]. unfold len in Hd. lia. }
  cbn [bind].
  destruct (Z.ltb_spec (nx ds) 0); [lia|]. cbn [bind].
  assert (C1 : Literal.chunks (Z.to_nat levels) (Z.to_nat (ny ds))
                 (flat_map (fun v => repeat v (Z.to_nat (ny ds))) d)
               = map (fun v => repeat v (Z.to_nat (ny ds))) d).
  { rewrite flat_map_concat_map.
    replace (Z.to_nat levels)
      with (length (map (fun v : float => repeat v (Z.to_nat (ny ds))) d))
      by (rewrite length_map; unfold len in Hd; lia).
    apply chunks_concat.
    apply Forall_map, Forall_forall; intros; apply repeat_length. }
  rewrite C1, concat_flat_repeat.
  unfold Literal.reshape3. rewrite np_shape_exact; cycle 1.
  { repeat constructor; unfold len in Hd; lia. }
  { unfold len. rewrite length_concat, map_map.
    erewrite map_ext by (intros; apply repeat_length).
    cbn [fold_right]. unfold len in Hd.
    assert (S : forall (l : list float) n, list_sum (map (fun _ => n) l) = (length l * n)%nat).
    { induction l as [|a l IH]; intros n; simpl; [reflexivity|]. rewrite IH. lia. }
    rewrite S. lia. }
  cbn [bind]. f_equal.
  replace (Z.to_nat levels)
    with (length (map (fun v : float => repeat v (Z.to_nat (nx ds) * Z.to_nat (ny ds))) d))
    by (rewrite length_map; unfold len in Hd; lia).
  replace (Z.to_nat (ny ds) * Z.to_nat (nx ds))%nat
    with (Z.to_nat (nx ds) * Z.to_nat (ny ds))%nat by lia.
  rewrite chunks_concat
    by (apply Forall_map, Forall_forall; intros; apply repeat_length).
  rewrite map_map. apply map_ext. intros v.
  replace (Z.to_nat (nx ds) * Z.to_nat (ny ds))%nat
    with (Z.to_nat (ny ds) * Z.to_nat (nx ds))%nat by lia.
  apply chunks_repeat.
Qed.

(** X14: without terrain, the two [np.repeat] and [reshape] calls build an
    array that is constant on each level: it has one plane of [ny] rows of
    [nx] values per entry of the one-dimensional input, and element
    [(k, j, i)] is entry [k] of the input for every row [j] and column
    [i]. *)
Theorem repeat_reshape_constant ds levels (d : list float) :
  1 <= ny ds -> 0 <= nx ds -> len d = levels ->
  exists f,
    Literal.repeat_reshape ds levels d = Some f
    /\ has_shape3 (Z.to_nat levels) (Z.to_nat (ny ds)) (Z.to_nat (nx ds)) f
    /\ forall k j i val,
         nth_error d k = Some val ->
         (j < Z.to_nat (ny ds))%nat -> (i < Z.to_nat (nx ds))%nat ->
         at3 f k j i = Some val.
Proof.
  intros Hy Hx Hd. eexists. split; [now apply repeat_reshape_levels|]. split.
  - split; [rewrite length_map; unfold len in Hd; lia|].
    apply Forall_map, Forall_forall. intros val _. split; [apply repeat_length|].
    apply Forall_forall. intros r Hr. apply repeat_spec in Hr. subst.
    apply repeat_length.
  - intros k j i val Hk Hj Hi. unfold at3.
    rewrite nth_error_map, Hk. cbn [option_map bind].
    rewrite nth_error_repeat by exact Hj. cbn [bind].
    now apply nth_error_repeat.
Qed.

Lemma repeat_reshape_constant_witness :
  exists f,
    Literal.repeat_reshape Demo.ds 3 [500; 250; 125]%float = Some f
    /\ has_shape3 3 10 10 f
    /\ forall k j i val,
         nth_error [500; 250; 125]%float k = Some val ->
         (j < 10)%nat -> (i < 10)%nat -> at3 f k j i = Some val.
Proof.
  apply (repeat_reshape_constant Demo.ds 3 [500; 250; 125]%float);
    vm_compute; try reflexivity; discriminate.
Defined.

Lemma by_level_inv ds levels d f :
  by_level ds levels d = Some f ->
  1 <= nz ds /\ 1 <= ny ds /\ 0 <= nx ds /\ len d = levels
  /\ f = map (fun r => repeat (repeat r (Z.to_nat (nx ds))) (Z.to_nat (ny ds))) d.
Proof.
  unfold by_level. intros H.
  destruct (_ && _) eqn:G in H; [|discriminate]. injection H as <-.
  apply andb_true_iff in G. destruct G as (G & G4).
  apply andb_true_iff in G. destruct G as (G & G3).
  apply andb_true_iff in G. destruct G as (G1 & G2).
  apply Z.leb_le in G1, G2, G3. apply Z.eqb_eq in G4. auto.
Qed.

(** X15: without terrain, the vertical spacing and the level heights of
    the notebook are what its [np.repeat] and [reshape] calls return when
    they are followed call by call. *)
Theorem level_arrays_literal ds :
  match zh ds with Some (_ :: _) => False | _ => True end ->
  (forall vr, vert_resolution ds = Some vr -> Literal.vert_resolution ds = Some vr)
  /\ (forall lh, level_height ds = Some lh -> Literal.level_height ds = Some lh).
Proof.
  intros H. unfold vert_resolution, level_height,
    Literal.vert_resolution, Literal.level_height.
  destruct (zh ds) as [[|zh0 rest]|]; try contradiction;
    (split; intros f Hf; apply by_level_inv in Hf;
     destruct Hf as (_ & Hy & Hx & Hd & ->); now apply repeat_reshape_levels).
Qed.

Lemma level_arrays_literal_witness :
  vert_resolution Demo.ds = Some Demo.vres
  /\ Literal.vert_resolution Demo.ds = Some Demo.vres.
Proof.
  assert (E : vert_resolution Demo.ds = Some Demo.vres) by (vm_compute; reflexivity).
  split; [exact E|].
  apply (level_arrays_literal Demo.ds); [exact I|exact E].
Defined.

(** ** The clip and the reflection *)

(** X16: the ground clip is idempotent: clipping the arrays a second time
    changes nothing. *)
Theorem ground_clip_idempotent s : ground_clip (ground_clip s) = ground_clip s.
Proof.
  unfold ground_clip, clip. cbn [xpos ypos zpos zpos_heightASL zpos_vert_res variable1].
  f_equal; rewrite map_map; apply map_ext; intros r; apply clip_row_idem.
Qed.

(** X17: the extension of a line of [n] samples mirrors it about both
    edges, the edge sample included: position [-1 - k] before the line
    and position [n + k] after it both show the sample [k] places in from
    that edge, and positions inside the line show themselves. *)
Theorem reflect_mirror n k :
  0 <= k < n ->
  reflect n (-1 - k) = k /\ reflect n (n + k) = n - 1 - k /\ reflect n k = k.
Proof.
  intros H. unfold reflect.
  assert (E1 : (-1 - k) mod (2 * n) = 2 * n - 1 - k).
  { symmetry. apply (Z.mod_unique _ _ (-1)); lia. }
  assert (E2 : (n + k) mod (2 * n) = n + k) by (apply Z.mod_small; lia).
  assert (E3 : k mod (2 * n) = k) by (apply Z.mod_small; lia).
  rewrite E1, E2, E3.
  destruct (Z.ltb_spec (2 * n - 1 - k) n); [lia|].
  destruct (Z.ltb_spec (n + k) n); [lia|].
  destruct (Z.ltb_spec k n); [|lia]. lia.
Qed.

Lemma reflect_mirror_witness :
  reflect 4 (-1 - 1) = 1 /\ reflect 4 (4 + 1) = 4 - 1 - 1 /\ reflect 4 1 = 1.
Proof. apply (reflect_mirror 4 1). lia. Defined.

Lemma reflect_range n p : 0 < n -> 0 <= reflect n p < n.
Proof.
  intros H. unfold reflect.
  pose proof (Z.mod_pos_bound p (2 * n)) as B.
  destruct (Z.ltb_spec (p mod (2 * n)) n); lia.
Qed.

(** X18: the extended line holds samples of the line only: no position of
    the extension reads beyond the line. *)
Theorem extend_line_samples size line val :
  line <> [] -> In val (extend_line size line) -> In val line.
Proof.
  intros Hne H. unfold extend_line in H. apply in_map_iff in H.
  destruct H as (k & <- & _).
  apply nth_In.
  assert (0 < len line) by (unfold len; destruct line; [contradiction|simpl; lia]).
  pose proof (reflect_range (len line) (k - size / 2)). unfold len in *. lia.
Qed.

Lemma extend_line_samples_witness :
  In 400%float (extend_line smooth [0; 400; 0]%float) /\ In 400%float [0; 400; 0]%float.
Proof.
  assert (H : In 400%float (extend_line smooth [0; 400; 0]%float))
    by (vm_compute; auto 12).
  split; [exact H|].
  apply (extend_line_samples smooth [0; 400; 0]%float 400); [discriminate|exact H].
Defined.

(** ** When a pass succeeds *)

Lemma ascending_seq a k : ascending (map Z.of_nat (seq a k)) = true.
Proof.
  revert a. induction k as [|k IH]; intros a; [reflexivity|].
  cbn [seq map]. specialize (IH (S a)).
  destruct k as [|k]; [reflexivity|]. cbn [seq map] in *.
  cbn [ascending]. cbn [ascending] in IH. rewrite IH.
  destruct (Z.ltb_spec (Z.of_nat a) (Z.of_nat (S a))); [reflexivity|lia].
Qed.

Lemma ascending_arange n : ascending (arange n) = true.
Proof. apply ascending_seq. Qed.

Lemma searchsorted_range grid x : 0 <= searchsorted grid x <= len grid.
Proof.
  unfold searchsorted, len. split; [lia|].
  apply inj_le, filter_length_le.
Qed.

Lemma py_index_defined {A} (l : list A) i :
  - len l <= i < len l -> exists a, py_index l i = Some a.
Proof. intros H. now apply py_index_readable. Qed.

(** On a grid of at least one point every coordinate is located, in a
    cell whose two edges are valid indices (the lower one is [-1], the
    last point, on a grid of one point). *)
Lemma find_indices_defined grid x :
  grid <> [] ->
  exists i yi o,
    find_indices grid x = Some (i, yi, o)
    /\ - len grid <= i /\ 0 <= i + 1 < len grid.
Proof.
  intros Hne.
  assert (Hn : 1 <= len grid) by (unfold len; destruct grid; [contradiction|simpl; lia]).
  unfold find_indices.
  pose proof (searchsorted_range grid x) as R.
  set (i0 := searchsorted grid x - 1) in *.
  set (i1 := if i0 <? 0 then 0 else i0).
  set (i2 := if i1 >? len grid - 2 then len grid - 2 else i1).
  assert (B : - len grid <= i2 /\ 0 <= i2 + 1 < len grid).
  { subst i2 i1. destruct (Z.ltb_spec i0 0);
      destruct (Z.gtb_spec 0 (len grid - 2));
      destruct (Z.gtb_spec i0 (len grid - 2)); lia. }
  destruct (py_index_defined grid i2) as (g0 & ->); [lia|].
  destruct (py_index_defined grid (i2 + 1)) as (g1 & ->); [lia|].
  destruct (py_index_defined grid 0) as (g2 & ->); [lia|].
  destruct (py_index_defined grid (-1)) as (g3 & ->); [lia|].
  cbn [bind]. eauto 10.
Qed.

Lemma mapM_defined {A B} (f : A -> option B) l :
  Forall (fun a => exists b, f a = Some b) l -> exists r, mapM f l = Some r.
Proof.
  induction 1 as [|a l (b & Hb) _ (r & Hr)]; simpl; [eauto|].
  rewrite Hb, Hr. cbn [bind]. eauto.
Qed.

Lemma matches_shape3 pz py px g :
  shape_matches [pz; py; px] (Arr3 g) = true ->
  has_shape3 (length pz) (length py) (length px) g.
Proof.
  unfold shape_matches, len. intros H.
  apply andb_true_iff in H. destruct H as (H1 & H2).
  apply Z.eqb_eq in H1. split; [lia|].
  apply Forall_forall. intros p Hp.
  rewrite forallb_forall in H2. specialize (H2 p Hp).
  apply andb_true_iff in H2. destruct H2 as (H2 & H3).
  apply Z.eqb_eq in H2. split; [lia|].
  apply Forall_forall. intros r Hr.
  rewrite forallb_forall in H3. specialize (H3 r Hr).
  apply Z.eqb_eq in H3. lia.
Qed.

Lemma shape2_matches (py px : list Z) (g : field2) :
  has_shape2 (length py) (length px) g ->
  shape_matches [py; px] (Arr2 g) = true.
Proof.
  intros (L & F). unfold shape_matches, len. rewrite L, Z.eqb_refl. cbn [andb].
  apply forallb_forall. intros r Hr. rewrite Forall_forall in F.
  rewrite (F r Hr). apply Z.eqb_refl.
Qed.

Lemma getitem_defined3 a b c (g : field3) k j i :
  has_shape3 a b c g ->
  - Z.of_nat a <= k < Z.of_nat a ->
  - Z.of_nat b <= j < Z.of_nat b ->
  - Z.of_nat c <= i < Z.of_nat c ->
  exists val, getitem (Arr3 g) [k; j; i] = Some val.
Proof.
  intros Hs Hk Hj Hi. pose proof Hs as (L & F). unfold getitem.
  destruct (py_index_defined g k) as (p & Ep); [unfold len; lia|].
  rewrite Ep. cbn [bind].
  pose proof (shape3_plane _ _ _ _ _ Hs (py_index_In _ _ _ Ep)) as Sp.
  pose proof Sp as (Lp & Fp).
  destruct (py_index_defined p j) as (r & Er); [unfold len; lia|].
  rewrite Er. cbn [bind].
  pose proof (shape2_line _ _ _ _ Sp (py_index_In _ _ _ Er)) as Lr.
  apply py_index_defined. unfold len. lia.
Qed.

Lemma getitem_defined2 b c (g : field2) j i :
  has_shape2 b c g ->
  - Z.of_nat b <= j < Z.of_nat b ->
  - Z.of_nat c <= i < Z.of_nat c ->
  exists val, getitem (Arr2 g) [j; i] = Some val.
Proof.
  intros Hs Hj Hi. pose proof Hs as (L & F). unfold getitem.
  destruct (py_index_defined g j) as (r & Er); [unfold len; lia|].
  rewrite Er. cbn [bind].
  pose proof (shape2_line _ _ _ _ Hs (py_index_In _ _ _ Er)) as Lr.
  apply py_index_defined. unfold len. lia.
Qed.

(** With non-empty grids and values of their shape, [interpn] returns a
    value for every query point, wherever it lies. *)
Lemma interp_point_defined3 gz gy gx (g : field3) fill q :
  gz <> [] -> gy <> [] -> gx <> [] ->
  has_shape3 (length gz) (length gy) (length gx) g ->
  length q = 3%nat ->
  exists r, interp_point [gz; gy; gx] (Arr3 g) fill q = Some r.
Proof.
  intros Hz Hy Hx Hs Lq.
  destruct q as [|c [|b [|a [|? ?]]]]; try discriminate.
  unfold interp_point. cbn [length Nat.eqb negb combine mapM].
  destruct (find_indices_defined gz c Hz) as (k & yk & ok & -> & Bk).
  destruct (find_indices_defined gy b Hy) as (j & yj & oj & -> & Bj).
  destruct (find_indices_defined gx a Hx) as (i & yi & oi & -> & Bi).
  cbn [bind]. unfold len in *.
  unfold evaluate_linear. cbn [map product flat_map app fold_left].
  do 8 (match goal with
        | |- context [getitem (Arr3 g) [?e1; ?e2; ?e3]] =>
            let val := fresh "val" in
            let E := fresh "E" in
            destruct (getitem_defined3 _ _ _ g e1 e2 e3 Hs) as (val & E);
            [lia|lia|lia|rewrite E; cbn [bind]]
        end).
  eauto.
Qed.

Lemma interp_point_defined2 gy gx (g : field2) fill q :
  gy <> [] -> gx <> [] ->
  has_shape2 (length gy) (length gx) g ->
  length q = 2%nat ->
  exists r, interp_point [gy; gx] (Arr2 g) fill q = Some r.
Proof.
  intros Hy Hx Hs Lq.
  destruct q as [|b [|a [|? ?]]]; try discriminate.
  unfold interp_point. cbn [length Nat.eqb negb combine mapM].
  destruct (find_indices_defined gy b Hy) as (j & yj & oj & -> & Bj).
  destruct (find_indices_defined gx a Hx) as (i & yi & oi & -> & Bi).
  cbn [bind]. unfold len in *.
  unfold evaluate_linear. cbn [map product flat_map app fold_left].
  do 4 (match goal with
        | |- context [getitem (Arr2 g) [?e1; ?e2]] =>
            let val := fresh "val" in
            let E := fresh "E" in
            destruct (getitem_defined2 _ _ g e1 e2 Hs) as (val & E);
            [lia|lia|rewrite E; cbn [bind]]
        end).
  eauto.
Qed.

Lemma arange_defined n : 1 <= n -> arange n <> [].
Proof.
  intros H E. apply (f_equal (@length Z)) in E.
  rewrite length_arange in E. simpl in E. lia.
Qed.

Lemma interpn_defined3 nz_ ny_ nx_ (g : field3) xi fill :
  1 <= nz_ -> 1 <= ny_ -> 1 <= nx_ ->
  has_shape3 (Z.to_nat nz_) (Z.to_nat ny_) (Z.to_nat nx_) g ->
  Forall (fun q => length q = 3%nat) xi ->
  exists r, interpn [arange nz_; arange ny_; arange nx_] (Arr3 g) xi fill = Some r.
Proof.
  intros Hz Hy Hx Hs Hq. unfold interpn.
  cbn [forallb]. rewrite !ascending_arange. cbn [andb negb].
  rewrite shape3_matches by (now rewrite !length_arange). cbn [negb].
  apply mapM_defined. eapply Forall_impl; [|exact Hq].
  intros q Lq. apply interp_point_defined3; auto using arange_defined.
  now rewrite !length_arange.
Qed.

Lemma interpn_defined2 ny_ nx_ (g : field2) xi fill :
  1 <= ny_ -> 1 <= nx_ ->
  has_shape2 (Z.to_nat ny_) (Z.to_nat nx_) g ->
  Forall (fun q => length q = 2%nat) xi ->
  exists r, interpn [arange ny_; arange nx_] (Arr2 g) xi fill = Some r.
Proof.
  intros Hy Hx Hs Hq. unfold interpn.
  cbn [forallb]. rewrite !ascending_arange. cbn [andb negb].
  rewrite shape2_matches by (now rewrite !length_arange). cbn [negb].
  apply mapM_defined. eapply Forall_impl; [|exact Hq].
  intros q Lq. apply interp_point_defined2; auto using arange_defined.
  now rewrite !length_arange.
Qed.

Lemma coords3_points zl yl xl : Forall (fun q => length q = 3%nat) (coords3 zl yl xl).
Proof.
  unfold coords3. apply Forall_map, Forall_forall. now intros [[c b] a] _.
Qed.

Lemma coords2_points yl xl : Forall (fun q => length q = 2%nat) (coords2 yl xl).
Proof.
  unfold coords2. revert xl. induction yl as [|b yl IH]; intros [|a xl]; simpl;
    constructor; auto.
Qed.

Lemma shape2_row_defined {A} b c (p : list (list A)) j :
  has_shape2 b c p -> (j < b)%nat ->
  exists r, nth_error p j = Some r /\ length r = c.
Proof.
  intros Hs Hj. pose proof Hs as (L & _).
  destruct (nth_error p j) as [r|] eqn:E.
  - exists r. split; [reflexivity|]. eapply shape2_row; eauto.
  - apply nth_error_None in E. lia.
Qed.

Lemma shape2_set_row_defined {A} b c (p : list (list A)) j r :
  has_shape2 b c p -> (j < b)%nat -> exists p', set_row p j r = Some p'.
Proof. intros (L & _) Hj. apply set_row_defined. lia. Qed.

Lemma field_window_proper ds xt yt zt win :
  field_window ds xt yt zt = Some win -> nonempty win -> proper ds win.
Proof.
  unfold field_window. intros H (Nx & Ny & Nz).
  bind_step H xlo Exlo. bind_step H xhi Exhi.
  bind_step H ylo Eylo. bind_step H yhi Eyhi.
  bind_step H zlo Ezlo. bind_step H zhi Ezhi.
  injection H as <-. cbn [xmin xmax ymin ymax zmin zmax] in *.
  destruct (window_lo_spec _ _ Exlo) as (? & ? & _ & _ & ->).
  destruct (window_lo_spec _ _ Eylo) as (? & ? & _ & _ & ->).
  destruct (window_lo_spec _ _ Ezlo) as (? & ? & _ & _ & ->).
  destruct (window_hi_spec _ _ _ Exhi) as (? & ? & _ & _ & ->).
  destruct (window_hi_spec _ _ _ Eyhi) as (? & ? & _ & _ & ->).
  destruct (window_hi_spec _ _ _ Ezhi) as (? & ? & _ & _ & ->).
  unfold proper. cbn [xmin xmax ymin ymax zmin zmax]. lia.
Qed.

Lemma interpn_window_defined ds win g xi fill :
  proper ds win ->
  fits win g -> Forall (fun q => length q = 3%nat) xi ->
  exists r, interpn (fast_grid win) (Arr3 g) xi fill = Some r.
Proof.
  intros (X1 & X2 & Y1 & Y2 & Z1 & Z2) Hg Hq.
  unfold fast_grid, z_fast, y_fast, x_fast.
  apply interpn_defined3; auto; lia.
Qed.

Ltac set_row_step Hshape :=
  match goal with
  | |- context [set_row ?a ?j ?r] =>
      let p := fresh "p" in
      destruct (shape2_set_row_defined _ _ a j r Hshape) as (p & ->);
      [lia|cbn [bind]]
  end.

Section PassSucceeds.

Variables (ds : dataset) (cfg : settings) (vres : field3) (zsf : field2).
Variables (t steps n : nat) (s : arrays) (win : window).

Hypothesis Hs : well_shaped steps n s.
Hypothesis Ht : (S t < steps)%nat.
Hypothesis Hwin : proper ds win.
Hypothesis Hnz : 2 <= nz ds.
Hypothesis Hsurf : surface ds = Some zsf.
Hypothesis Hzsf : has_shape2 (Z.to_nat (ny ds)) (Z.to_nat (nx ds)) zsf.
Hypothesis Hvres :
  has_shape3 (Z.to_nat (nz ds - 1)) (Z.to_nat (ny ds)) (Z.to_nat (nx ds)) vres.

Lemma integrate_defined md :
  fits win (u md) -> fits win (v md) -> fits win (w md) ->
  exists s', integrate ds cfg vres t win md s = Some s'.
Proof.
  intros Su Sv Sw.
  destruct Hs as (Sx & Sy & Sz & Sa & Sr & Sq).
  pose proof Hwin as (X1 & X2 & Y1 & Y2 & Z1 & Z2).
  unfold integrate.
  destruct (shape2_row_defined _ _ _ t Sx) as (xt & -> & _); [lia|].
  destruct (shape2_row_defined _ _ _ t Sy) as (yt & -> & _); [lia|].
  destruct (shape2_row_defined _ _ _ t Sz) as (zt & -> & _); [lia|].
  destruct (shape2_row_defined _ _ _ t Sa) as (at_ & -> & _); [lia|].
  rewrite Hsurf. cbn [bind].
  destruct (interpn_window_defined ds win (u md) (coord_u cfg win xt yt zt) nan Hwin Su)
    as (iu & ->); [apply coords3_points|]. cbn [bind].
  set_row_step Sx.
  destruct (interpn_window_defined ds win (v md) (coord_v cfg win xt yt zt) nan Hwin Sv)
    as (iv & ->); [apply coords3_points|]. cbn [bind].
  set_row_step Sy.
  destruct (interpn_window_defined ds win (w md) (coord_w cfg win xt yt zt) 0%float Hwin Sw)
    as (iw & ->); [apply coords3_points|]. cbn [bind].
  set_row_step Sa.
  unfold x, y, z. rewrite arange_slice.
  destruct (interpn_defined3 (nz ds - 1) (ny ds) (nx ds) vres (coord win xt yt zt) nan)
    as (vr & ->); [lia|lia|lia|exact Hvres|apply coords3_points|]. cbn [bind].
  set_row_step Sr.
  unfold surface_at, x, y.
  destruct (interpn_defined2 (ny ds) (nx ds) zsf (coords2 yt xt) nan)
    as (zs1 & ->); [lia|lia|exact Hzsf|apply coords2_points|]. cbn [bind].
  match goal with
  | |- context [interpn _ (Arr2 zsf) ?c nan] =>
      destruct (interpn_defined2 (ny ds) (nx ds) zsf c nan)
        as (zs2 & ->); [lia|lia|exact Hzsf|apply coords2_points|]
  end. cbn [bind].
  set_row_step Sz.
  eauto.
Qed.

End PassSucceeds.

(** X19: what is enough for a pass to succeed.  With arrays of
    [steps > t + 1] rows, an output whose fields all have shape
    [(nz, ny, nx)] with at least two levels, a surface and a vertical
    spacing of the matching shapes, [incre] not zero and a time index
    the four variables can be read at, pass [t] returns new arrays as
    soon as its field window is defined and empty on no axis, wherever
    the parcels lie inside or outside that window. *)
Theorem pass_succeeds ds cfg vres zsf t steps n s xt yt zt win :
  well_shaped steps n s -> (S t < steps)%nat ->
  regular ds -> 2 <= nz ds ->
  surface ds = Some zsf ->
  has_shape2 (Z.to_nat (ny ds)) (Z.to_nat (nx ds)) zsf ->
  has_shape3 (Z.to_nat (nz ds - 1)) (Z.to_nat (ny ds)) (Z.to_nat (nx ds)) vres ->
  incre cfg <> 0 ->
  readable (uinterp ds) (time_index cfg t) ->
  readable (vinterp ds) (time_index cfg t) ->
  readable (winterp ds) (time_index cfg t) ->
  readable (tracked ds) (time_index cfg t) ->
  nth_error (xpos s) t = Some xt ->
  nth_error (ypos s) t = Some yt ->
  nth_error (zpos s) t = Some zt ->
  field_window ds xt yt zt = Some win ->
  nonempty win ->
  exists s', step ds cfg vres t s = Some s'.
Proof.
  intros Hs Ht Hds Hnz Hsurf Hzsf Hvres Hi Hu Hv Hw Hq Hx Hy Hz Hwin Hne.
  pose proof (field_window_proper _ _ _ _ _ Hwin Hne) as Hp.
  destruct (get_model_data_some ds cfg t win Hi Hu Hv Hw Hq) as (md & Hmd).
  destruct (get_model_data_shape _ _ _ _ _ Hp Hds Hmd) as (Su & Sv & Sw & Sq).
  destruct (integrate_defined ds cfg vres zsf t steps n s win Hs Ht Hp Hnz
              Hsurf Hzsf Hvres md Su Sv Sw) as (s1 & Hs1).
  unfold step. rewrite Hx, Hy, Hz. cbn [bind]. rewrite Hwin. cbn [bind].
  rewrite Hmd. cbn [bind]. rewrite Hs1. cbn [bind].
  unfold sample_variable.
  destruct (interpn_window_defined ds win (var1 md) (coord_fast win xt yt zt) nan Hp Sq)
    as (val & ->); [apply coords3_points|]. cbn [bind].
  pose proof (integrate_shape _ _ _ _ _ _ _ _ _ _ Hs1 Hs) as (_ & _ & _ & _ & _ & Sv1).
  cbn [ground_clip variable1].
  set_row_step Sv1. eauto.
Qed.

Lemma pass_succeeds_witness :
  exists s', step Demo.ds Demo.cfg Demo.vres 0 Demo.seeded = Some s'.
Proof.
  assert (F : forall c, has_shape3 5 10 10 (Demo.const3 c))
    by (intros c; split; [reflexivity|repeat constructor]).
  assert (H1 : well_shaped 4 3 Demo.seeded)
    by (unfold well_shaped, has_shape2; simpl; repeat split; repeat constructor).
  assert (H2 : regular Demo.ds).
  { intros f Hf. cbn [uinterp vinterp winterp tracked Demo.ds] in Hf.
    repeat (apply in_app_or in Hf; destruct Hf as [Hf|Hf]);
      apply repeat_spec in Hf; subst f; apply F. }
  assert (H3 : has_shape2 10 10 (repeat (repeat 0%float 10) 10))
    by (split; [reflexivity|repeat constructor]).
  assert (H4 : has_shape3 4 10 10 Demo.vres)
    by (split; [reflexivity|repeat constructor]).
  assert (H5 : forall var : list field3, length var = 4%nat ->
            readable var (time_index Demo.cfg 0))
    by (intros var L; unfold readable, len, time_index; rewrite L; cbn; lia).
  apply (pass_succeeds Demo.ds Demo.cfg Demo.vres (repeat (repeat 0%float 10) 10)
           0 4 3 Demo.seeded Demo.x0 Demo.y0 Demo.z0 Demo.win0 H1);
    try (apply H5); try reflexivity; try assumption.
  - lia.
  - simpl. lia.
  - simpl. discriminate.
  - unfold nonempty. simpl. lia.
Defined.

(** ** Parcels as one row *)

Lemma concat_chunks {A} (flat : list A) a b :
  length flat = (a * b)%nat -> concat (Literal.chunks a b flat) = flat.
Proof.
  revert flat. induction a as [|a IH]; intros flat L.
  - destruct flat; [reflexivity|discriminate].
  - cbn [Literal.chunks concat]. rewrite IH; [apply firstn_skipn|].
    rewrite length_skipn. lia.
Qed.

Lemma chunks_shape {A} (flat : list A) a b :
  length flat = (a * b)%nat -> has_shape2 a b (Literal.chunks a b flat).
Proof.
  revert flat. induction a as [|a IH]; intros flat L.
  - split; [reflexivity|constructor].
  - destruct (IH (skipn b flat)) as (L' & F'); [rewrite length_skipn; lia|].
    cbn [Literal.chunks]. split; [cbn [length]; now rewrite L'|].
    constructor; [|exact F']. rewrite length_firstn. lia.
Qed.

Lemma length_concat_shape {A} (block : list (list A)) a b :
  has_shape2 a b block -> length (concat block) = (a * b)%nat.
Proof.
  intros (L & F). subst a. induction F as [|r block Hr F IH]; [reflexivity|].
  cbn [concat length]. rewrite length_app, IH, Hr. lia.
Qed.

(** X20: the notebook keeps the parcels as a [(num_seeds_z, num_seeds_y)]
    block and hands them to the interpolation as one row.  The two views
    hold the same data: reshaping the flattened block gives the block
    back, and flattening the reshape of a row of [num_seeds_z *
    num_seeds_y] values gives the row back. *)
Theorem flatten_reshape_round_trip {A} (a b : nat) :
  (forall block : list (list A), has_shape2 a b block ->
     Literal.reshape2 (Literal.flatten block) (Z.of_nat a) (Z.of_nat b) = Some block)
  /\ (forall flat : list A, length flat = (a * b)%nat ->
        exists block,
          Literal.reshape2 flat (Z.of_nat a) (Z.of_nat b) = Some block
          /\ has_shape2 a b block /\ Literal.flatten block = flat).
Proof.
  assert (S : forall flat : list A, length flat = (a * b)%nat ->
            Literal.reshape2 flat (Z.of_nat a) (Z.of_nat b)
            = Some (Literal.chunks a b flat)).
  { intros flat L. unfold Literal.reshape2.
    rewrite np_shape_exact; cycle 1.
    - repeat constructor; lia.
    - unfold len. rewrite L. cbn [fold_right]. lia.
    - cbn [bind]. now rewrite !Nat2Z.id. }
  split.
  - intros block Hb. pose proof (length_concat_shape _ _ _ Hb) as L.
    unfold Literal.flatten. rewrite (S _ L). f_equal.
    destruct Hb as (La & F). subst a. now apply chunks_concat.
  - intros flat L. exists (Literal.chunks a b flat). rewrite (S _ L).
    split; [reflexivity|]. split; [now apply chunks_shape|].
    now apply concat_chunks.
Qed.

(** ** When the first and the last cell succeed *)

(** X21: what is enough for the seeding cells to succeed: an output with
    terrain whose level heights [ds.zh[0]] have the shape of the grid, a
    grid with at least one point on every axis, one y and one z per seed
    x, and at least one time slice.  The arrays they build have
    [time_steps] slices of one value per seed. *)
Theorem initialize_succeeds ds cfg x0 y0 z0 zh0 rest :
  zh ds = Some (zh0 :: rest) ->
  has_shape3 (Z.to_nat (nz ds)) (Z.to_nat (ny ds)) (Z.to_nat (nx ds)) zh0 ->
  length y0 = length x0 -> length z0 = length x0 ->
  (1 <= time_steps cfg)%nat ->
  1 <= nz ds -> 1 <= ny ds -> 1 <= nx ds ->
  exists s,
    initialize ds cfg x0 y0 z0 = Some s
    /\ well_shaped (time_steps cfg) (length x0) s.
Proof.
  intros Hzh Hs Ly Lz Ht Hz Hy Hx.
  assert (E : exists s, initialize ds cfg x0 y0 z0 = Some s).
  { unfold initialize. rewrite Ly, Lz, Nat.eqb_refl. cbn [andb negb].
    pose proof (shape2_zeros (time_steps cfg) (length x0)) as Z0.
    set_row_step Z0. set_row_step Z0. set_row_step Z0.
    unfold initial_surface, level_height. rewrite Hzh. cbn [bind].
    unfold x, y, z.
    destruct (interpn_defined3 (nz ds) (ny ds) (nx ds) zh0 (coords3 z0 y0 x0) 0%float)
      as (asl0 & ->); auto using coords3_points. cbn [bind].
    set_row_step Z0. eauto. }
  destruct E as (s & E). exists s. split; [exact E|].
  eapply initialize_shape; eassumption.
Qed.

Lemma initialize_succeeds_witness :
  exists s,
    initialize Terrain.ds Demo.cfg Demo.x0 Demo.y0 Demo.z0 = Some s
    /\ well_shaped (time_steps Demo.cfg) (length Demo.x0) s.
Proof.
  apply (initialize_succeeds Terrain.ds Demo.cfg Demo.x0 Demo.y0 Demo.z0
           Terrain.levels []);
    try reflexivity; try (simpl; lia).
  split; [reflexivity|repeat constructor].
Defined.

(** X22: what is enough for the last sampling cell to succeed: arrays of
    [time_steps >= 1] slices, a time index [start_time_step - (time_steps
    - 1)] the tracked variable can be read at, and an output whose fields
    all have shape [(nz, ny, nx)] with no empty axis. *)
Theorem final_sample_succeeds ds cfg s n :
  well_shaped (time_steps cfg) n s ->
  (1 <= time_steps cfg)%nat ->
  1 <= nz ds -> 1 <= ny ds -> 1 <= nx ds ->
  regular ds ->
  readable (tracked ds) (final_time_index cfg) ->
  exists out, final_sample ds cfg s = Some out.
Proof.
  intros (Sx & Sy & Sz & _ & _ & Sq) Ht Hz Hy Hx Hds Hr.
  unfold final_sample.
  apply py_index_readable in Hr. destruct Hr as (fld & Hf). rewrite Hf. cbn [bind].
  destruct (shape2_row_defined _ _ _ (time_steps cfg - 1) Sx) as (xt & -> & _); [lia|].
  destruct (shape2_row_defined _ _ _ (time_steps cfg - 1) Sy) as (yt & -> & _); [lia|].
  destruct (shape2_row_defined _ _ _ (time_steps cfg - 1) Sz) as (zt & -> & _); [lia|].
  cbn [bind]. unfold x, y, z.
  destruct (interpn_defined3 (nz ds) (ny ds) (nx ds) fld
              (coords3 (shift_half zt) (shift_half yt) (shift_half xt)) nan)
    as (val & ->); auto using coords3_points.
  { apply Hds. apply py_index_In in Hf.
    apply in_or_app. right. apply in_or_app. right. apply in_or_app. now right. }
  cbn [bind]. set_row_step Sq. eauto.
Qed.

Lemma final_sample_succeeds_witness :
  exists out, final_sample Demo.ds Demo.cfg Demo.looped = Some out.
Proof.
  assert (F : forall c, has_shape3 5 10 10 (Demo.const3 c))
    by (intros c; split; [reflexivity|repeat constructor]).
  apply (final_sample_succeeds Demo.ds Demo.cfg Demo.looped 3);
    try (simpl; lia).
  - unfold well_shaped, has_shape2. simpl. repeat split; repeat constructor.
  - intros f Hf. cbn [uinterp vinterp winterp tracked Demo.ds] in Hf.
    repeat (apply in_app_or in Hf; destruct Hf as [Hf|Hf]);
      apply repeat_spec in Hf; subst f; apply F.
  - unfold readable, len, final_time_index. cbn. lia.
Defined.
